(** * poco-verifier: a shallow embedding of the verification pipeline

    The development follows the TypeScript sources module by module:
    - [JsMap]                 the insertion-ordered [Map<string,string>];
    - [GopAnalyzer]           GopAnalyzer.ts ([splitVideoIntoGops]);
    - [MediaQualityEvaluator] MediaQualityEvaluator.ts ([calculateVmafScore]);
    - [CommitteeClient]       committee-client.ts (retry, fan-out, status read);
    - [VerifierService]       VerifierService.ts ([verifyTask], the dispatcher).

    JavaScript numbers that carry scores are modelled as rationals ([Q]);
    every subprocess, file-system probe, clock read and HTTP exchange is an
    oracle of the environment, and every externally visible action is
    appended to an event trace. *)

From Stdlib Require Import String List ZArith QArith Qabs Qminmax.
From Stdlib Require Import Bool Lia Arith.
From Stdlib Require Import Ascii DecimalString PrimFloat.
Import ListNotations.

Local Open Scope list_scope.
Local Open Scope string_scope.

(** ** Exceptions

    A JavaScript computation either completes with a value or throws. *)

Inductive Result (A : Type) : Type :=
| Ok (a : A)
| Throw (error : string).
Arguments Ok {A} a.
Arguments Throw {A} error.

Definition isOk {A} (r : Result A) : bool :=
  match r with Ok _ => true | Throw _ => false end.

(** [String(n)] for a non-negative integer. *)
Definition string_of_nat (n : nat) : string :=
  NilEmpty.string_of_uint (Nat.to_uint n).

(** The double-quote character, used when shell commands are assembled. *)
Definition dquote : string := String (Ascii.ascii_of_nat 34) EmptyString.

(** [Array.prototype.join]. *)
Fixpoint join (sep : string) (l : list string) : string :=
  match l with
  | [] => ""
  | [x] => x
  | x :: rest => x ++ sep ++ join sep rest
  end.

(** ** The JavaScript [Map] keyed by strings

    [timestamps[i]] is [undefined] when [i] is out of range, and [Map.set]
    accepts [undefined] as a key, so keys are strings or [undefined]. The map
    keeps insertion order; [set] on a present key overwrites in place. *)

Module JsMap.

Inductive Key : Type :=
| undefined
| str (s : string).

Definition key_eqb (a b : Key) : bool :=
  match a, b with
  | undefined, undefined => true
  | str x, str y => String.eqb x y
  | _, _ => false
  end.

Definition t : Type := list (Key * string).

Definition empty : t := [].

Fixpoint set (k : Key) (v : string) (m : t) : t :=
  match m with
  | [] => [(k, v)]
  | (k', v') :: rest =>
      if key_eqb k k' then (k, v) :: rest else (k', v') :: set k v rest
  end.

Fixpoint get (k : Key) (m : t) : option string :=
  match m with
  | [] => None
  | (k', v') :: rest => if key_eqb k k' then Some v' else get k rest
  end.

Definition keys (m : t) : list Key := map fst m.

Definition size (m : t) : nat := length m.

(** [arr[i]] for a JavaScript array of strings and an integer index. *)
Definition index (arr : list string) (i : Z) : Key :=
  if (i <? 0)%Z then undefined
  else match nth_error arr (Z.to_nat i) with
       | Some s => str s
       | None => undefined
       end.

End JsMap.

(** ** GopAnalyzer.ts *)

Module GopAnalyzer.

Import JsMap.

(** What one call of [splitVideoIntoGops] observes of its environment:
    the [path] helpers of the platform, [fs.existsSync] before and after
    the tool ran, and whether [mkdirSync] and the ffmpeg subprocess
    succeed. *)
Record Env : Type := mkEnv {
  extname : string -> string;
  basename : string -> string -> string;
  dirExists : string -> bool;
  mkdirSync : string -> Result unit;
  execAsync : string -> Result unit;
  existsSync : string -> bool
}.

Definition path_join (a b : string) : string := a ++ "/" ++ b.

Definition segmentPath (gopDir videoExt : string) (i : nat) : string :=
  path_join gopDir ("segment_" ++ string_of_nat i ++ videoExt).

Definition ffmpegCommand (ffmpegPath videoPathWithExt segmentTimes gopDir
                          videoExt : string) : string :=
  (if String.eqb ffmpegPath "" then "" else ffmpegPath ++ "/")
  ++ "ffmpeg -i " ++ dquote ++ videoPathWithExt ++ dquote
  ++ " -f segment -segment_times " ++ dquote ++ segmentTimes ++ dquote
  ++ " -c copy -map 0 -reset_timestamps 1 "
  ++ dquote ++ gopDir ++ "/segment_%d" ++ videoExt ++ dquote.

(** The body of the [for (let i = 1; i < timestamps.length; i++)] loop. *)
Definition middleStep (env : Env) (gopDir videoExt : string)
           (timestamps : list string) (gopMap : JsMap.t) (i : nat)
  : JsMap.t :=
  let segment := segmentPath gopDir videoExt i in
  if existsSync env segment
  then JsMap.set (index timestamps (Z.of_nat i)) segment gopMap
  else gopMap.

(** The map built after the tool returned (lines 76 to 104). *)
Definition buildGopMap (env : Env) (gopDir videoExt : string)
           (timestamps : list string) : JsMap.t :=
  let gopMap := JsMap.empty in
  let firstGopPath := segmentPath gopDir videoExt 0 in
  let gopMap :=
    if existsSync env firstGopPath
    then JsMap.set (index timestamps 0) firstGopPath gopMap
    else gopMap in
  let gopMap :=
    fold_left (middleStep env gopDir videoExt timestamps)
              (seq 1 (length timestamps - 1)) gopMap in
  let lastSegmentIdx := length timestamps in
  let lastSegmentPath := segmentPath gopDir videoExt lastSegmentIdx in
  if existsSync env lastSegmentPath
  then JsMap.set (index timestamps (Z.of_nat (length timestamps) - 1))
                 lastSegmentPath gopMap
  else gopMap.

(** [path.extname(videoPath) || ".mp4"] *)
Definition videoExtOf (env : Env) (videoPath : string) : string :=
  if String.eqb (extname env videoPath) "" then ".mp4"
  else extname env videoPath.

(** The directory that receives the segments of [videoPath]. *)
Definition gopDirOf (tempDir : string) (env : Env) (videoPath : string)
  : string :=
  path_join tempDir (basename env videoPath (videoExtOf env videoPath)).

(** [if (!fs.existsSync(gopDir)) fs.mkdirSync(gopDir, ...)] *)
Definition ensureGopDir (env : Env) (gopDir : string) : Result unit :=
  if dirExists env gopDir then Ok tt else mkdirSync env gopDir.

(** The command line handed to [execAsync]. *)
Definition commandOf (ffmpegPath tempDir : string) (env : Env)
           (videoPath : string) (timestamps : list string) : string :=
  let videoExt := videoExtOf env videoPath in
  let videoPathWithExt :=
    if String.eqb videoExt "" then videoPath ++ ".mp4" else videoPath in
  let segmentTimes := join "," timestamps in
  ffmpegCommand ffmpegPath videoPathWithExt segmentTimes
                (gopDirOf tempDir env videoPath) videoExt.

Definition splitVideoIntoGops (ffmpegPath tempDir : string) (env : Env)
           (videoPath : string) (timestamps : list string)
  : Result JsMap.t :=
  let videoExt := videoExtOf env videoPath in
  let gopDir := gopDirOf tempDir env videoPath in
  match ensureGopDir env gopDir with
  | Throw e => Throw e
  | Ok _ =>
      let cmd := commandOf ffmpegPath tempDir env videoPath timestamps in
      match execAsync env cmd with
      | Throw e => Throw e
      | Ok _ => Ok (buildGopMap env gopDir videoExt timestamps)
      end
  end.

(** Every key of [m] is one of the markers, and no key occurs twice. *)
Definition keysWithin (timestamps : list string) (m : JsMap.t) : Prop :=
  (forall k, In k (JsMap.keys m) ->
             exists s, k = JsMap.str s /\ In s timestamps)
  /\ NoDup (JsMap.keys m).

(** [extractGop]: the marker must be one of [allTimestamps]; the asset is
    split, and the segment registered under the marker is returned. The
    [catch] block logs and rethrows. *)
Definition extractGop (ffmpegPath tempDir : string) (env : Env)
           (videoPath : string) (allTimestamps : list string)
           (targetTimestamp : string) : Result string :=
  if negb (existsb (String.eqb targetTimestamp) allTimestamps)
  then Throw ("target timestamp " ++ targetTimestamp
              ++ " is not in the keyframe list")
  else
    match splitVideoIntoGops ffmpegPath tempDir env videoPath
                             allTimestamps with
    | Throw e => Throw e
    | Ok gopMap =>
        match JsMap.get (str targetTimestamp) gopMap with
        | Some gopPath =>
            if String.eqb gopPath ""
            then Throw ("no GOP found for timestamp " ++ targetTimestamp)
            else Ok gopPath
        | None => Throw ("no GOP found for timestamp " ++ targetTimestamp)
        end
    end.

End GopAnalyzer.


(** ** MediaQualityEvaluator.ts *)

Module MediaQualityEvaluator.

(** The libvmaf log as read back by [JSON.parse]: every level of
    [pooled_metrics?.vmaf?.mean] may be absent. *)
Record VmafLog : Type := mkVmafLog {
  pooled_metrics : option (option (option Q))
}.

(** What one call of [calculateVmafScore] observes: the clock (for the name
    of the log file), the ffmpeg subprocess, whether the log exists, its
    parsed content ([readFileSync] and [JSON.parse] may throw), and
    [unlinkSync]. *)
Record Env : Type := mkEnv {
  dateNow : Z;
  execAsync : string -> Result unit;
  existsSync : string -> bool;
  readLog : string -> Result VmafLog;
  unlinkSync : string -> Result unit
}.

Definition string_of_Z (z : Z) : string :=
  NilEmpty.string_of_int (Z.to_int z).

Definition vmafCommand (ffmpegPath distortedGopPath referenceGopPath
                        outputFile : string) : string :=
  (if String.eqb ffmpegPath "" then "" else ffmpegPath ++ "/")
  ++ "ffmpeg -i " ++ dquote ++ distortedGopPath ++ dquote
  ++ " -i " ++ dquote ++ referenceGopPath ++ dquote
  ++ " -filter_complex " ++ dquote
  ++ "[0:v]scale=1920:1080:flags=bicubic[main];"
  ++ "[1:v]scale=1920:1080:flags=bicubic[ref];"
  ++ "[main][ref]libvmaf=log_fmt=json:log_path=" ++ outputFile ++ dquote
  ++ " -f null -".

(** [vmafResult.pooled_metrics?.vmaf?.mean || 0]: an absent or zero mean
    reads as 0. *)
Definition pooledMean (vmafResult : VmafLog) : Q :=
  match pooled_metrics vmafResult with
  | Some (Some (Some mean)) => if Qeq_bool mean 0 then 0%Q else mean
  | _ => 0%Q
  end.

(** [path.join(this.tempDir, `vmaf_${Date.now()}.json`)] *)
Definition outputFileOf (tempDir : string) (env : Env) : string :=
  tempDir ++ "/" ++ "vmaf_" ++ string_of_Z (dateNow env) ++ ".json".

(** The [try] block of [calculateVmafScore]. *)
Definition calculateVmafScore_try (ffmpegPath tempDir : string) (env : Env)
           (referenceGopPath distortedGopPath : string) : Result Q :=
  let outputFile := outputFileOf tempDir env in
  let cmd := vmafCommand ffmpegPath distortedGopPath referenceGopPath
                         outputFile in
  match execAsync env cmd with
  | Throw e => Throw e
  | Ok _ =>
      if negb (existsSync env outputFile)
      then Throw "VMAF output file not found"
      else
        match readLog env outputFile with
        | Throw e => Throw e
        | Ok vmafResult =>
            let vmafScore := pooledMean vmafResult in
            match unlinkSync env outputFile with
            | Throw e => Throw e
            | Ok _ => Ok vmafScore
            end
        end
  end.

(** [try { ... return vmafScore; } catch (error) { return 0; }] *)
Definition calculateVmafScore (ffmpegPath tempDir : string) (env : Env)
           (referenceGopPath distortedGopPath : string) : Result Q :=
  match calculateVmafScore_try ffmpegPath tempDir env
                               referenceGopPath distortedGopPath with
  | Ok vmafScore => Ok vmafScore
  | Throw _ => Ok 0%Q
  end.

Definition getFixedAudioScore : Q := 43 # 10.

Definition getFixedSyncScore : Q := 0.

End MediaQualityEvaluator.

(** ** types.ts *)

Module Types.

(** Fields the verifier never reads (broadcaster, requirements, status,
    times) are left out of [TaskData]. *)
Record TaskData : Type := mkTaskData {
  task_id : string;
  source_ipfs : string;
  result_ipfs : option string;
  assigned_verifiers : list string;
  keyframe_timestamps : option (list string);
  selected_gops : option (list string)
}.

Record TaskDataWithRole : Type := mkTaskDataWithRole {
  task : TaskData;
  is_supplemental_verifier : bool
}.

Record VideoSpecification : Type := mkVideoSpecification {
  codec : string;
  resolution : string;
  bitrate : Z;
  framerate : Q
}.

Record GopScore : Type := mkGopScore {
  timestamp : string;
  vmaf_score : Q;
  hash : string
}.

Record VerifierQosProof : Type := mkVerifierQosProof {
  id : string;
  proof_task_id : string;
  verifier_id : string;
  proof_timestamp : Z;
  video_specs : VideoSpecification;
  video_score : Q;
  gop_scores : list GopScore;
  audio_score : option Q;
  sync_score : option Q;
  signature : string;
  isSupplementary : bool
}.

(** The body posted to a committee member ([convertToApiProofFormat]). *)
Record ApiGopScore : Type := mkApiGopScore {
  api_timestamp : string;
  vmafScore : Q;
  api_hash : string
}.

Record ApiProof : Type := mkApiProof {
  taskId : string;
  verifierId : string;
  apiTimestamp : Z;
  mediaSpecs : VideoSpecification;
  overallScore : Q;
  gopScores : list ApiGopScore;
  apiSignature : string
}.

(** A committee member's reply body, as far as the client looks at it: the
    client only tests it for truthiness and hands it on. *)
Inductive Json : Type :=
| JNull
| JBool (b : bool)
| JNum (q : Q)
| JStr (s : string)
| JObj (fields : list (string * string)).

Definition truthy (v : Json) : bool :=
  match v with
  | JNull => false
  | JBool b => b
  | JNum q => negb (Qeq_bool q 0)
  | JStr s => negb (String.eqb s "")
  | JObj _ => true
  end.

End Types.

(** ** The process: environment, instance state and effects *)

Module Runtime.

Import Types.

Record CommitteeMember : Type := mkCommitteeMember {
  account_id : string;
  ip_address : string;
  port : Z;
  is_leader : bool
}.

Record Response : Type := mkResponse {
  status : Z;
  data : Json
}.

(** Externally visible actions, in the order they are issued. *)
Inductive Event : Type :=
| EvHttpPost (url : string) (body : ApiProof)
| EvHttpGet (url : string)
| EvSleep (ms : Q)
| EvDownload (cid fileName : string)
| EvSplit (videoPath : string) (timestamps : list string)
| EvVmaf (referenceGopPath distortedGopPath : string)
| EvReadFile (path : string)
| EvProbe (videoPath : string)
| EvSubmitVerifierProof (proof : VerifierQosProof)
| EvCleanupFile (filePath : string)
| EvCleanupAllGops.

Definition eventUrl (e : Event) : option string :=
  match e with
  | EvHttpPost url _ => Some url
  | EvHttpGet url => Some url
  | _ => None
  end.

(** How many requests the trace has already sent to [url]. *)
Definition hits (url : string) (trace : list Event) : nat :=
  length (filter (fun e => match eventUrl e with
                           | Some u => String.eqb u url
                           | None => false
                           end) trace).

(** The environment. A committee member answers the [n]-th request it
    receives on a URL with [httpPost url n] / [httpGet url n]; [Throw] is a
    network error or a timeout. The remaining fields are the external
    collaborators of the pipeline. *)
Record World : Type := mkWorld {
  ffmpegPath : string;
  cwd : string;
  verifierAccountId : string;
  dateNow : list Event -> Z;
  httpPost : string -> nat -> Result Response;
  httpGet : string -> nat -> Result Response;
  downloadFile : string -> string -> Result unit;
  gopEnv : string -> GopAnalyzer.Env;
  vmafEnv : string -> string -> MediaQualityEvaluator.Env;
  sha256File : string -> Result string;
  ffprobe : string -> Result VideoSpecification;
  submit_verifier_proof : VerifierQosProof -> Result bool;
  removeGopFiles : list Event -> Result unit;
  generatePlaceholderSignature : list Event -> string
}.

(** The mutable fields of the [VerifierService] instance and of the
    [CommitteeClient] it owns, and the trace of actions so far. *)
Record State : Type := mkState {
  committeeMembers : list CommitteeMember;
  lastMembersUpdateTime : Z;
  isProcessingTask : bool;
  taskQueue : list TaskDataWithRole;
  trace : list Event
}.

Definition M (A : Type) : Type := State -> Result A * State.

Definition ret {A} (a : A) : M A := fun s => (Ok a, s).

Definition throw {A} (error : string) : M A := fun s => (Throw error, s).

Definition bind {A B} (c : M A) (k : A -> M B) : M B :=
  fun s =>
    match c s with
    | (Ok a, s') => k a s'
    | (Throw e, s') => (Throw e, s')
    end.

(** [try { c } catch (error) { handler(error) }] *)
Definition tryCatch {A} (c : M A) (handler : string -> M A) : M A :=
  fun s =>
    match c s with
    | (Ok a, s') => (Ok a, s')
    | (Throw e, s') => handler e s'
    end.

Definition liftResult {A} (r : Result A) : M A := fun s => (r, s).

Definition get : M State := fun s => (Ok s, s).

(** The state after the actions [events] were issued. *)
Definition append (s : State) (events : list Event) : State :=
  mkState (committeeMembers s) (lastMembersUpdateTime s)
          (isProcessingTask s) (taskQueue s) (trace s ++ events)%list.

Definition emit (e : Event) : M unit :=
  fun s => (Ok tt, append s [e]).

Definition setMembers (members : list CommitteeMember) (now : Z) : M unit :=
  fun s => (Ok tt,
            mkState members now (isProcessingTask s) (taskQueue s) (trace s)).

(** Every run of [c] relates the state it starts from to the state it
    leaves by [R], whether it completes or throws. *)
Definition preserves {A} (R : State -> State -> Prop) (c : M A) : Prop :=
  forall s r s', c s = (r, s') -> R s s'.

(** The busy flag and the queue are the same in both states. *)
Definition sameDispatch (s s' : State) : Prop :=
  isProcessingTask s' = isProcessingTask s /\ taskQueue s' = taskQueue s.

(** The HTTP requests of a trace. *)
Definition requests (events : list Event) : list Event :=
  filter (fun e => match eventUrl e with
                   | Some _ => true
                   | None => false
                   end) events.

(** No HTTP request was sent between the two states. *)
Definition sameRequests (s s' : State) : Prop :=
  requests (trace s') = requests (trace s).

End Runtime.

Declare Scope js_scope.
Delimit Scope js_scope with js.
Notation "x <- c ;; k" := (Runtime.bind c (fun x => k))
  (at level 61, c at next level, right associativity) : js_scope.
Notation "c ;; k" := (Runtime.bind c (fun _ => k))
  (at level 61, right associativity) : js_scope.
Local Open Scope js_scope.

(** ** committee-client.ts *)

Module CommitteeClient.

Import Types Runtime.

Definition MEMBERS_UPDATE_INTERVAL : Z := 5 * 60 * 1000.

(** The loop of [withRetry]. [remaining] is [maxRetries - retries - 1], the
    number of retries still allowed when [operation] is called; the loop
    throws when it reaches 0 ([retries >= maxRetries] after [retries++]) and
    it decreases at every turn, so the [while (true)] terminates. *)
Fixpoint withRetryLoop {A} (operation : M A) (remaining : nat) (delay : Q)
  : M A :=
  fun s =>
    match operation s with
    | (Ok a, s') => (Ok a, s')
    | (Throw error, s') =>
        match remaining with
        | O => (Throw error, s')
        | S remaining' =>
            (emit (EvSleep delay) ;;
             withRetryLoop operation remaining'
                           (Qmin (delay * (15 # 10)) 30000)) s'
        end
    end.

Definition withRetry {A} (operation : M A) (maxRetries : nat)
           (initialDelay : Q) : M A :=
  withRetryLoop operation (maxRetries - 1) initialDelay.

Definition fixedMembers : list CommitteeMember :=
  [ mkCommitteeMember "leader" "10.24.136.124" 9000 true;
    mkCommitteeMember "follower1" "10.24.216.33" 9000 false;
    mkCommitteeMember "follower2" "10.24.198.225" 9000 false;
    mkCommitteeMember "follower3" "10.24.161.186" 9000 false ].

Definition updateCommitteeMembers (w : World) : M unit :=
  s <- get ;;
  let now := dateNow w (trace s) in
  if ((now - lastMembersUpdateTime s <? MEMBERS_UPDATE_INTERVAL)%Z
      && (0 <? length (committeeMembers s))%nat)%bool
  then ret tt
  else setMembers fixedMembers now.

Definition memberUrl (member : CommitteeMember) : string :=
  "http://" ++ ip_address member ++ ":"
  ++ MediaQualityEvaluator.string_of_Z (port member).

Definition post (w : World) (url : string) (body : ApiProof) : M Response :=
  s <- get ;;
  emit (EvHttpPost url body) ;;
  liftResult (httpPost w url (hits url (trace s))).

Definition httpGetM (w : World) (url : string) : M Response :=
  s <- get ;;
  emit (EvHttpGet url) ;;
  liftResult (httpGet w url (hits url (trace s))).

Definition convertToApiProofFormat (proof : VerifierQosProof) : ApiProof :=
  mkApiProof (proof_task_id proof) (verifier_id proof) (proof_timestamp proof)
             (mkVideoSpecification (codec (video_specs proof))
                                   (resolution (video_specs proof))
                                   (bitrate (video_specs proof))
                                   (framerate (video_specs proof)))
             (video_score proof)
             (map (fun gop => mkApiGopScore (timestamp gop) (vmaf_score gop)
                                            (hash gop))
                  (gop_scores proof))
             (signature proof).

(** The [n]-th request posted to [url] is answered with HTTP 202. *)
Definition acked (w : World) (url : string) (n : nat) : bool :=
  match httpPost w url n with
  | Ok response => (status response =? 202)%Z
  | Throw _ => false
  end.

(** One attempt of [sendProofToMember]: the operation given to
    [withRetry]. *)
Definition sendProofAttempt (w : World) (url : string) (proof : ApiProof)
  : M bool :=
  response <- post w url proof ;;
  if (status response =? 202)%Z then ret true
  else throw "send failed, unexpected status".

(** [`http://${member.ip_address}:${member.port}/proof`] *)
Definition proofUrl (member : CommitteeMember) : string :=
  memberUrl member ++ "/proof".

Definition sendProofToMember (w : World) (member : CommitteeMember)
           (proof : ApiProof) : M bool :=
  tryCatch
    (withRetry (sendProofAttempt w (proofUrl member) proof) 2 1000)
    (fun _ => ret false).

(** [Promise.allSettled]: every operation is run to its end and its outcome
    recorded, whether it fulfilled or rejected. Each member operation only
    talks to its own URL and a reply depends on the URL and on the number
    of requests that URL has received, so running the operations one after
    the other yields the outcomes of any interleaving. *)
Fixpoint allSettled {A} (promises : list (M A)) : M (list (Result A)) :=
  match promises with
  | [] => ret []
  | p :: rest =>
      fun s =>
        let '(r, s') := p s in
        (results <- allSettled rest ;; ret (r :: results)) s'
  end.

Definition fulfilledTrue (r : Result bool) : bool :=
  match r with
  | Ok value => value
  | Throw _ => false
  end.

Definition successCount (results : list (Result bool)) : nat :=
  length (filter fulfilledTrue results).

Definition sendProofToCommittee (w : World) (proof : VerifierQosProof)
  : M bool :=
  tryCatch
    (updateCommitteeMembers w ;;
     s <- get ;;
     if (length (committeeMembers s) =? 0)%nat then ret false
     else
       let apiProof := convertToApiProofFormat proof in
       let sendPromises :=
         map (fun member => sendProofToMember w member apiProof)
             (committeeMembers s) in
       results <- allSettled sendPromises ;;
       ret (0 <? successCount results)%nat)
    (fun _ => ret false).

(** The outcome [r] of the operation for [member] in a fan-out that led
    from [s] to [s']: acknowledged, a request sent to the member's proof
    URL in between having been answered with HTTP 202; or retries used up,
    two successive requests sent to that URL in between having both
    failed. *)
Definition settled (w : World) (s s' : State) (member : CommitteeMember)
           (r : Result bool) : Prop :=
  let url := proofUrl member in
  (r = Ok true /\
   exists n, (hits url (trace s) <= n < hits url (trace s'))%nat /\
             acked w url n = true)
  \/ (r = Ok false /\
      exists n, (hits url (trace s) <= n /\ S n < hits url (trace s'))%nat /\
                acked w url n = false /\ acked w url (S n) = false).

(** Between [s] and [s'] every member of the committee list in force
    received at least one request on its proof URL. *)
Definition fullFanOut (w : World) (s s' : State) : Prop :=
  forall m,
    In m (committeeMembers (snd (updateCommitteeMembers w s))) ->
    (hits (proofUrl m) (trace s) < hits (proofUrl m) (trace s'))%nat.

Definition sendSupplementaryAttempt (w : World) (url : string)
           (proof : ApiProof) : M bool :=
  response <- post w url proof ;;
  if (status response =? 202)%Z then ret true
  else throw "send failed, unexpected status".

Definition sendSupplementaryProofToMember (w : World)
           (member : CommitteeMember) (taskId : string) (proof : ApiProof)
  : M bool :=
  tryCatch
    (withRetry
       (sendSupplementaryAttempt
          w (memberUrl member ++ "/proof/" ++ taskId ++ "/supplementary")
          proof)
       3 2000)
    (fun _ => ret false).

Definition sendSupplementaryProof (w : World) (taskId : string)
           (proof : VerifierQosProof) : M bool :=
  tryCatch
    (updateCommitteeMembers w ;;
     s <- get ;;
     if (length (committeeMembers s) =? 0)%nat then ret false
     else
       let apiProof := convertToApiProofFormat proof in
       let sendPromises :=
         map (fun member =>
                sendSupplementaryProofToMember w member taskId apiProof)
             (committeeMembers s) in
       results <- allSettled sendPromises ;;
       ret (0 <? successCount results)%nat)
    (fun _ => ret false).

(** [`http://${member.ip_address}:${member.port}/proof/${taskId}/status`] *)
Definition statusUrl (member : CommitteeMember) (taskId : string) : string :=
  memberUrl member ++ "/proof/" ++ taskId ++ "/status".

(** The payload of the [n]-th status request sent to [url], when that
    request is answered with HTTP 200 and a truthy body. *)
Definition answered (w : World) (url : string) (n : nat) : option Json :=
  match httpGet w url n with
  | Ok response =>
      if ((status response =? 200)%Z && truthy (data response))%bool
      then Some (data response)
      else None
  | Throw _ => None
  end.

(** What a member queried from its [h]-th request on yields within the two
    attempts of [getTaskStatusFromMember]. *)
Definition queryResult (w : World) (url : string) (h : nat) : option Json :=
  match answered w url h with
  | Some payload => Some payload
  | None => answered w url (S h)
  end.

(** The member behind [url] answers no status request. *)
Definition down (w : World) (url : string) : Prop :=
  forall n, answered w url n = None.

(** One attempt of [getTaskStatusFromMember]. *)
Definition getStatusAttempt (w : World) (url : string) : M Json :=
  response <- httpGetM w url ;;
  if ((status response =? 200)%Z && truthy (data response))%bool
  then ret (data response)
  else throw "status query failed".

(** Returns the payload, or [JNull] once the retries are used up. *)
Definition getTaskStatusFromMember (w : World) (member : CommitteeMember)
           (taskId : string) : M Json :=
  tryCatch
    (withRetry (getStatusAttempt w (statusUrl member taskId)) 2 1000)
    (fun _ => ret JNull).

(** The [for (const member of followers)] loop of [getTaskStatus]:
    [Some status] when the loop returned from the function, [None] when it
    ran to its end. *)
Fixpoint queryFollowers (w : World) (followers : list CommitteeMember)
         (taskId : string) : M (option Json) :=
  match followers with
  | [] => ret None
  | member :: rest =>
      r <- tryCatch
             (status <- getTaskStatusFromMember w member taskId ;;
              ret (if truthy status then Some status else None))
             (fun _ => ret None) ;;
      match r with
      | Some status => ret (Some status)
      | None => queryFollowers w rest taskId
      end
  end.

(** The operation [getTaskStatus] hands to [withRetry]. *)
Definition getTaskStatusRound (w : World) (taskId : string) : M Json :=
  updateCommitteeMembers w ;;
  s <- get ;;
  if (length (committeeMembers s) =? 0)%nat then ret JNull
  else
    fromLeader <-
      match find is_leader (committeeMembers s) with
      | Some leader =>
          tryCatch
            (status <- getTaskStatusFromMember w leader taskId ;;
             ret (if truthy status then Some status else None))
            (fun _ => ret None)
      | None => ret None
      end ;;
    match fromLeader with
    | Some status => ret status
    | None =>
        fromFollower <-
          queryFollowers
            w (filter (fun m => negb (is_leader m)) (committeeMembers s))
            taskId ;;
        match fromFollower with
        | Some status => ret status
        | None => throw "no committee member returned the task status"
        end
    end.

Definition getTaskStatus (w : World) (taskId : string) : M Json :=
  tryCatch (withRetry (getTaskStatusRound w taskId) 2 1000)
           (fun _ => ret JNull).

(** [withRetry] transcribed with its counter: [retries] counts the failed
    calls, the loop throws when [retries >= maxRetries] after the
    increment, and [fuel] bounds the number of turns of [while (true)];
    [None] means the fuel ran out. *)
Fixpoint withRetryWhile {A} (fuel : nat) (operation : M A)
         (maxRetries retries : nat) (delay : Q) (s : State)
  : option (Result A * State) :=
  match fuel with
  | O => None
  | S fuel' =>
      match operation s with
      | (Ok a, s') => Some (Ok a, s')
      | (Throw error, s') =>
          let retries := S retries in
          if (maxRetries <=? retries)%nat then Some (Throw error, s')
          else withRetryWhile fuel' operation maxRetries retries
                              (Qmin (delay * (15 # 10)) 30000)
                              (append s' [EvSleep delay])
      end
  end.

(** The actions of a send that needed [retries] retries: a request, then a
    pause and a request per retry, the pause growing by half each time up
    to 30 seconds. *)
Fixpoint attemptEvents (url : string) (body : ApiProof) (delay : Q)
         (retries : nat) : list Event :=
  match retries with
  | O => [EvHttpPost url body]
  | S retries' =>
      EvHttpPost url body :: EvSleep delay
      :: attemptEvents url body (Qmin (delay * (15 # 10)) 30000) retries'
  end.

(** The number of POST requests among some actions. *)
Definition posts (events : list Event) : nat :=
  length (filter (fun e => match e with
                           | EvHttpPost _ _ => true
                           | _ => false
                           end) events).

(** The pauses among some actions. *)
Definition pauses (events : list Event) : list Q :=
  flat_map (fun e => match e with
                     | EvSleep ms => [ms]
                     | _ => []
                     end) events.

(** [`http://${ip}:${port}/proof/${taskId}/supplementary`] *)
Definition supplementaryUrl (member : CommitteeMember) (taskId : string)
  : string :=
  memberUrl member ++ "/proof/" ++ taskId ++ "/supplementary".

(** A member operation of a fan-out: the attempt under [withRetryLoop]
    with [remaining] retries allowed, its final failure turned into
    [false]. *)
Definition sendWithRetries (w : World) (url : string) (body : ApiProof)
           (remaining : nat) (delay : Q) : M bool :=
  tryCatch (withRetryLoop (sendProofAttempt w url body) remaining delay)
           (fun _ => ret false).

End CommitteeClient.

(** ** ipfs-service.ts and near-connection.ts, as far as the pipeline uses
    them *)

Module IpfsService.

Import Types Runtime.

Definition tempDir (w : World) : string := cwd w ++ "/" ++ "temp".

(** [downloadFile]: the local path is [tempDir/fileName]; whether the file
    was cached or had to be fetched, and whether that failed, is the
    environment's answer. *)
Definition downloadFileM (w : World) (cid fileName : string) : M string :=
  emit (EvDownload cid fileName) ;;
  _ <- liftResult (downloadFile w cid fileName) ;;
  ret (tempDir w ++ "/" ++ fileName).

Definition downloadMediaFiles (w : World)
           (taskId sourceIpfs resultIpfs : string) : M (string * string) :=
  sourcePath <- downloadFileM w sourceIpfs (taskId ++ "-source.mp4") ;;
  resultPath <- downloadFileM w resultIpfs (taskId ++ "-result.mp4") ;;
  ret (sourcePath, resultPath).

(** [cleanupFile] is an [async] method called without [await]: a failure
    inside it rejects a promise nobody waits for and never reaches the
    caller. *)
Definition cleanupFile (filePath : string) : M unit :=
  emit (EvCleanupFile filePath).

End IpfsService.

Module NearConnection.

Import Types Runtime.

(** [try { return await contract.submit_verifier_proof(...) }
     catch { return false }] *)
Definition submitVerifierProof (w : World) (proof : VerifierQosProof)
  : M bool :=
  emit (EvSubmitVerifierProof proof) ;;
  match submit_verifier_proof w proof with
  | Ok result => ret result
  | Throw _ => ret false
  end.

End NearConnection.

(** ** VerifierService.ts *)

Module VerifierService.

Import Types Runtime.

Definition gopTempDir (w : World) : string :=
  cwd w ++ "/" ++ "temp" ++ "/" ++ "gops".

Definition vmafTempDir (w : World) : string :=
  cwd w ++ "/" ++ "temp" ++ "/" ++ "vmaf".

Definition splitVideoIntoGops (w : World) (videoPath : string)
           (timestamps : list string) : M JsMap.t :=
  emit (EvSplit videoPath timestamps) ;;
  liftResult (GopAnalyzer.splitVideoIntoGops
                (ffmpegPath w) (gopTempDir w) (gopEnv w videoPath)
                videoPath timestamps).

Definition calculateVmafScore (w : World)
           (referenceGopPath distortedGopPath : string) : M Q :=
  emit (EvVmaf referenceGopPath distortedGopPath) ;;
  liftResult (MediaQualityEvaluator.calculateVmafScore
                (ffmpegPath w) (vmafTempDir w)
                (vmafEnv w referenceGopPath distortedGopPath)
                referenceGopPath distortedGopPath).

Definition calculateGopHash (w : World) (gopPath : string) : M string :=
  emit (EvReadFile gopPath) ;;
  liftResult (sha256File w gopPath).

Definition getVideoSpecifications (w : World) (videoPath : string)
  : M VideoSpecification :=
  emit (EvProbe videoPath) ;;
  liftResult (ffprobe w videoPath).

(** [cleanupAllGops] is synchronous: a failing [fs] call inside it throws
    into the caller. *)
Definition cleanupAllGops (w : World) : M unit :=
  s <- get ;;
  emit EvCleanupAllGops ;;
  liftResult (removeGopFiles w (trace s)).

(** [allTimestamps.includes(g)] *)
Definition includes (l : list string) (g : string) : bool :=
  existsb (String.eqb g) l.

(** Lines 241 to 248: the keyframe list, or the selected GOPs when the task
    carries none, extended by every selected GOP it does not contain. *)
Definition allTimestampsOf (keyframe_timestamps : option (list string))
           (selected_gops : list string) : list string :=
  let allTimestamps :=
    match keyframe_timestamps with
    | Some ts => ts
    | None => selected_gops
    end in
  fold_left (fun all gopTimestamp =>
               if includes all gopTimestamp then all
               else (all ++ [gopTimestamp])%list)
            selected_gops allTimestamps.

(** [!path] for the result of [Map.get]: absent, or the empty string. *)
Definition present (o : option string) : option string :=
  match o with
  | Some p => if String.eqb p "" then None else Some p
  | None => None
  end.

(** The scoring loop, lines 282 to 313. *)
Fixpoint scoreLoop (w : World) (sourceGopMap resultGopMap : JsMap.t)
         (selected_gops : list string) (gopScores : list GopScore)
  : M (list GopScore) :=
  match selected_gops with
  | [] => ret gopScores
  | gopTimestamp :: rest =>
      match present (JsMap.get (JsMap.str gopTimestamp) sourceGopMap),
            present (JsMap.get (JsMap.str gopTimestamp) resultGopMap) with
      | Some sourceGopPath, Some resultGopPath =>
          vmafScore <- calculateVmafScore w sourceGopPath resultGopPath ;;
          gopHash <- calculateGopHash w resultGopPath ;;
          let gopScore := mkGopScore gopTimestamp (vmafScore - 10) gopHash in
          scoreLoop w sourceGopMap resultGopMap rest
                    (gopScores ++ [gopScore])%list
      | _, _ => scoreLoop w sourceGopMap resultGopMap rest gopScores
      end
  end.

(** [gopScores.reduce((sum, score) => sum + score.vmaf_score, 0)
     / gopScores.length] *)
Definition overallVideoScore (gopScores : list GopScore) : Q :=
  fold_left (fun sum score => sum + vmaf_score score) gopScores 0
  / inject_Z (Z.of_nat (length gopScores)).

(** The same aggregation on IEEE 754 binary64 numbers, the numbers the
    JavaScript engine computes with; [number_of_nat] is the (exact)
    conversion of [gopScores.length]. *)
Fixpoint number_of_nat (n : nat) : float :=
  match n with
  | O => 0%float
  | S n' => (number_of_nat n' + 1)%float
  end.

Definition overallVideoScore64 (vmaf_scores : list float) : float :=
  (fold_left (fun sum score => sum + score) vmaf_scores 0
   / number_of_nat (length vmaf_scores))%float.

(** The arithmetic mean of a list of values. *)
Definition mean (values : list Q) : Q :=
  fold_right Qplus 0 values / inject_Z (Z.of_nat (length values)).

(** Both maps hold a segment for the marker: the test at line 289 lets the
    marker through. *)
Definition bothPresent (sourceGopMap resultGopMap : JsMap.t)
           (gopTimestamp : string) : bool :=
  match present (JsMap.get (JsMap.str gopTimestamp) sourceGopMap),
        present (JsMap.get (JsMap.str gopTimestamp) resultGopMap) with
  | Some _, Some _ => true
  | _, _ => false
  end.

(** A marker whose segments are present, for which the scorer returns
    [fst (snd sample)] and whose candidate segment hashes to
    [snd (snd sample)]. *)
Definition scored (w : World) (sourceGopMap resultGopMap : JsMap.t)
           (sample : string * (Q * string)) : Prop :=
  exists sourceGopPath resultGopPath,
    present (JsMap.get (JsMap.str (fst sample)) sourceGopMap)
      = Some sourceGopPath /\
    present (JsMap.get (JsMap.str (fst sample)) resultGopMap)
      = Some resultGopPath /\
    MediaQualityEvaluator.calculateVmafScore
      (ffmpegPath w) (vmafTempDir w)
      (vmafEnv w sourceGopPath resultGopPath)
      sourceGopPath resultGopPath = Ok (fst (snd sample)) /\
    sha256File w resultGopPath = Ok (snd (snd sample)).

(** Steps 1 to 5 of [verifyTask]: input checks, download, splitting and
    the scoring loop. Returns the per-sample scores with the two downloaded
    paths. *)
Definition verifyTask_score (w : World) (task : TaskData)
  : M (list GopScore * string * string) :=
  match (if String.eqb (source_ipfs task) "" then None else result_ipfs task),
        selected_gops task with
  | Some result_ipfs, Some selected_gops =>
      if String.eqb result_ipfs "" then throw "task information incomplete"
      else if (length selected_gops =? 0)%nat
      then throw "task has no selected GOP"
      else
        let allTimestamps :=
          allTimestampsOf (keyframe_timestamps task) selected_gops in
        paths <- IpfsService.downloadMediaFiles
                   w (task_id task) (source_ipfs task) result_ipfs ;;
        let '(sourcePath, resultPath) := paths in
        sourceGopMap <- splitVideoIntoGops w sourcePath allTimestamps ;;
        resultGopMap <- splitVideoIntoGops w resultPath allTimestamps ;;
        gopScores <- scoreLoop w sourceGopMap resultGopMap selected_gops [] ;;
        ret (gopScores, sourcePath, resultPath)
  | _, _ => throw "task information incomplete"
  end.

(** Steps 1 to 8 of [verifyTask]: everything up to the construction of the
    proof. Returns the proof with the two downloaded paths. *)
Definition verifyTask_build (w : World) (task : TaskData)
  : M (VerifierQosProof * string * string) :=
  scored <- verifyTask_score w task ;;
  let '(gopScores, sourcePath, resultPath) := scored in
  if (length gopScores =? 0)%nat
  then throw "no GOP was evaluated"
  else
    let overall := overallVideoScore gopScores in
    videoSpecs <- getVideoSpecifications w resultPath ;;
    s <- get ;;
    let proof :=
      mkVerifierQosProof
        ("proof-" ++ task_id task ++ "-" ++ verifierAccountId w)
        (task_id task) (verifierAccountId w) (dateNow w (trace s))
        videoSpecs overall gopScores
        (Some MediaQualityEvaluator.getFixedAudioScore)
        (Some MediaQualityEvaluator.getFixedSyncScore)
        (generatePlaceholderSignature w (trace s)) false in
    ret (proof, sourcePath, resultPath).

(** Steps 9 to 11 of [verifyTask]: ledger submission, committee delivery,
    cleanup. *)
Definition verifyTask_deliver (w : World) (proof : VerifierQosProof)
           (sourcePath resultPath : string) : M (option VerifierQosProof) :=
  submitResult <- NearConnection.submitVerifierProof w proof ;;
  if negb submitResult then throw "ledger submission failed"
  else
    _ <- CommitteeClient.sendProofToCommittee w proof ;;
    IpfsService.cleanupFile sourcePath ;;
    IpfsService.cleanupFile resultPath ;;
    cleanupAllGops w ;;
    ret (Some proof).

Definition verifyTask (w : World) (task : TaskData)
  : M (option VerifierQosProof) :=
  tryCatch
    (built <- verifyTask_build w task ;;
     let '(proof, sourcePath, resultPath) := built in
     verifyTask_deliver w proof sourcePath resultPath)
    (fun _ => ret None).

(** The local paths of the two downloaded assets of a task. *)
Definition sourcePathOf (w : World) (task : TaskData) : string :=
  IpfsService.tempDir w ++ "/" ++ (task_id task ++ "-source.mp4").

Definition resultPathOf (w : World) (task : TaskData) : string :=
  IpfsService.tempDir w ++ "/" ++ (task_id task ++ "-result.mp4").

(** The task is complete, both assets download and split, and every
    selected marker is extracted on both assets, scored and hashed:
    [samples] lists the selected markers with the scorer's value and the
    fingerprint of each. *)
Definition extractedAndScored (w : World) (task : TaskData)
           (samples : list (string * (Q * string))) : Prop :=
  exists resultIpfs sourceGopMap resultGopMap,
    source_ipfs task <> "" /\
    result_ipfs task = Some resultIpfs /\ resultIpfs <> "" /\
    selected_gops task = Some (map fst samples) /\ samples <> [] /\
    isOk (downloadFile w (source_ipfs task) (task_id task ++ "-source.mp4"))
      = true /\
    isOk (downloadFile w resultIpfs (task_id task ++ "-result.mp4")) = true /\
    GopAnalyzer.splitVideoIntoGops
      (ffmpegPath w) (gopTempDir w) (gopEnv w (sourcePathOf w task))
      (sourcePathOf w task)
      (allTimestampsOf (keyframe_timestamps task) (map fst samples))
      = Ok sourceGopMap /\
    GopAnalyzer.splitVideoIntoGops
      (ffmpegPath w) (gopTempDir w) (gopEnv w (resultPathOf w task))
      (resultPathOf w task)
      (allTimestampsOf (keyframe_timestamps task) (map fst samples))
      = Ok resultGopMap /\
    Forall (scored w sourceGopMap resultGopMap) samples.

(** The steps after scoring succeed: the probe of the candidate asset, the
    ledger submission and the removal of the segment files. *)
Definition deliverable (w : World) (task : TaskData) : Prop :=
  isOk (ffprobe w (resultPathOf w task)) = true /\
  (forall proof, submit_verifier_proof w proof = Ok true) /\
  (forall events, removeGopFiles w events = Ok tt).

(** The cleanup actions of step 11. *)
Definition isCleanup (e : Event) : bool :=
  match e with
  | EvCleanupFile _ => true
  | EvCleanupAllGops => true
  | _ => false
  end.

Definition isDownload (e : Event) : bool :=
  match e with
  | EvDownload _ _ => true
  | _ => false
  end.

(** The computation [c] issues no cleanup action. *)
Definition noCleanup {A} (c : M A) : Prop :=
  forall s r s',
    c s = (r, s') ->
    filter isCleanup (trace s') = filter isCleanup (trace s).

Definition markSupplementary (proof : VerifierQosProof) : VerifierQosProof :=
  mkVerifierQosProof (id proof) (proof_task_id proof) (verifier_id proof)
                     (proof_timestamp proof) (video_specs proof)
                     (video_score proof) (gop_scores proof)
                     (audio_score proof) (sync_score proof)
                     (signature proof) true.

(** The guard and the two assignments that open [processNextTask]
    (lines 164 to 171): [None] when the call returns at once. *)
Definition processNextTask_begin (s : State)
  : option (TaskDataWithRole * State) :=
  if (isProcessingTask s || (length (taskQueue s) =? 0)%nat)%bool then None
  else
    match taskQueue s with
    | [] => None
    | taskWithRole :: rest =>
        Some (taskWithRole,
              mkState (committeeMembers s) (lastMembersUpdateTime s)
                      true rest (trace s))
    end.

(** The [try] block of [processNextTask] (lines 177 to 202). *)
Definition processNextTask_try (w : World) (taskWithRole : TaskDataWithRole)
  : M unit :=
  proof <- verifyTask w (task taskWithRole) ;;
  match proof with
  | Some proof =>
      if is_supplemental_verifier taskWithRole
      then
        _ <- CommitteeClient.sendSupplementaryProof
               w (task_id (task taskWithRole)) (markSupplementary proof) ;;
        ret tt
      else
        _ <- CommitteeClient.sendProofToCommittee w proof ;;
        ret tt
  | None => ret tt
  end.

(** The [finally] block: clears the flag; the boolean tells whether
    [setTimeout(() => this.processNextTask(), 0)] was called. *)
Definition processNextTask_finally (s : State) : State * bool :=
  (mkState (committeeMembers s) (lastMembersUpdateTime s) false
           (taskQueue s) (trace s),
   (0 <? length (taskQueue s))%nat).

(** One call of [processNextTask] run to its end without interleaving. *)
Definition processNextTask (w : World) (s : State) : State * bool :=
  match processNextTask_begin s with
  | None => (s, false)
  | Some (taskWithRole, s1) =>
      let '(_, s2) :=
        tryCatch (processNextTask_try w taskWithRole) (fun _ => ret tt) s1 in
      processNextTask_finally s2
  end.

(** Lines 138 to 144 of [pollTasks]: tasks whose id is not in the queue are
    appended in arrival order. *)
Definition enqueue (queue tasksWithRole : list TaskDataWithRole)
  : list TaskDataWithRole :=
  fold_left
    (fun queue taskWithRole =>
       if existsb (fun t => String.eqb (task_id (task t))
                                       (task_id (task taskWithRole))) queue
       then queue
       else (queue ++ [taskWithRole])%list)
    tasksWithRole queue.

(** The task ids of a queue, in queue order. *)
Definition queueIds (queue : list TaskDataWithRole) : list string :=
  map (fun t => task_id (task t)) queue.

End VerifierService.

(** ** The dispatcher as a transition system

    JavaScript runs one callback at a time; control changes hands only at an
    [await] or when a callback returns. A configuration holds the instance
    state together with what is suspended: the pipeline runs that passed
    the guard of [processNextTask] and have not reached its [finally] block,
    the [pollTasks] calls waiting for [queryAssignedTasks], and the
    [setTimeout] callbacks not yet fired. *)

Module Dispatcher.

Import Types Runtime VerifierService.

Record Config : Type := mkConfig {
  heap : State;
  running : nat;
  pendingPolls : nat;
  pendingTimeouts : nat
}.

Inductive Label : Type :=
| PollTasks
| TimerTick
| TasksFetched (tasksWithRole : list TaskDataWithRole)
| PipelineProgress (members : list CommitteeMember) (updated : Z)
                   (events : list Event)
| RunCompleted
| TimeoutFires.

(** A call of [processNextTask] up to its first [await]. *)
Definition callProcessNextTask (c : Config) : Config :=
  match processNextTask_begin (heap c) with
  | None => c
  | Some (_, s1) =>
      mkConfig s1 (S (running c)) (pendingPolls c) (pendingTimeouts c)
  end.

(** A call of [pollTasks] up to its first [await] (lines 124 to 133). *)
Definition callPollTasks (c : Config) : Config :=
  if isProcessingTask (heap c) then c
  else mkConfig (heap c) (running c) (S (pendingPolls c)) (pendingTimeouts c).

(** [pollTasks] from the answer of [queryAssignedTasks] on
    (lines 135 to 154). *)
Definition resumePollTasks (tasksWithRole : list TaskDataWithRole)
           (c : Config) : Config :=
  let s := heap c in
  let s' := mkState (committeeMembers s) (lastMembersUpdateTime s)
                    (isProcessingTask s)
                    (enqueue (taskQueue s) tasksWithRole) (trace s) in
  let c' := mkConfig s' (running c) (pendingPolls c - 1) (pendingTimeouts c) in
  if ((0 <? length (taskQueue s'))%nat && negb (isProcessingTask s'))%bool
  then callProcessNextTask c'
  else c'.

(** The [finally] block of the run in flight. *)
Definition completeRun (c : Config) : Config :=
  let '(s', again) := processNextTask_finally (heap c) in
  mkConfig s' (running c - 1) (pendingPolls c)
           (if again then S (pendingTimeouts c) else pendingTimeouts c).

Definition step (l : Label) (c : Config) : option Config :=
  match l with
  | PollTasks => Some (callPollTasks c)
  | TimerTick =>
      (* the [setInterval] callback of [start] *)
      if negb (isProcessingTask (heap c)) then Some (callPollTasks c)
      else Some c
  | TasksFetched tasksWithRole =>
      if (0 <? pendingPolls c)%nat then Some (resumePollTasks tasksWithRole c)
      else None
  | PipelineProgress members updated events =>
      (* the run in flight touches the member cache and the trace only *)
      if (0 <? running c)%nat
      then Some (mkConfig
                   (mkState members updated (isProcessingTask (heap c))
                            (taskQueue (heap c))
                            (trace (heap c) ++ events)%list)
                   (running c) (pendingPolls c) (pendingTimeouts c))
      else None
  | RunCompleted =>
      if (0 <? running c)%nat then Some (completeRun c) else None
  | TimeoutFires =>
      if (0 <? pendingTimeouts c)%nat
      then Some (callProcessNextTask
                   (mkConfig (heap c) (running c) (pendingPolls c)
                             (pendingTimeouts c - 1)))
      else None
  end.

(** A freshly constructed service: idle, empty queue, nothing suspended. *)
Definition initial (c : Config) : Prop :=
  isProcessingTask (heap c) = false /\ taskQueue (heap c) = [] /\
  running c = 0%nat /\ pendingPolls c = 0%nat /\ pendingTimeouts c = 0%nat.

Inductive reachable : Config -> Prop :=
| reachable_init c : initial c -> reachable c
| reachable_step c l c' : reachable c -> step l c = Some c' -> reachable c'.

(** The busy flag is set exactly while one run is in flight. *)
Definition flagCountsRuns (c : Config) : Prop :=
  running c = if isProcessingTask (heap c) then 1%nat else 0%nat.

(** An idle dispatcher with waiting tasks has a deferred
    [processNextTask] scheduled. *)
Definition neverStalls (c : Config) : Prop :=
  isProcessingTask (heap c) = false ->
  taskQueue (heap c) <> [] ->
  (0 < pendingTimeouts c)%nat.

Definition isRunCompleted (l : Label) : bool :=
  match l with
  | RunCompleted => true
  | _ => false
  end.

(** The configuration after the steps [ls], taken in order; [None] when
    one of them cannot be taken. *)
Fixpoint steps (ls : list Label) (c : Config) : option Config :=
  match ls with
  | [] => Some c
  | l :: rest =>
      match step l c with
      | Some c' => steps rest c'
      | None => None
      end
  end.

End Dispatcher.

(** * Scenarios used by the examples below *)

Module Scenario.

Import Types Runtime.

(** A platform whose [path] helpers do what Node's do on the file names
    the pipeline produces ([<name>.mp4]). *)
Fixpoint afterLastSlash (path acc : string) : string :=
  match path with
  | EmptyString => acc
  | String c rest =>
      if Ascii.eqb c "/"%char then afterLastSlash rest ""
      else afterLastSlash rest (acc ++ String c "")
  end.

Definition dropMp4 (path : string) : string :=
  let name := afterLastSlash path "" in
  String.substring 0 (String.length name - 4) name.

(** A directory in which ffmpeg succeeded and left the listed files. *)
Definition fsWith (files : list string) : GopAnalyzer.Env :=
  GopAnalyzer.mkEnv (fun _ => ".mp4") (fun p _ => dropMp4 p)
                    (fun _ => true) (fun _ => Ok tt) (fun _ => Ok tt)
                    (fun p => existsb (String.eqb p) files).

(** A directory in which the ffmpeg invocation failed. *)
Definition fsToolFails : GopAnalyzer.Env :=
  GopAnalyzer.mkEnv (fun _ => ".mp4") (fun p _ => dropMp4 p)
                    (fun _ => true) (fun _ => Ok tt)
                    (fun _ => Throw "ffmpeg exited with code 1")
                    (fun _ => false).

(** A scorer whose tool invocation fails. *)
Definition vmafToolFails : MediaQualityEvaluator.Env :=
  MediaQualityEvaluator.mkEnv 1700000000000
    (fun _ => Throw "ffmpeg exited with code 1")
    (fun _ => false) (fun _ => Throw "ENOENT") (fun _ => Throw "ENOENT").

(** A scorer whose tool run succeeds and logs the pooled mean [mean]. *)
Definition vmafReturns (mean : Q) : MediaQualityEvaluator.Env :=
  MediaQualityEvaluator.mkEnv 1700000000000
    (fun _ => Ok tt) (fun _ => true)
    (fun _ => Ok (MediaQualityEvaluator.mkVmafLog (Some (Some (Some mean)))))
    (fun _ => Ok tt).

Definition idle : State := mkState [] 0 false [] [].

(** The committee of the status-read example: only the second follower
    answers status requests. *)
Definition follower2Status : string :=
  "http://10.24.198.225:9000/proof/t1/status".

Definition statusPayload : Json :=
  JObj [("task_id", "t1"); ("state", "Verified")].

Definition onlyFollower2Answers : World :=
  mkWorld "" "/w" "verifier1.testnet"
          (fun _ => 1700000000000%Z)
          (fun _ _ => Throw "ECONNREFUSED")
          (fun url _ => if String.eqb url follower2Status
                        then Ok (mkResponse 200 statusPayload)
                        else Throw "ECONNREFUSED")
          (fun _ _ => Throw "ipfs unreachable")
          (fun _ => fsToolFails) (fun _ _ => vmafToolFails)
          (fun _ => Throw "ENOENT") (fun _ => Throw "ffprobe failed")
          (fun _ => Throw "rpc unreachable") (fun _ => Ok tt)
          (fun _ => "0verifier_placeholder_sig").

(** The end-to-end scenario: six markers, three of them selected. *)
Definition fullMarkers : list string :=
  ["0.000000"; "1.200000"; "2.266667"; "3.466667"; "5.133333"; "9.133333"].

Definition selectedMarkers : list string :=
  ["0.000000"; "2.266667"; "5.133333"].

Definition e2eTask : TaskData :=
  mkTaskData "t1" "QmSource" (Some "QmResult") ["verifier1.testnet"]
             (Some fullMarkers) (Some selectedMarkers).

Definition segmentsOf (dir : string) (count : nat) : list string :=
  map (fun i => dir ++ "/segment_" ++ string_of_nat i ++ ".mp4") (seq 0 count).

(** Segments 0 to 5 of both assets: one per marker. *)
Definition allSegments : list string :=
  (segmentsOf "/w/temp/gops/t1-source" 6
   ++ segmentsOf "/w/temp/gops/t1-result" 6)%list.

(** The scorer returns 92, 95 and 97 for the three selected samples. *)
Definition e2eScorer (referenceGopPath distortedGopPath : string)
  : MediaQualityEvaluator.Env :=
  if String.eqb referenceGopPath "/w/temp/gops/t1-source/segment_0.mp4"
  then vmafReturns 92
  else if String.eqb referenceGopPath "/w/temp/gops/t1-source/segment_2.mp4"
  then vmafReturns 95
  else if String.eqb referenceGopPath "/w/temp/gops/t1-source/segment_4.mp4"
  then vmafReturns 97
  else vmafToolFails.

(** Three members acknowledge with 202, the fourth times out. *)
Definition e2eCommittee (url : string) (n : nat) : Result Response :=
  if String.eqb url "http://10.24.161.186:9000/proof"
  then Throw "timeout of 10000ms exceeded"
  else Ok (mkResponse 202 JNull).

(** A world for the pipeline: [files] are the segment files present after
    splitting, [ledgerAccepts] is the answer of the ledger contract. *)
Definition pipelineWorld (files : list string) (ledgerAccepts : bool) : World :=
  mkWorld "" "/w" "verifier1.testnet"
          (fun _ => 1700000000000%Z)
          e2eCommittee (fun _ _ => Throw "ECONNREFUSED")
          (fun _ _ => Ok tt)
          (fun _ => fsWith files) e2eScorer
          (fun path => Ok ("sha256:" ++ path))
          (fun _ => Ok (mkVideoSpecification "h264" "1920x1080" 5000000 30))
          (fun _ => Ok ledgerAccepts) (fun _ => Ok tt)
          (fun _ => "0verifier_placeholder_sig").

Definition e2eWorld : World := pipelineWorld allSegments true.

(** The world of the end-to-end scenario with a ledger contract that
    accepts every proof except those of task [t1]. *)
Definition selectiveLedgerWorld : World :=
  mkWorld "" "/w" "verifier1.testnet"
          (fun _ => 1700000000000%Z)
          e2eCommittee (fun _ _ => Throw "ECONNREFUSED")
          (fun _ _ => Ok tt)
          (fun _ => fsWith allSegments) e2eScorer
          (fun path => Ok ("sha256:" ++ path))
          (fun _ => Ok (mkVideoSpecification "h264" "1920x1080" 5000000 30))
          (fun proof => Ok (negb (String.eqb (proof_task_id proof) "t1")))
          (fun _ => Ok tt)
          (fun _ => "0verifier_placeholder_sig").

(** The world of the end-to-end scenario in which probing the candidate
    asset fails. *)
Definition probeFailsWorld : World :=
  mkWorld "" "/w" "verifier1.testnet"
          (fun _ => 1700000000000%Z)
          e2eCommittee (fun _ _ => Throw "ECONNREFUSED")
          (fun _ _ => Ok tt)
          (fun _ => fsWith allSegments) e2eScorer
          (fun path => Ok ("sha256:" ++ path))
          (fun _ => Throw "ffprobe exited with code 1")
          (fun _ => Ok true) (fun _ => Ok tt)
          (fun _ => "0verifier_placeholder_sig").

(** The world of the end-to-end scenario in which the segment files cannot
    be removed. *)
Definition removalFailsWorld : World :=
  mkWorld "" "/w" "verifier1.testnet"
          (fun _ => 1700000000000%Z)
          e2eCommittee (fun _ _ => Throw "ECONNREFUSED")
          (fun _ _ => Ok tt)
          (fun _ => fsWith allSegments) e2eScorer
          (fun path => Ok ("sha256:" ++ path))
          (fun _ => Ok (mkVideoSpecification "h264" "1920x1080" 5000000 30))
          (fun _ => Ok true) (fun _ => Throw "EACCES: permission denied")
          (fun _ => "0verifier_placeholder_sig").

Definition sampleProof : VerifierQosProof :=
  mkVerifierQosProof
    "proof-t1-verifier1.testnet" "t1" "verifier1.testnet" 1700000000000
    (mkVideoSpecification "h264" "1920x1080" 5000000 30) (254 # 3)
    [mkGopScore "0.000000" 82 "sha256:0"; mkGopScore "2.266667" 85 "sha256:2";
     mkGopScore "5.133333" 87 "sha256:4"]
    (Some MediaQualityEvaluator.getFixedAudioScore)
    (Some MediaQualityEvaluator.getFixedSyncScore)
    "0verifier_placeholder_sig" false.

(** The dispatcher right after it took the only task of the queue. *)
Definition idleConfig : Dispatcher.Config := Dispatcher.mkConfig idle 0 0 0.

Definition busyConfig : Dispatcher.Config :=
  Dispatcher.mkConfig (mkState [] 0 true [] []) 1 0 0.

Definition secondTask : TaskData :=
  mkTaskData "t2" "QmSource2" (Some "QmResult2") ["verifier1.testnet"]
             None (Some ["0.000000"]).

(** The dispatcher after two tasks arrived and the first one was
    processed: idle, the second task waiting, one deferred call pending. *)
Definition waitingConfig : Dispatcher.Config :=
  Dispatcher.mkConfig
    (mkState [] 0 false [mkTaskDataWithRole secondTask false] []) 0 0 1.

(** A task that selects no marker. *)
Definition emptySelectionTask : TaskData :=
  mkTaskData "t3" "QmSource3" (Some "QmResult3") ["verifier1.testnet"]
             (Some fullMarkers) (Some []).

End Scenario.

(** * Properties *)

(** ** The JavaScript map *)

Lemma key_eqb_spec a b : reflect (a = b) (JsMap.key_eqb a b).
Proof.
  destruct a as [|x], b as [|y]; simpl; try (constructor; congruence).
  destruct (String.eqb_spec x y); constructor; congruence.
Qed.

Lemma keys_set_incl k v m k' :
  In k' (JsMap.keys (JsMap.set k v m)) -> k' = k \/ In k' (JsMap.keys m).
Proof.
  unfold JsMap.keys.
  induction m as [|[k0 v0] m IH]; simpl.
  - intros [H|[]]; auto.
  - destruct (key_eqb_spec k k0) as [->|Hne]; simpl.
    + intros [H|H]; auto.
    + intros [H|H]; auto. destruct (IH H); auto.
Qed.

Lemma keys_set_NoDup k v m :
  NoDup (JsMap.keys m) -> NoDup (JsMap.keys (JsMap.set k v m)).
Proof.
  unfold JsMap.keys.
  induction m as [|[k0 v0] m IH]; simpl; intros Hnd.
  - constructor; [intros []|constructor].
  - inversion Hnd as [|? ? Hnotin Hnd']; subst.
    destruct (key_eqb_spec k k0) as [->|Hne]; simpl.
    + constructor; assumption.
    + constructor; [|auto].
      intros Hin. apply (keys_set_incl k v m k0) in Hin.
      destruct Hin as [Heq|Hin]; [congruence|contradiction].
Qed.

Lemma index_in_range (arr : list string) (i : Z) :
  (0 <= i < Z.of_nat (length arr))%Z ->
  exists s, JsMap.index arr i = JsMap.str s /\ In s arr.
Proof.
  intros Hi. unfold JsMap.index.
  destruct (Z.ltb_spec i 0); [lia|].
  destruct (nth_error arr (Z.to_nat i)) as [s|] eqn:Hnth.
  - exists s. split; [reflexivity|]. eapply nth_error_In; eassumption.
  - apply nth_error_None in Hnth. lia.
Qed.

(** ** GopAnalyzer *)

Section GopMapKeys.

Import GopAnalyzer.

Variables (env : Env) (gopDir videoExt : string) (timestamps : list string).

Lemma keysWithin_set i path m :
  (0 <= i < Z.of_nat (length timestamps))%Z ->
  keysWithin timestamps m ->
  keysWithin timestamps (JsMap.set (JsMap.index timestamps i) path m).
Proof.
  intros Hi [Hsub Hnd]. split.
  - intros k Hin. apply keys_set_incl in Hin. destruct Hin as [->|Hin].
    + apply index_in_range; assumption.
    + apply Hsub; assumption.
  - apply keys_set_NoDup; assumption.
Qed.

Lemma keysWithin_middle (indices : list nat) m :
  Forall (fun i => (i < length timestamps)%nat) indices ->
  keysWithin timestamps m ->
  keysWithin timestamps
             (fold_left (middleStep env gopDir videoExt timestamps) indices m).
Proof.
  revert m. induction indices as [|i rest IH]; simpl; intros m Hall Hm.
  - assumption.
  - inversion Hall as [|? ? Hi Hrest]; subst. apply IH; [assumption|].
    unfold middleStep. destruct (existsSync env _); [|assumption].
    apply keysWithin_set; [lia|assumption].
Qed.

Lemma keysWithin_buildGopMap :
  timestamps <> [] ->
  keysWithin timestamps (buildGopMap env gopDir videoExt timestamps).
Proof.
  intros Hne.
  assert (Hlen : (0 < length timestamps)%nat)
    by (destruct timestamps; [congruence|simpl; lia]).
  unfold buildGopMap.
  set (first := if existsSync env (segmentPath gopDir videoExt 0)
                then _ else _).
  assert (Hfirst : keysWithin timestamps first).
  { subst first. destruct (existsSync env _).
    - apply keysWithin_set; [lia|]. split; [intros k []|constructor].
    - split; [intros k []|constructor]. }
  set (middle := fold_left _ _ first).
  assert (Hmiddle : keysWithin timestamps middle).
  { subst middle. apply keysWithin_middle; [|assumption].
    apply Forall_forall. intros i Hin. apply in_seq in Hin. lia. }
  clearbody middle. clear Hfirst. clearbody first.
  destruct (existsSync env _); [|assumption].
  apply keysWithin_set; [lia|assumption].
Qed.

End GopMapKeys.

(** C8. For a non-empty marker list, every key of the map returned by
    [splitVideoIntoGops] is one of the markers of the list, and the map holds
    at most one entry per marker. *)
Theorem splitVideoIntoGops_keys_subset :
  forall ffmpegPath tempDir env videoPath timestamps gopMap,
    timestamps <> [] ->
    GopAnalyzer.splitVideoIntoGops ffmpegPath tempDir env videoPath timestamps
      = Ok gopMap ->
    (forall k, In k (JsMap.keys gopMap) ->
               exists s, k = JsMap.str s /\ In s timestamps)
    /\ NoDup (JsMap.keys gopMap).
Proof.
  intros ffmpegPath tempDir env videoPath timestamps gopMap Hne Hsplit.
  unfold GopAnalyzer.splitVideoIntoGops in Hsplit.
  destruct (GopAnalyzer.ensureGopDir env _); [|discriminate].
  destruct (GopAnalyzer.execAsync env _); [|discriminate].
  injection Hsplit as <-.
  apply keysWithin_buildGopMap; assumption.
Qed.

Lemma splitVideoIntoGops_keys_subset_witness :
  let timestamps := ["0.000000"; "1.200000"] in
  let env := Scenario.fsWith ["/w/temp/gops/v/segment_0.mp4";
                              "/w/temp/gops/v/segment_2.mp4"] in
  let gopMap := [(JsMap.str "0.000000", "/w/temp/gops/v/segment_0.mp4");
                 (JsMap.str "1.200000", "/w/temp/gops/v/segment_2.mp4")] in
  timestamps <> [] /\
  GopAnalyzer.splitVideoIntoGops "" "/w/temp/gops" env "/w/temp/v.mp4"
                                 timestamps = Ok gopMap /\
  ((forall k, In k (JsMap.keys gopMap) ->
              exists s, k = JsMap.str s /\ In s timestamps)
   /\ NoDup (JsMap.keys gopMap)).
Proof.
  cbv zeta. split; [discriminate|]. split; [reflexivity|].
  apply (splitVideoIntoGops_keys_subset
           "" "/w/temp/gops"
           (Scenario.fsWith ["/w/temp/gops/v/segment_0.mp4";
                             "/w/temp/gops/v/segment_2.mp4"])
           "/w/temp/v.mp4" ["0.000000"; "1.200000"]);
    [discriminate|reflexivity].
Defined.

(** With no marker at all, [timestamps[0]] and
    [timestamps[timestamps.length - 1]] are both [undefined], and the first
    and the last segment are the same file [segment_0]. *)
Lemma buildGopMap_nil env gopDir videoExt :
  GopAnalyzer.buildGopMap env gopDir videoExt [] =
  if GopAnalyzer.existsSync env (GopAnalyzer.segmentPath gopDir videoExt 0)
  then [(JsMap.undefined, GopAnalyzer.segmentPath gopDir videoExt 0)]
  else [].
Proof.
  unfold GopAnalyzer.buildGopMap. simpl.
  destruct (GopAnalyzer.existsSync env _); reflexivity.
Qed.

(** C9, as the code has it. With an empty marker list the call throws when
    the segment directory cannot be made or the tool invocation fails;
    when both succeed it returns the empty map if no file [segment_0]
    exists in the segment directory, and a map with the single key
    [undefined] if that file exists. *)
Theorem splitVideoIntoGops_no_markers :
  forall ffmpegPath tempDir env videoPath,
    let gopDir := GopAnalyzer.gopDirOf tempDir env videoPath in
    let segment0 :=
      GopAnalyzer.segmentPath gopDir (GopAnalyzer.videoExtOf env videoPath) 0 in
    let result :=
      GopAnalyzer.splitVideoIntoGops ffmpegPath tempDir env videoPath [] in
    match GopAnalyzer.ensureGopDir env gopDir,
          GopAnalyzer.execAsync
            env (GopAnalyzer.commandOf ffmpegPath tempDir env videoPath [])
    with
    | Throw e, _ => result = Throw e
    | Ok _, Throw e => result = Throw e
    | Ok _, Ok _ =>
        result = Ok (if GopAnalyzer.existsSync env segment0
                     then [(JsMap.undefined, segment0)]
                     else JsMap.empty)
    end.
Proof.
  intros ffmpegPath tempDir env videoPath gopDir segment0 result.
  subst result. unfold GopAnalyzer.splitVideoIntoGops. fold gopDir.
  destruct (GopAnalyzer.ensureGopDir env gopDir); [|reflexivity].
  destruct (GopAnalyzer.execAsync env _); [|reflexivity].
  rewrite buildGopMap_nil. reflexivity.
Qed.

(** C9, counterexample. In a segment directory that holds [segment_0.mp4]
    after a successful tool run, the call with no marker returns a map of
    size one, keyed by [undefined]. *)
Lemma splitVideoIntoGops_no_markers_counterexample :
  let env := Scenario.fsWith ["/w/temp/gops/v/segment_0.mp4"] in
  GopAnalyzer.splitVideoIntoGops "" "/w/temp/gops" env "/w/temp/v.mp4" []
    = Ok [(JsMap.undefined, "/w/temp/gops/v/segment_0.mp4")]
  /\ GopAnalyzer.splitVideoIntoGops "" "/w/temp/gops" env "/w/temp/v.mp4" []
     <> Ok JsMap.empty.
Proof.
  cbv zeta. split; [reflexivity|]. vm_compute. discriminate.
Qed.

(** ** MediaQualityEvaluator *)

(** [calculateVmafScore] catches whatever its [try] block throws. *)
Lemma calculateVmafScore_total ffmpegPath tempDir env reference distorted :
  exists score,
    MediaQualityEvaluator.calculateVmafScore ffmpegPath tempDir env
                                             reference distorted = Ok score.
Proof.
  unfold MediaQualityEvaluator.calculateVmafScore.
  destruct (MediaQualityEvaluator.calculateVmafScore_try _ _ _ _ _);
    eexists; reflexivity.
Qed.

(** C7. For every pair of segment paths, when the invocation of the
    quality-metric tool fails, [calculateVmafScore] completes with the
    value 0: the failure is caught inside the function and is not thrown
    to the caller. *)
Theorem calculateVmafScore_tool_failure :
  forall ffmpegPath tempDir env referenceGopPath distortedGopPath error,
    MediaQualityEvaluator.execAsync env
      (MediaQualityEvaluator.vmafCommand
         ffmpegPath distortedGopPath referenceGopPath
         (MediaQualityEvaluator.outputFileOf tempDir env)) = Throw error ->
    MediaQualityEvaluator.calculateVmafScore
      ffmpegPath tempDir env referenceGopPath distortedGopPath = Ok 0.
Proof.
  intros ffmpegPath tempDir env reference distorted error Hfail.
  unfold MediaQualityEvaluator.calculateVmafScore,
    MediaQualityEvaluator.calculateVmafScore_try.
  rewrite Hfail. reflexivity.
Qed.

Lemma calculateVmafScore_tool_failure_witness :
  MediaQualityEvaluator.execAsync Scenario.vmafToolFails
    (MediaQualityEvaluator.vmafCommand
       "" "/w/temp/gops/r/segment_0.mp4" "/w/temp/gops/s/segment_0.mp4"
       (MediaQualityEvaluator.outputFileOf "/w/temp/vmaf"
                                           Scenario.vmafToolFails))
    = Throw "ffmpeg exited with code 1"
  /\ MediaQualityEvaluator.calculateVmafScore
       "" "/w/temp/vmaf" Scenario.vmafToolFails
       "/w/temp/gops/s/segment_0.mp4" "/w/temp/gops/r/segment_0.mp4" = Ok 0.
Proof.
  split; [reflexivity|].
  apply (calculateVmafScore_tool_failure
           "" "/w/temp/vmaf" Scenario.vmafToolFails
           "/w/temp/gops/s/segment_0.mp4" "/w/temp/gops/r/segment_0.mp4"
           "ffmpeg exited with code 1").
  reflexivity.
Defined.

(** ** The trace *)

Lemma append_append s a b :
  Runtime.append (Runtime.append s a) b = Runtime.append s (a ++ b).
Proof. unfold Runtime.append. simpl. rewrite <- app_assoc. reflexivity. Qed.

Lemma append_nil s : Runtime.append s [] = s.
Proof.
  destruct s. unfold Runtime.append. simpl. rewrite app_nil_r. reflexivity.
Qed.

Lemma hits_app url a b :
  Runtime.hits url (a ++ b) = (Runtime.hits url a + Runtime.hits url b)%nat.
Proof. unfold Runtime.hits. rewrite filter_app, length_app. reflexivity. Qed.

Lemma hits_post_same url body :
  Runtime.hits url [Runtime.EvHttpPost url body] = 1%nat.
Proof. unfold Runtime.hits. simpl. rewrite String.eqb_refl. reflexivity. Qed.

Lemma hits_sleep url ms : Runtime.hits url [Runtime.EvSleep ms] = 0%nat.
Proof. reflexivity. Qed.

(** ** CommitteeClient: delivery *)

Section Delivery.

Import Types Runtime CommitteeClient.

Variable w : World.

(** One attempt: the request is logged, and the attempt fulfils exactly
    when the reply is a 202. *)
Lemma sendProofAttempt_run url body s :
  exists r,
    sendProofAttempt w url body s = (r, append s [EvHttpPost url body]) /\
    (if acked w url (hits url (trace s)) then r = Ok true
     else exists e, r = Throw e).
Proof.
  unfold sendProofAttempt, post, bind, get, emit, liftResult, acked.
  destruct (httpPost w url (hits url (trace s))) as [r1|e1].
  - destruct (status r1 =? 202)%Z; eexists; split; try reflexivity.
    eexists; reflexivity.
  - eexists; split; [reflexivity|]. eexists; reflexivity.
Qed.

(** What one member operation does: one request, and a second one after a
    pause of one second when the first was not acknowledged. *)
Lemma sendProofToUrl_run url body s :
  let h := hits url (trace s) in
  tryCatch (withRetry (sendProofAttempt w url body) 2 1000)
           (fun _ => ret false) s =
  if acked w url h
  then (Ok true, append s [EvHttpPost url body])
  else if acked w url (S h)
       then (Ok true,
             append s [EvHttpPost url body; EvSleep 1000; EvHttpPost url body])
       else (Ok false,
             append s [EvHttpPost url body; EvSleep 1000; EvHttpPost url body]).
Proof.
  intros h.
  unfold tryCatch, withRetry. cbn [Nat.sub withRetryLoop].
  destruct (sendProofAttempt_run url body s) as (r1 & -> & Hr1). fold h in Hr1.
  destruct (acked w url h).
  - subst r1. reflexivity.
  - destruct Hr1 as [e1 ->].
    unfold bind at 1. unfold emit at 1. rewrite append_append.
    destruct (sendProofAttempt_run
                url body (append s ([EvHttpPost url body] ++ [EvSleep 1000])))
      as (r2 & -> & Hr2).
    assert (Hh : hits url (trace (append s ([EvHttpPost url body]
                                              ++ [EvSleep 1000]))) = S h).
    { unfold append. cbn [trace]. rewrite hits_app.
      change ([EvHttpPost url body] ++ [EvSleep 1000])%list
        with ([EvHttpPost url body; EvSleep 1000]).
      unfold hits at 2. simpl. rewrite String.eqb_refl. simpl.
      subst h. lia. }
    rewrite Hh in Hr2. rewrite append_append.
    destruct (acked w url (S h)).
    + subst r2. reflexivity.
    + destruct Hr2 as [e2 ->]. reflexivity.
Qed.

Lemma sendProofToMember_run member body s :
  let url := proofUrl member in
  let h := hits url (trace s) in
  sendProofToMember w member body s =
  if acked w url h
  then (Ok true, append s [EvHttpPost url body])
  else if acked w url (S h)
       then (Ok true,
             append s [EvHttpPost url body; EvSleep 1000; EvHttpPost url body])
       else (Ok false,
             append s [EvHttpPost url body; EvSleep 1000; EvHttpPost url body]).
Proof. apply sendProofToUrl_run. Qed.

Lemma hits_two_posts url u body ms :
  hits u [EvHttpPost url body; EvSleep ms; EvHttpPost url body]
  = if String.eqb url u then 2%nat else 0%nat.
Proof. unfold hits. simpl. destruct (String.eqb url u); reflexivity. Qed.

Lemma hits_one_post url u body :
  hits u [EvHttpPost url body] = if String.eqb url u then 1%nat else 0%nat.
Proof. unfold hits. simpl. destruct (String.eqb url u); reflexivity. Qed.

(** A member operation always completes with [true] or [false]; it sends
    one or two requests, all to the member's own URL, and it yields [true]
    exactly when one of the requests it sent was answered with a 202. *)
Lemma sendProofToMember_spec member body s :
  let url := proofUrl member in
  exists r s',
    sendProofToMember w member body s = (Ok r, s') /\
    committeeMembers s' = committeeMembers s /\
    (forall u, u <> url -> hits u (trace s') = hits u (trace s)) /\
    (hits url (trace s) < hits url (trace s') <= hits url (trace s) + 2)%nat /\
    (r = true <->
     exists n, (hits url (trace s) <= n < hits url (trace s'))%nat /\
               acked w url n = true).
Proof.
  intros url. rewrite sendProofToMember_run. fold url.
  set (h := hits url (trace s)).
  destruct (acked w url h) eqn:H1; [|destruct (acked w url (S h)) eqn:H2];
    eexists; eexists; (split; [reflexivity|]); (split; [reflexivity|]);
    unfold append; cbn [trace]; fold h.
  - split; [|split].
    + intros u Hu. rewrite hits_app, hits_one_post.
      destruct (String.eqb_spec url u); [congruence|lia].
    + rewrite hits_app, hits_one_post, String.eqb_refl. fold h. lia.
    + split; [|reflexivity]. intros _. exists h.
      rewrite hits_app, hits_one_post, String.eqb_refl. fold h.
      split; [lia|auto].
  - split; [|split].
    + intros u Hu. rewrite hits_app, hits_two_posts.
      destruct (String.eqb_spec url u); [congruence|lia].
    + rewrite hits_app, hits_two_posts, String.eqb_refl. fold h. lia.
    + split; [|reflexivity]. intros _. exists (S h).
      rewrite hits_app, hits_two_posts, String.eqb_refl. fold h.
      split; [lia|auto].
  - split; [|split].
    + intros u Hu. rewrite hits_app, hits_two_posts.
      destruct (String.eqb_spec url u); [congruence|lia].
    + rewrite hits_app, hits_two_posts, String.eqb_refl. fold h. lia.
    + split; [discriminate|]. intros (n & Hn & Hack).
      rewrite hits_app, hits_two_posts, String.eqb_refl in Hn. fold h in Hn.
      assert (n = h \/ n = S h) as [->| ->] by lia; congruence.
Qed.

Lemma successCount_positive results :
  (0 <? successCount results)%nat = existsb fulfilledTrue results.
Proof.
  unfold successCount.
  induction results as [|r rest IH]; simpl; [reflexivity|].
  destruct (fulfilledTrue r); simpl; [reflexivity|exact IH].
Qed.

Lemma successCount_le results :
  (successCount results <= length results)%nat.
Proof. apply filter_length_le. Qed.

(** The join over all members: every member operation has run to its end
    when [allSettled] completes. *)
Lemma fanOut_spec body members :
  forall s,
  exists outcomes s',
    allSettled (map (fun member => sendProofToMember w member body) members) s
      = (Ok outcomes, s') /\
    length outcomes = length members /\
    Forall (fun r => r = Ok true \/ r = Ok false) outcomes /\
    (forall u, hits u (trace s) <= hits u (trace s'))%nat /\
    (forall m,
        In m members ->
        (hits (proofUrl m) (trace s) < hits (proofUrl m) (trace s'))%nat) /\
    (existsb fulfilledTrue outcomes = true ->
     exists m n, In m members /\
                 (hits (proofUrl m) (trace s) <= n
                  < hits (proofUrl m) (trace s'))%nat /\
                 acked w (proofUrl m) n = true) /\
    ((exists u n, (hits u (trace s) <= n < hits u (trace s'))%nat /\
                  acked w u n = true) ->
     existsb fulfilledTrue outcomes = true).
Proof.
  induction members as [|m rest IH]; intros s.
  - exists [], s. simpl. repeat split; auto.
    + intros m [].
    + discriminate.
    + intros (u & n & Hn & _). lia.
  - cbn [map allSettled].
    destruct (sendProofToMember_spec m body s)
      as (r & s1 & -> & _ & Hother & Hown & Hr).
    destruct (IH s1)
      as (outcomes & s' & Hrun & Hlen & Hall & Hmono & Heach & Hfwd & Hbwd).
    exists (Ok r :: outcomes), s'.
    unfold bind, ret. rewrite Hrun.
    split; [reflexivity|]. split; [simpl; congruence|].
    split; [constructor; [destruct r; auto|assumption]|].
    assert (Hmono1 : forall u, (hits u (trace s) <= hits u (trace s1))%nat).
    { intros u. destruct (String.eqb_spec u (proofUrl m)) as [->|Hne].
      - lia.
      - rewrite (Hother u Hne). lia. }
    split; [intros u; specialize (Hmono u); specialize (Hmono1 u); lia|].
    split.
    { intros m' [<-|Hin].
      - specialize (Hmono (proofUrl m)). lia.
      - specialize (Heach m' Hin). specialize (Hmono1 (proofUrl m')). lia. }
    split.
    + cbn [existsb fulfilledTrue]. intros Hex.
      apply orb_true_iff in Hex. destruct Hex as [Htrue|Hex].
      * apply Hr in Htrue. destruct Htrue as (n & Hn & Hack).
        exists m, n. split; [left; reflexivity|]. split; [|assumption].
        specialize (Hmono (proofUrl m)). lia.
      * destruct (Hfwd Hex) as (m' & n & Hin & Hn & Hack).
        exists m', n. split; [right; assumption|]. split; [|assumption].
        specialize (Hmono1 (proofUrl m')). lia.
    + intros (u & n & Hn & Hack). cbn [existsb fulfilledTrue].
      apply orb_true_iff.
      destruct (Nat.lt_ge_cases n (hits u (trace s1))) as [Hlt|Hge].
      * left. apply Hr.
        destruct (String.eqb_spec u (proofUrl m)) as [->|Hne].
        -- exists n. split; [lia|assumption].
        -- rewrite (Hother u Hne) in Hlt. lia.
      * right. apply Hbwd. exists u, n. split; [lia|assumption].
Qed.

(** The refresh never throws, leaves the trace alone and always leaves a
    non-empty member list behind. *)
Lemma updateCommitteeMembers_spec s :
  exists s1,
    updateCommitteeMembers w s = (Ok tt, s1) /\
    trace s1 = trace s /\
    isProcessingTask s1 = isProcessingTask s /\
    taskQueue s1 = taskQueue s /\
    (1 <= length (committeeMembers s1))%nat.
Proof.
  unfold updateCommitteeMembers, bind, get.
  destruct (_ && _)%bool eqn:Hfresh.
  - exists s. repeat split. apply andb_true_iff in Hfresh.
    destruct Hfresh as [_ Hlen]. apply Nat.ltb_lt in Hlen. lia.
  - eexists. unfold setMembers. repeat split. simpl. lia.
Qed.

(** A cached list that is non-empty and younger than the refresh interval
    is the list the call uses, whatever its size. *)
Lemma updateCommitteeMembers_fresh s :
  (dateNow w (trace s) - lastMembersUpdateTime s < MEMBERS_UPDATE_INTERVAL)%Z ->
  committeeMembers s <> [] ->
  updateCommitteeMembers w s = (Ok tt, s).
Proof.
  intros Htime Hne. unfold updateCommitteeMembers, bind, get.
  apply Z.ltb_lt in Htime. rewrite Htime.
  destruct (committeeMembers s); [congruence|reflexivity].
Qed.

(** The call unfolded: refresh, then the join over all members. *)
Lemma sendProofToCommittee_run proof s :
  let s1 := snd (updateCommitteeMembers w s) in
  forall outcomes s',
    allSettled
      (map (fun member =>
              sendProofToMember w member (convertToApiProofFormat proof))
           (committeeMembers s1)) s1 = (Ok outcomes, s') ->
    sendProofToCommittee w proof s = (Ok (0 <? successCount outcomes)%nat, s').
Proof.
  intros s1 outcomes s' Hrun.
  destruct (updateCommitteeMembers_spec s) as (s1' & Hupd & _ & _ & _ & Hlen).
  assert (Hs1 : s1 = s1') by (subst s1; rewrite Hupd; reflexivity).
  rewrite <- Hs1 in Hupd, Hlen.
  unfold sendProofToCommittee, tryCatch, bind at 1.
  rewrite Hupd. unfold bind at 1, get at 1.
  destruct (Nat.eqb_spec (length (committeeMembers s1)) 0) as [Hzero|_]; [lia|].
  unfold bind. rewrite Hrun. reflexivity.
Qed.

(** The committee delivery never throws, and it is a full fan-out. *)
Lemma sendProofToCommittee_total proof s :
  exists delivered s',
    sendProofToCommittee w proof s = (Ok delivered, s') /\
    fullFanOut w s s'.
Proof.
  destruct (fanOut_spec (convertToApiProofFormat proof)
                        (committeeMembers (snd (updateCommitteeMembers w s)))
                        (snd (updateCommitteeMembers w s)))
    as (outcomes & s' & Hrun & _ & _ & _ & Heach & _).
  exists (0 <? successCount outcomes)%nat, s'.
  split; [apply sendProofToCommittee_run; exact Hrun|].
  intros m Hin. specialize (Heach m Hin).
  destruct (updateCommitteeMembers_spec s) as (s1 & Hupd & Htrace & _).
  rewrite Hupd in Heach. cbn [snd] in Heach. rewrite Htrace in Heach.
  exact Heach.
Qed.

(** The requests counted over a whole trace. *)
Lemma posts_append s events :
  posts (trace (append s events)) = (posts (trace s) + posts events)%nat.
Proof.
  unfold posts. cbn [append trace]. rewrite filter_app, length_app.
  reflexivity.
Qed.

Lemma hits_append_le u s events :
  (hits u (trace s) <= hits u (trace (append s events)))%nat.
Proof. cbn [append trace]. rewrite hits_app. lia. Qed.

Lemma settled_widen s0 s s' s1 member r :
  (forall u, hits u (trace s0) <= hits u (trace s))%nat ->
  (forall u, hits u (trace s') <= hits u (trace s1))%nat ->
  settled w s s' member r -> settled w s0 s1 member r.
Proof.
  intros Hlow Hhigh. unfold settled.
  specialize (Hlow (proofUrl member)). specialize (Hhigh (proofUrl member)).
  intros [(-> & n & Hn & Hack)|(-> & n & Hn & Hack)]; [left|right];
    (split; [reflexivity|]); exists n; (split; [lia|exact Hack]).
Qed.

(** One member operation: one or two requests, and an outcome that is
    settled by them. *)
Lemma sendProofToMember_settled member body s :
  exists r events,
    sendProofToMember w member body s = (r, append s events) /\
    (1 <= posts events <= 2)%nat /\
    settled w s (append s events) member r.
Proof.
  rewrite sendProofToMember_run. unfold settled.
  set (url := proofUrl member). set (h := hits url (trace s)).
  destruct (acked w url h) eqn:H1; [|destruct (acked w url (S h)) eqn:H2];
    eexists; eexists; (split; [reflexivity|]);
    (split; [cbn; lia|]); cbn [append trace]; rewrite hits_app; fold h.
  - left. split; [reflexivity|]. exists h.
    rewrite hits_one_post, String.eqb_refl. split; [lia|exact H1].
  - left. split; [reflexivity|]. exists (S h).
    rewrite hits_two_posts, String.eqb_refl. split; [lia|exact H2].
  - right. split; [reflexivity|]. exists h.
    rewrite hits_two_posts, String.eqb_refl. split; [lia|]. split; assumption.
Qed.

(** The join: every member's outcome is settled by requests of the
    fan-out, which sends one or two requests per member. *)
Lemma fanOut_settled body members :
  forall s,
  exists outcomes s',
    allSettled (map (fun member => sendProofToMember w member body) members) s
      = (Ok outcomes, s') /\
    (forall u, hits u (trace s) <= hits u (trace s'))%nat /\
    Forall2 (settled w s s') members outcomes /\
    (posts (trace s) + length members <= posts (trace s')
     <= posts (trace s) + 2 * length members)%nat.
Proof.
  induction members as [|m rest IH]; intros s.
  - exists [], s. cbn. repeat split; auto; lia.
  - cbn [map allSettled].
    destruct (sendProofToMember_settled m body s)
      as (r & events & -> & Hposts & Hsettled).
    destruct (IH (append s events))
      as (outcomes & s' & Hrun & Hmono & Heach & Hcount).
    exists (r :: outcomes), s'. unfold bind, ret. rewrite Hrun.
    split; [reflexivity|].
    assert (Hmono1 : forall u,
               (hits u (trace s) <= hits u (trace (append s events)))%nat)
      by (intros u; apply hits_append_le).
    split; [intros u; specialize (Hmono u); specialize (Hmono1 u); lia|].
    split.
    + constructor.
      * apply (settled_widen s s (append s events) s'); auto.
      * revert Heach. apply Forall2_impl. intros member r'.
        apply settled_widen; auto.
    + rewrite posts_append in Hcount. cbn [length]. lia.
Qed.

End Delivery.

(** C2. [sendProofToCommittee] never throws. Writing [members] for the
    committee list after the refresh (it has [N >= 1] entries), the call
    returns when the join over all [N] member operations has completed,
    each of them with [true] (acknowledged) or [false] (retries used up);
    it returns [true] exactly when some request sent to some member during
    the call was answered with HTTP 202, and then the number of successes
    lies between 1 and [N]. Every member is contacted: an outcome [true]
    comes with a request to that member's proof URL answered with
    HTTP 202, an outcome [false] with two successive requests to it that
    both failed, and the call sends between [N] and [2 N] requests. *)
Theorem sendProofToCommittee_quorum_of_one :
  forall (w : Runtime.World) (proof : Types.VerifierQosProof)
         (s : Runtime.State),
    let s1 := snd (CommitteeClient.updateCommitteeMembers w s) in
    let members := Runtime.committeeMembers s1 in
    let N := length members in
    (1 <= N)%nat /\
    exists outcomes s',
      CommitteeClient.allSettled
        (map (fun member =>
                CommitteeClient.sendProofToMember
                  w member (CommitteeClient.convertToApiProofFormat proof))
             members) s1 = (Ok outcomes, s') /\
      length outcomes = N /\
      Forall (fun r => r = Ok true \/ r = Ok false) outcomes /\
      CommitteeClient.sendProofToCommittee w proof s
        = (Ok (0 <? CommitteeClient.successCount outcomes)%nat, s') /\
      ((0 <? CommitteeClient.successCount outcomes)%nat = true <->
       exists m n,
         In m members /\
         (Runtime.hits (CommitteeClient.proofUrl m) (Runtime.trace s1) <= n
          < Runtime.hits (CommitteeClient.proofUrl m) (Runtime.trace s'))%nat /\
         CommitteeClient.acked w (CommitteeClient.proofUrl m) n = true) /\
      ((0 <? CommitteeClient.successCount outcomes)%nat = true ->
       (1 <= CommitteeClient.successCount outcomes <= N)%nat) /\
      Forall2 (CommitteeClient.settled w s1 s') members outcomes /\
      (forall m,
          In m members ->
          (Runtime.hits (CommitteeClient.proofUrl m) (Runtime.trace s1)
           < Runtime.hits (CommitteeClient.proofUrl m) (Runtime.trace s'))%nat) /\
      (CommitteeClient.posts (Runtime.trace s1) + N
       <= CommitteeClient.posts (Runtime.trace s')
       <= CommitteeClient.posts (Runtime.trace s1) + 2 * N)%nat.
Proof.
  intros w proof s s1 members N.
  destruct (updateCommitteeMembers_spec w s)
    as (s1' & Hupd & Htrace & _ & _ & Hlen).
  assert (Hs1 : s1 = s1') by (subst s1; rewrite Hupd; reflexivity).
  split; [subst N members; rewrite Hs1; exact Hlen|].
  destruct (fanOut_spec w (CommitteeClient.convertToApiProofFormat proof)
                        members s1)
    as (outcomes & s' & Hrun & Hlen' & Hall & Hmono & Heach & Hfwd & Hbwd).
  destruct (fanOut_settled w (CommitteeClient.convertToApiProofFormat proof)
                           members s1)
    as (outcomes' & s'' & Hrun' & _ & Hsettled & Hcount).
  rewrite Hrun in Hrun'. injection Hrun' as <- <-.
  exists outcomes, s'.
  split; [exact Hrun|]. split; [exact Hlen'|]. split; [exact Hall|].
  split; [apply sendProofToCommittee_run; exact Hrun|].
  split.
  { rewrite successCount_positive. split.
    - exact Hfwd.
    - intros (m & n & _ & Hn & Hack). apply Hbwd.
      exists (CommitteeClient.proofUrl m), n. split; assumption. }
  split.
  { intros Hpos. apply Nat.ltb_lt in Hpos.
    pose proof (successCount_le outcomes). subst N. lia. }
  split; [exact Hsettled|]. split; [exact Heach|exact Hcount].
Qed.

(** The broadcast of the end-to-end scenario: four members, three answer
    202 and one times out on both attempts; the call returns [true] with
    three successes. *)
Lemma sendProofToCommittee_e2e :
  let w := Scenario.e2eWorld in
  let s1 := snd (CommitteeClient.updateCommitteeMembers w Scenario.idle) in
  exists outcomes s',
    CommitteeClient.allSettled
      (map (fun member =>
              CommitteeClient.sendProofToMember
                w member
                (CommitteeClient.convertToApiProofFormat Scenario.sampleProof))
           (Runtime.committeeMembers s1)) s1 = (Ok outcomes, s') /\
    outcomes = [Ok true; Ok true; Ok true; Ok false] /\
    CommitteeClient.successCount outcomes = 3%nat /\
    CommitteeClient.sendProofToCommittee w Scenario.sampleProof Scenario.idle
      = (Ok true, s').
Proof.
  cbv zeta. eexists; eexists.
  split; [vm_compute; reflexivity|].
  split; [reflexivity|]. split; [reflexivity|].
  vm_compute. reflexivity.
Qed.

(** ** CommitteeClient: the status read *)

Section StatusRead.

Import Types Runtime CommitteeClient.

Variables (w : World) (taskId : string).

Lemma getStatusAttempt_run url s :
  exists r,
    getStatusAttempt w url s = (r, append s [EvHttpGet url]) /\
    match answered w url (hits url (trace s)) with
    | Some payload => r = Ok payload
    | None => exists e, r = Throw e
    end.
Proof.
  unfold getStatusAttempt, httpGetM, bind, get, emit, liftResult, answered.
  destruct (httpGet w url (hits url (trace s))) as [r1|e1].
  - destruct (_ && _)%bool; eexists; split; try reflexivity.
    eexists; reflexivity.
  - eexists; split; [reflexivity|]. eexists; reflexivity.
Qed.

Lemma hits_one_get url u :
  hits u [EvHttpGet url] = if String.eqb url u then 1%nat else 0%nat.
Proof. unfold hits. simpl. destruct (String.eqb url u); reflexivity. Qed.

Lemma hits_two_gets url u ms :
  hits u [EvHttpGet url; EvSleep ms; EvHttpGet url]
  = if String.eqb url u then 2%nat else 0%nat.
Proof. unfold hits. simpl. destruct (String.eqb url u); reflexivity. Qed.

Lemma hits_get_sleep url ms :
  hits url [EvHttpGet url; EvSleep ms] = 1%nat.
Proof. unfold hits. simpl. rewrite String.eqb_refl. reflexivity. Qed.

(** A member query sends one request, and a second one after a pause when
    the first brought no payload; it never throws. *)
Lemma getTaskStatusFromMember_run member s :
  let url := statusUrl member taskId in
  let h := hits url (trace s) in
  getTaskStatusFromMember w member taskId s =
  match answered w url h with
  | Some payload => (Ok payload, append s [EvHttpGet url])
  | None =>
      (Ok match answered w url (S h) with
          | Some payload => payload
          | None => JNull
          end,
       append s [EvHttpGet url; EvSleep 1000; EvHttpGet url])
  end.
Proof.
  intros url h.
  unfold getTaskStatusFromMember, tryCatch, withRetry. fold url.
  cbn [Nat.sub withRetryLoop].
  destruct (getStatusAttempt_run url s) as (r1 & -> & Hr1). fold h in Hr1.
  destruct (answered w url h) as [payload|].
  - subst r1. reflexivity.
  - destruct Hr1 as [e1 ->].
    unfold bind at 1. unfold emit at 1. rewrite append_append.
    destruct (getStatusAttempt_run
                url (append s ([EvHttpGet url] ++ [EvSleep 1000])))
      as (r2 & -> & Hr2).
    assert (Hh : hits url (trace (append s ([EvHttpGet url]
                                              ++ [EvSleep 1000]))) = S h).
    { unfold append. cbn [trace]. rewrite hits_app.
      change ([EvHttpGet url] ++ [EvSleep 1000])%list
        with ([EvHttpGet url; EvSleep 1000]).
      rewrite hits_get_sleep. subst h. lia. }
    rewrite Hh in Hr2. rewrite append_append.
    destruct (answered w url (S h)) as [payload|].
    + subst r2. reflexivity.
    + destruct Hr2 as [e2 ->]. reflexivity.
Qed.

Lemma answered_truthy url n payload :
  answered w url n = Some payload -> truthy payload = true.
Proof.
  unfold answered. destruct (httpGet w url n) as [r|e]; [|discriminate].
  destruct (status r =? 200)%Z; [|discriminate]. simpl.
  destruct (truthy (data r)) eqn:Ht; [|discriminate].
  intros [= <-]. exact Ht.
Qed.

Lemma queryResult_truthy url h payload :
  queryResult w url h = Some payload -> truthy payload = true.
Proof.
  unfold queryResult. destruct (answered w url h) eqn:H1.
  - intros [= <-]. eapply answered_truthy; eassumption.
  - apply answered_truthy.
Qed.

(** The guarded member query of [getTaskStatus]: [try { status = await
    getTaskStatusFromMember(...); if (status) return status } catch {}]. *)
Lemma guardedQuery_run member s :
  let url := statusUrl member taskId in
  exists events,
    tryCatch
      (status <- getTaskStatusFromMember w member taskId ;;
       ret (if truthy status then Some status else None))
      (fun _ => ret None) s
    = (Ok (queryResult w url (hits url (trace s))), append s events) /\
    (exists rest, events = EvHttpGet url :: rest) /\
    (forall u, u <> url -> hits u events = 0%nat).
Proof.
  intros url. unfold tryCatch, bind. rewrite getTaskStatusFromMember_run.
  fold url. unfold queryResult.
  destruct (answered w url (hits url (trace s))) as [payload|] eqn:H1.
  - exists [EvHttpGet url]. unfold ret.
    rewrite (answered_truthy _ _ _ H1). split; [reflexivity|]. split.
    + eexists; reflexivity.
    + intros u Hu. rewrite hits_one_get.
      destruct (String.eqb_spec url u); [congruence|reflexivity].
  - exists [EvHttpGet url; EvSleep 1000; EvHttpGet url]. unfold ret. split.
    + destruct (answered w url (S _)) as [payload|] eqn:H2.
      * rewrite (answered_truthy _ _ _ H2). reflexivity.
      * reflexivity.
    + split; [eexists; reflexivity|].
      intros u Hu. rewrite hits_two_gets.
      destruct (String.eqb_spec url u); [congruence|reflexivity].
Qed.

Lemma down_queryResult url h : down w url -> queryResult w url h = None.
Proof. intros Hdown. unfold queryResult. rewrite !Hdown. reflexivity. Qed.

(** The follower loop never throws and only adds to the trace. *)
Lemma queryFollowers_total followers :
  forall s, exists r events,
    queryFollowers w followers taskId s = (Ok r, append s events).
Proof.
  induction followers as [|m rest IH]; intros s.
  - exists None, []. rewrite append_nil. reflexivity.
  - cbn [queryFollowers]. unfold bind at 1.
    destruct (guardedQuery_run m s) as (events & -> & _).
    destruct (queryResult w _ _) as [payload|].
    + exists (Some payload), events. reflexivity.
    + destruct (IH (append s events)) as (r & events' & ->).
      exists r, (events ++ events')%list. rewrite append_append. reflexivity.
Qed.

(** The followers of a list with pairwise distinct status URLs have
    pairwise distinct status URLs. *)
Lemma followers_distinct members :
  NoDup (map (fun m => statusUrl m taskId) members) ->
  NoDup (map (fun m => statusUrl m taskId)
             (filter (fun m => negb (is_leader m)) members)).
Proof.
  induction members as [|m rest IH]; cbn [filter map]; intros Hnd.
  - exact Hnd.
  - apply NoDup_cons_iff in Hnd. destruct Hnd as [Hfresh Hrest].
    destruct (negb (is_leader m)); cbn [map]; [|exact (IH Hrest)].
    apply NoDup_cons_iff. split; [|exact (IH Hrest)].
    contradict Hfresh. revert Hfresh.
    apply incl_map, incl_filter.
Qed.

(** A member query changes the request count of its own URL only. *)
Lemma hits_after_other s events u u' :
  (forall v, v <> u' -> hits v events = 0%nat) ->
  u <> u' ->
  hits u (trace (append s events)) = hits u (trace s).
Proof.
  intros Hother Hne. unfold append. cbn [trace].
  rewrite hits_app, (Hother u Hne). lia.
Qed.

(** Followers are tried in list order: when the queries of all those in
    front of [f] fail and [f] answers within its two attempts, the loop
    returns the payload of [f]. *)
Lemma queryFollowers_first f post payload :
  forall pre s,
    NoDup (map (fun m => statusUrl m taskId) (pre ++ f :: post)) ->
    (forall p, In p pre ->
               queryResult w (statusUrl p taskId)
                           (hits (statusUrl p taskId) (trace s)) = None) ->
    queryResult w (statusUrl f taskId)
                (hits (statusUrl f taskId) (trace s)) = Some payload ->
    exists events,
      queryFollowers w (pre ++ f :: post) taskId s
      = (Ok (Some payload), append s events).
Proof.
  induction pre as [|p pre IH]; intros s Hnd Hpre Hf.
  - cbn [app queryFollowers]. unfold bind at 1.
    destruct (guardedQuery_run f s) as (events & -> & _).
    rewrite Hf. exists events. reflexivity.
  - cbn [app queryFollowers]. unfold bind at 1.
    destruct (guardedQuery_run p s) as (events & -> & _ & Hother).
    rewrite (Hpre p (or_introl eq_refl)).
    cbn [app map] in Hnd. inversion Hnd as [|? ? Hnotin Hnd']; subst.
    assert (Hdistinct : forall x, In x (pre ++ f :: post) ->
                                  statusUrl x taskId <> statusUrl p taskId).
    { intros x Hx Heq. apply Hnotin. rewrite <- Heq.
      apply (in_map (fun m => statusUrl m taskId)). exact Hx. }
    assert (Hinf : In f (pre ++ f :: post))
      by (apply in_or_app; right; left; reflexivity).
    destruct (IH (append s events) Hnd') as (events' & ->).
    + intros q Hq.
      assert (Hinq : In q (pre ++ f :: post))
        by (apply in_or_app; left; exact Hq).
      rewrite (hits_after_other s events _ _ Hother (Hdistinct q Hinq)).
      apply Hpre. right. exact Hq.
    + rewrite (hits_after_other s events _ _ Hother (Hdistinct f Hinf)).
      exact Hf.
    + exists (events ++ events')%list. rewrite append_append. reflexivity.
Qed.

(** When every follower is down the loop runs to its end. *)
Lemma queryFollowers_all_down followers :
  (forall m, In m followers -> down w (statusUrl m taskId)) ->
  forall s, exists events,
    queryFollowers w followers taskId s = (Ok None, append s events).
Proof.
  induction followers as [|m rest IH]; intros Hdown s.
  - exists []. rewrite append_nil. reflexivity.
  - cbn [queryFollowers]. unfold bind at 1.
    destruct (guardedQuery_run m s) as (events & -> & _).
    rewrite (down_queryResult _ _ (Hdown m (or_introl eq_refl))).
    destruct (IH (fun q Hq => Hdown q (or_intror Hq)) (append s events))
      as (events' & ->).
    exists (events ++ events')%list. rewrite append_append. reflexivity.
Qed.

(** One round: refresh, leader, followers. *)
Lemma getTaskStatusRound_run s :
  let s1 := snd (updateCommitteeMembers w s) in
  exists r events,
    getTaskStatusRound w taskId s = (r, append s1 events) /\
    (forall leader,
        find is_leader (committeeMembers s1) = Some leader ->
        exists rest, events = EvHttpGet (statusUrl leader taskId) :: rest).
Proof.
  intros s1.
  destruct (updateCommitteeMembers_spec w s) as (s1' & Hupd & _ & _ & _ & Hlen).
  assert (Hs1 : s1 = s1') by (subst s1; rewrite Hupd; reflexivity).
  rewrite <- Hs1 in Hlen, Hupd. clear Hs1 s1'.
  unfold getTaskStatusRound. unfold bind at 1. rewrite Hupd.
  unfold bind at 1, get at 1.
  destruct (Nat.eqb_spec (length (committeeMembers s1)) 0) as [Hzero|_]; [lia|].
  unfold bind at 1.
  destruct (find is_leader (committeeMembers s1)) as [leader|].
  - destruct (guardedQuery_run leader s1) as (events & -> & [rest ->] & _).
    destruct (queryResult w _ _) as [payload|].
    + eexists; eexists; split; [reflexivity|].
      intros l [= <-]. eexists; reflexivity.
    + unfold bind at 1.
      destruct (queryFollowers_total
                  (filter (fun m => negb (is_leader m)) (committeeMembers s1))
                  (append s1 (EvHttpGet (statusUrl leader taskId) :: rest)))
        as (r & events' & ->).
      rewrite append_append.
      destruct r; (eexists; eexists; split; [reflexivity|]);
        intros l [= <-]; eexists; reflexivity.
  - unfold ret at 1. unfold bind at 1.
    destruct (queryFollowers_total
                (filter (fun m => negb (is_leader m)) (committeeMembers s1)) s1)
      as (r & events' & ->).
    destruct r; (eexists; eexists; split; [reflexivity|]); discriminate.
Qed.

(** One round in which the query of the leader fails (or there is no
    leader), the queries of the followers in front of [f] fail and [f]
    answers. *)
Lemma getTaskStatusRound_fallback s pre f post payload :
  let s1 := snd (updateCommitteeMembers w s) in
  let failed m := queryResult w (statusUrl m taskId)
                              (hits (statusUrl m taskId) (trace s1)) = None in
  NoDup (map (fun m => statusUrl m taskId) (committeeMembers s1)) ->
  (forall leader, find is_leader (committeeMembers s1) = Some leader ->
                  failed leader) ->
  filter (fun m => negb (is_leader m)) (committeeMembers s1)
    = (pre ++ f :: post)%list ->
  (forall p, In p pre -> failed p) ->
  queryResult w (statusUrl f taskId)
              (hits (statusUrl f taskId) (trace s1)) = Some payload ->
  exists events,
    getTaskStatusRound w taskId s = (Ok payload, append s1 events).
Proof.
  intros s1 failed Hnd Hleader Hfollowers Hpre Hf. subst failed.
  destruct (updateCommitteeMembers_spec w s) as (s1' & Hupd & _ & _ & _ & Hlen).
  assert (Hs1 : s1 = s1') by (subst s1; rewrite Hupd; reflexivity).
  rewrite <- Hs1 in Hlen, Hupd. clear Hs1 s1'.
  assert (Hnd' : NoDup (map (fun m => statusUrl m taskId) (pre ++ f :: post))).
  { rewrite <- Hfollowers. apply followers_distinct. exact Hnd. }
  unfold getTaskStatusRound. unfold bind at 1. rewrite Hupd.
  unfold bind at 1, get at 1.
  destruct (Nat.eqb_spec (length (committeeMembers s1)) 0) as [Hzero|_]; [lia|].
  unfold bind at 1. rewrite Hfollowers.
  destruct (find is_leader (committeeMembers s1)) as [leader|] eqn:Hfind.
  - destruct (guardedQuery_run leader s1) as (events & -> & _ & Hother).
    rewrite (Hleader leader eq_refl). unfold bind at 1.
    apply find_some in Hfind. destruct Hfind as [Hin Hflag].
    assert (Hdistinct : forall x, In x (pre ++ f :: post) ->
                                  statusUrl x taskId <> statusUrl leader taskId).
    { intros x Hx Heq. rewrite <- Hfollowers in Hx. apply filter_In in Hx.
      destruct Hx as [Hx Hfollower].
      assert (x = leader); [|subst x; rewrite Hflag in Hfollower; discriminate].
      clear - Hnd Hin Hx Heq. revert Hnd Hin Hx.
      induction (committeeMembers s1) as [|m l IH]; [intros _ []|].
      cbn [map]. intros Hnd. inversion Hnd as [|? ? Hnotin Hnd']; subst.
      intros [->|Hl] [->|Hx]; auto.
      - exfalso. apply Hnotin. rewrite <- Heq.
        apply (in_map (fun m => statusUrl m taskId)). exact Hx.
      - exfalso. apply Hnotin. rewrite Heq.
        apply (in_map (fun m => statusUrl m taskId)). exact Hl. }
    assert (Hinf : In f (pre ++ f :: post))
      by (apply in_or_app; right; left; reflexivity).
    destruct (queryFollowers_first f post payload pre (append s1 events) Hnd')
      as (events' & ->).
    + intros q Hq.
      assert (Hinq : In q (pre ++ f :: post))
        by (apply in_or_app; left; exact Hq).
      rewrite (hits_after_other s1 events _ _ Hother (Hdistinct q Hinq)).
      apply Hpre. exact Hq.
    + rewrite (hits_after_other s1 events _ _ Hother (Hdistinct f Hinf)).
      exact Hf.
    + rewrite append_append. eexists. reflexivity.
  - unfold ret at 1. unfold bind at 1.
    destruct (queryFollowers_first f post payload pre s1 Hnd' Hpre Hf)
      as (events' & ->).
    eexists. reflexivity.
Qed.

(** One round in which nobody answers throws. *)
Lemma getTaskStatusRound_all_down s :
  let s1 := snd (updateCommitteeMembers w s) in
  (forall m, In m (committeeMembers s1) -> down w (statusUrl m taskId)) ->
  exists e events,
    getTaskStatusRound w taskId s = (Throw e, append s1 events).
Proof.
  intros s1 Hdown.
  destruct (updateCommitteeMembers_spec w s) as (s1' & Hupd & _ & _ & _ & Hlen).
  assert (Hs1 : s1 = s1') by (subst s1; rewrite Hupd; reflexivity).
  rewrite <- Hs1 in Hlen, Hupd. clear Hs1 s1'.
  assert (Hfollowers :
            forall m, In m (filter (fun m => negb (is_leader m))
                                   (committeeMembers s1)) ->
                      down w (statusUrl m taskId)).
  { intros m Hin. apply filter_In in Hin. apply Hdown, Hin. }
  unfold getTaskStatusRound. unfold bind at 1. rewrite Hupd.
  unfold bind at 1, get at 1.
  destruct (Nat.eqb_spec (length (committeeMembers s1)) 0) as [Hzero|_]; [lia|].
  unfold bind at 1.
  destruct (find is_leader (committeeMembers s1)) as [leader|] eqn:Hfind.
  - destruct (guardedQuery_run leader s1) as (events & -> & _).
    apply find_some in Hfind.
    rewrite (down_queryResult _ _ (Hdown leader (proj1 Hfind))).
    unfold bind at 1.
    destruct (queryFollowers_all_down _ Hfollowers (append s1 events))
      as (events' & ->).
    rewrite append_append. eexists; eexists; reflexivity.
  - unfold ret at 1. unfold bind at 1.
    destruct (queryFollowers_all_down _ Hfollowers s1) as (events' & ->).
    eexists; eexists; reflexivity.
Qed.

Lemma updateCommitteeMembers_members s :
  committeeMembers (snd (updateCommitteeMembers w s)) = committeeMembers s
  \/ committeeMembers (snd (updateCommitteeMembers w s)) = fixedMembers.
Proof.
  unfold updateCommitteeMembers, bind, get.
  destruct (_ && _)%bool; [left|right]; reflexivity.
Qed.

Lemma updateCommitteeMembers_trace s :
  trace (snd (updateCommitteeMembers w s)) = trace s.
Proof.
  destruct (updateCommitteeMembers_spec w s) as (s1 & -> & Htrace & _).
  exact Htrace.
Qed.

(** [getTaskStatus] unfolded over its two rounds. *)
Lemma getTaskStatus_rounds s :
  getTaskStatus w taskId s =
  match getTaskStatusRound w taskId s with
  | (Ok status, s') => (Ok status, s')
  | (Throw _, s') =>
      match getTaskStatusRound w taskId (append s' [EvSleep 1000]) with
      | (Ok status, s'') => (Ok status, s'')
      | (Throw _, s'') => (Ok JNull, s'')
      end
  end.
Proof.
  unfold getTaskStatus, tryCatch, withRetry. cbn [Nat.sub withRetryLoop].
  destruct (getTaskStatusRound w taskId s) as [[status|e] s']; [reflexivity|].
  unfold bind, emit.
  destruct (getTaskStatusRound w taskId (append s' [EvSleep 1000]))
    as [[status|e'] s'']; reflexivity.
Qed.

Lemma getTaskStatus_total s :
  exists status s', getTaskStatus w taskId s = (Ok status, s').
Proof.
  rewrite getTaskStatus_rounds.
  destruct (getTaskStatusRound w taskId s) as [[status|e] s'].
  - eexists; eexists; reflexivity.
  - destruct (getTaskStatusRound w taskId (append s' [EvSleep 1000]))
      as [[status|e'] s'']; eexists; eexists; reflexivity.
Qed.

Lemma getTaskStatus_leader_first s leader :
  find is_leader (committeeMembers (snd (updateCommitteeMembers w s)))
    = Some leader ->
  exists rest,
    trace (snd (getTaskStatus w taskId s))
    = (trace s ++ EvHttpGet (statusUrl leader taskId) :: rest)%list.
Proof.
  intros Hfind. rewrite getTaskStatus_rounds.
  destruct (getTaskStatusRound_run s) as (r & events & -> & Hfirst).
  destruct (Hfirst leader Hfind) as [rest ->].
  destruct r as [status|e].
  - exists rest. cbn [snd]. unfold append. cbn [trace].
    rewrite updateCommitteeMembers_trace. reflexivity.
  - destruct (getTaskStatusRound_run
                (append (append (snd (updateCommitteeMembers w s))
                                (EvHttpGet (statusUrl leader taskId) :: rest))
                        [EvSleep 1000]))
      as (r2 & events2 & -> & _).
    exists (rest ++ [EvSleep 1000] ++ events2)%list.
    destruct r2; cbn [snd]; unfold append at 1; cbn [trace];
      rewrite updateCommitteeMembers_trace; unfold append; cbn [trace];
      rewrite updateCommitteeMembers_trace;
      rewrite <- !app_assoc; reflexivity.
Qed.

Lemma getTaskStatus_all_down s :
  (forall m,
      In m (committeeMembers (snd (updateCommitteeMembers w s)))
      \/ In m fixedMembers ->
      down w (statusUrl m taskId)) ->
  fst (getTaskStatus w taskId s) = Ok JNull.
Proof.
  intros Hdown. rewrite getTaskStatus_rounds.
  destruct (getTaskStatusRound_all_down s (fun m Hm => Hdown m (or_introl Hm)))
    as (e & events & ->).
  set (s2 := append (append _ events) [EvSleep 1000]).
  destruct (getTaskStatusRound_all_down s2) as (e2 & events2 & ->);
    [|reflexivity].
  intros m Hm. apply Hdown.
  destruct (updateCommitteeMembers_members s2) as [Hsame|Hfixed].
  - left. rewrite Hsame in Hm. exact Hm.
  - right. rewrite Hfixed in Hm. exact Hm.
Qed.

End StatusRead.

(** C5. [getTaskStatus] never throws. With [members] the cached committee
    list after the refresh (its status URLs pairwise distinct): (1) when
    the list has a leader, the first request of the call goes to the
    leader; (2) when the query of the leader fails on both attempts (or
    there is no leader), the queries of the followers in front of [f] in
    list order fail and [f] answers within its two attempts, the call
    returns the payload of [f]; (3) when the leader and every follower are
    down (those of the list, and those of the list a refresh before the
    second round may install) the call returns [null]. *)
Theorem getTaskStatus_leader_then_followers :
  forall (w : Runtime.World) (taskId : string) (s : Runtime.State),
    let s1 := snd (CommitteeClient.updateCommitteeMembers w s) in
    let members := Runtime.committeeMembers s1 in
    let url m := CommitteeClient.statusUrl m taskId in
    let failed m :=
      CommitteeClient.queryResult
        w (url m) (Runtime.hits (url m) (Runtime.trace s1)) = None in
    (exists status s',
        CommitteeClient.getTaskStatus w taskId s = (Ok status, s'))
    /\ (forall leader,
          find Runtime.is_leader members = Some leader ->
          exists rest,
            Runtime.trace (snd (CommitteeClient.getTaskStatus w taskId s))
            = (Runtime.trace s ++ Runtime.EvHttpGet (url leader) :: rest)%list)
    /\ (forall pre f post payload,
          NoDup (map url members) ->
          (forall leader, find Runtime.is_leader members = Some leader ->
                          failed leader) ->
          filter (fun m => negb (Runtime.is_leader m)) members
            = (pre ++ f :: post)%list ->
          (forall p, In p pre -> failed p) ->
          CommitteeClient.queryResult
            w (url f) (Runtime.hits (url f) (Runtime.trace s1))
            = Some payload ->
          fst (CommitteeClient.getTaskStatus w taskId s) = Ok payload)
    /\ ((forall m, In m members \/ In m CommitteeClient.fixedMembers ->
                   CommitteeClient.down w (url m)) ->
        fst (CommitteeClient.getTaskStatus w taskId s) = Ok Types.JNull).
Proof.
  intros w taskId s s1 members url failed.
  split; [apply getTaskStatus_total|].
  split; [intros leader Hfind; apply getTaskStatus_leader_first; exact Hfind|].
  split.
  - intros pre f post payload Hnd Hleader Hfollowers Hpre Hf.
    rewrite getTaskStatus_rounds.
    destruct (getTaskStatusRound_fallback w taskId s pre f post payload
                                          Hnd Hleader Hfollowers Hpre Hf)
      as (events & ->).
    reflexivity.
  - apply getTaskStatus_all_down.
Qed.

Lemma getTaskStatus_fallback_witness :
  fst (CommitteeClient.getTaskStatus Scenario.onlyFollower2Answers "t1"
                                     Scenario.idle)
  = Ok Scenario.statusPayload.
Proof.
  pose (f1 := Runtime.mkCommitteeMember "follower1" "10.24.216.33" 9000 false).
  pose (f2 := Runtime.mkCommitteeMember "follower2" "10.24.198.225" 9000 false).
  pose (f3 := Runtime.mkCommitteeMember "follower3" "10.24.161.186" 9000 false).
  apply (proj1 (proj2 (proj2 (getTaskStatus_leader_then_followers
                                Scenario.onlyFollower2Answers "t1"
                                Scenario.idle)))
           [f1] f2 [f3] Scenario.statusPayload).
  - vm_compute. repeat constructor; simpl; intuition discriminate.
  - intros l Hl. vm_compute in Hl. injection Hl as <-. reflexivity.
  - reflexivity.
  - intros p [<-|[]]. reflexivity.
  - reflexivity.
Defined.

(** ** VerifierService: the scoring loop *)

Section Scoring.

Import Types Runtime VerifierService.

Variables (w : World) (sourceGopMap resultGopMap : JsMap.t).

(** Markers that miss a segment on either side leave no mark on the loop:
    it behaves as on the list of the markers present on both sides. *)
Lemma scoreLoop_skips_missing selected_gops :
  forall gopScores s,
    scoreLoop w sourceGopMap resultGopMap selected_gops gopScores s
    = scoreLoop w sourceGopMap resultGopMap
                (filter (bothPresent sourceGopMap resultGopMap) selected_gops)
                gopScores s.
Proof.
  induction selected_gops as [|g rest IH]; intros gopScores s.
  - reflexivity.
  - cbn [scoreLoop filter]. unfold bothPresent at 1.
    destruct (present (JsMap.get (JsMap.str g) sourceGopMap)) as [sp|] eqn:Hsrc;
      [|apply IH].
    destruct (present (JsMap.get (JsMap.str g) resultGopMap)) as [rp|] eqn:Hres;
      [|apply IH].
    cbn [scoreLoop]. rewrite Hsrc, Hres. unfold bind.
    destruct (calculateVmafScore w sp rp s) as [[vmafScore|e] s1];
      [|reflexivity].
    destruct (calculateGopHash w rp s1) as [[gopHash|e] s2]; [|reflexivity].
    apply IH.
Qed.

(** When every marker of the list is present on both sides, scored and
    hashed, the loop appends one score per marker, in order, each being the
    scorer's value lowered by 10. *)
Lemma scoreLoop_all_scored samples :
  Forall (scored w sourceGopMap resultGopMap) samples ->
  forall gopScores s,
  exists s',
    scoreLoop w sourceGopMap resultGopMap (map fst samples) gopScores s
    = (Ok (gopScores
             ++ map (fun sample =>
                       mkGopScore (fst sample) (fst (snd sample) - 10)
                                  (snd (snd sample))) samples)%list,
       s').
Proof.
  induction 1 as [|sample rest Hsample _ IH]; intros gopScores s.
  - exists s. cbn. rewrite app_nil_r. reflexivity.
  - destruct Hsample as (sp & rp & Hsrc & Hres & Hscore & Hhash).
    cbn [map scoreLoop]. rewrite Hsrc, Hres.
    unfold bind at 1.
    unfold calculateVmafScore, bind at 1, emit at 1, liftResult.
    rewrite Hscore.
    unfold bind at 1. unfold calculateGopHash, bind at 1, emit at 1, liftResult.
    rewrite Hhash.
    destruct (IH (gopScores
                    ++ [mkGopScore (fst sample) (fst (snd sample) - 10)
                                   (snd (snd sample))])%list
                 (append (append s [EvVmaf sp rp]) [EvReadFile rp]))
      as (s' & ->).
    exists s'. rewrite <- app_assoc. reflexivity.
Qed.

End Scoring.

(** ** VerifierService: the marker list handed to the extractor *)

Lemma includes_In all g :
  VerifierService.includes all g = true <-> In g all.
Proof.
  unfold VerifierService.includes. rewrite existsb_exists. split.
  - intros (x & Hx & Heq). apply String.eqb_eq in Heq. subst x. exact Hx.
  - intros Hin. exists g. split; [exact Hin|apply String.eqb_refl].
Qed.

Lemma allTimestamps_grow selected : forall all,
  let extended :=
    fold_left (fun all gopTimestamp =>
                 if VerifierService.includes all gopTimestamp then all
                 else (all ++ [gopTimestamp])%list) selected all in
  (forall x, In x all -> In x extended) /\
  (forall g, In g selected -> In g extended).
Proof.
  induction selected as [|g rest IH]; intros all; cbn [fold_left].
  - split; [auto|intros g []].
  - destruct (VerifierService.includes all g) eqn:Hinc.
    + destruct (IH all) as [Hkeep Hadd]. split; [exact Hkeep|].
      intros x [<-|Hx]; [apply Hkeep, includes_In, Hinc|apply Hadd, Hx].
    + destruct (IH (all ++ [g])%list) as [Hkeep Hadd]. split.
      * intros x Hx. apply Hkeep, in_or_app. left. exact Hx.
      * intros x [<-|Hx]; [|apply Hadd, Hx].
        apply Hkeep, in_or_app. right. left. reflexivity.
Qed.

(** Every selected marker is among the markers the assets are split at, so
    the extractor is never called with an empty list by the pipeline (the
    selection is checked to be non-empty first). *)
Lemma allTimestampsOf_includes_selected keyframe_timestamps selected_gops g :
  In g selected_gops ->
  In g (VerifierService.allTimestampsOf keyframe_timestamps selected_gops).
Proof.
  intros Hin. unfold VerifierService.allTimestampsOf.
  apply (proj2 (allTimestamps_grow selected_gops _)). exact Hin.
Qed.

Lemma allTimestampsOf_nonempty keyframe_timestamps selected_gops :
  selected_gops <> [] ->
  VerifierService.allTimestampsOf keyframe_timestamps selected_gops <> [].
Proof.
  destruct selected_gops as [|g rest]; [congruence|]. intros _ Hnil.
  pose proof (allTimestampsOf_includes_selected
                keyframe_timestamps (g :: rest) g (or_introl eq_refl)) as Hin.
  rewrite Hnil in Hin. exact Hin.
Qed.

(** ** VerifierService: aggregation *)

Lemma fold_left_scores scores : forall sum,
  fold_left (fun sum score => sum + Types.vmaf_score score) scores sum
  == sum + fold_right Qplus 0 (map Types.vmaf_score scores).
Proof.
  induction scores as [|score rest IH]; intros sum; simpl.
  - ring.
  - rewrite IH. ring.
Qed.

Lemma overallVideoScore_mean scores :
  VerifierService.overallVideoScore scores
  == VerifierService.mean (map Types.vmaf_score scores).
Proof.
  unfold VerifierService.overallVideoScore, VerifierService.mean.
  rewrite fold_left_scores, length_map. rewrite Qplus_0_l. reflexivity.
Qed.

Lemma sum_lowered (values : list Q) :
  fold_right Qplus 0 (map (fun v => v - 10) values)
  == fold_right Qplus 0 values - 10 * inject_Z (Z.of_nat (length values)).
Proof.
  induction values as [|v rest IH].
  - simpl. ring.
  - cbn [map fold_right length]. rewrite IH.
    rewrite Nat2Z.inj_succ. unfold Z.succ. rewrite inject_Z_plus. ring.
Qed.

(** Lowering every value by 10 lowers the mean by 10. *)
Lemma mean_lowered (values : list Q) :
  values <> [] ->
  VerifierService.mean (map (fun v => v - 10) values)
  == VerifierService.mean values - 10.
Proof.
  intros Hne. unfold VerifierService.mean.
  rewrite sum_lowered, length_map.
  assert (Hn : ~ inject_Z (Z.of_nat (length values)) == 0).
  { destruct values as [|v rest]; [congruence|].
    cbn [length]. rewrite Nat2Z.inj_succ. unfold Qeq. simpl. lia. }
  field. exact Hn.
Qed.

(** ** VerifierService: [verifyTask] *)

Section Pipeline.

Import Types Runtime VerifierService.

Variable w : World.

(** [verifyTask] catches everything: it never throws. *)
Lemma verifyTask_total task s :
  exists r s', verifyTask w task s = (Ok r, s').
Proof.
  unfold verifyTask, tryCatch.
  destruct (bind _ _ s) as [[r|e] s']; eexists; eexists; reflexivity.
Qed.

(** A run of steps 9 to 11 that returns a proof returns the proof it was
    given, after the ledger accepted it, the committee fan-out ran and the
    three cleanup actions were issued. *)
Lemma verifyTask_deliver_success proof sourcePath resultPath s proof' s' :
  verifyTask_deliver w proof sourcePath resultPath s = (Ok (Some proof'), s') ->
  proof' = proof /\
  submit_verifier_proof w proof = Ok true /\
  exists delivered sent,
    CommitteeClient.sendProofToCommittee
      w proof (append s [EvSubmitVerifierProof proof]) = (Ok delivered, sent) /\
    s' = append sent [EvCleanupFile sourcePath; EvCleanupFile resultPath;
                      EvCleanupAllGops].
Proof.
  unfold verifyTask_deliver. unfold bind at 1.
  unfold NearConnection.submitVerifierProof, bind at 1, emit at 1.
  destruct (submit_verifier_proof w proof) as [[|]|e] eqn:Hledger;
    unfold ret at 1; cbn [negb]; try (unfold throw; discriminate).
  unfold bind at 1.
  destruct (sendProofToCommittee_total
              w proof (append s [EvSubmitVerifierProof proof]))
    as (delivered & sent & Hsend & _).
  rewrite Hsend.
  unfold IpfsService.cleanupFile, cleanupAllGops, bind, emit, get, liftResult,
    ret.
  rewrite !append_append. cbn [app].
  destruct (removeGopFiles w _); [|discriminate].
  intros [= <- <-].
  split; [reflexivity|]. split; [reflexivity|].
  exists delivered, sent. split; reflexivity.
Qed.

(** A run of steps 1 to 8 that yields a proof scored at least one sample,
    stores the scores of the loop and their mean in the proof. *)
Lemma verifyTask_build_success task s proof sourcePath resultPath s' :
  verifyTask_build w task s = (Ok (proof, sourcePath, resultPath), s') ->
  exists gopScores scored_state,
    verifyTask_score w task s
      = (Ok (gopScores, sourcePath, resultPath), scored_state) /\
    gopScores <> [] /\
    gop_scores proof = gopScores /\
    video_score proof = overallVideoScore gopScores /\
    isSupplementary proof = false.
Proof.
  unfold verifyTask_build. unfold bind at 1.
  destruct (verifyTask_score w task s) as [[[[gopScores sp] rp]|e] s1];
    [|discriminate].
  destruct (Nat.eqb_spec (length gopScores) 0) as [Hzero|Hpos];
    [unfold throw; discriminate|].
  unfold bind at 1. unfold getVideoSpecifications, bind at 1, emit at 1,
    liftResult.
  destruct (ffprobe w rp) as [videoSpecs|e]; [|discriminate].
  unfold bind, get, ret. intros [= <- <- <- <-].
  exists gopScores, s1. cbn.
  repeat split. intros ->. apply Hpos. reflexivity.
Qed.

(** A run of [verifyTask] that returns a proof went through both stages. *)
Lemma verifyTask_success task s proof s' :
  verifyTask w task s = (Ok (Some proof), s') ->
  exists sourcePath resultPath built,
    verifyTask_build w task s = (Ok (proof, sourcePath, resultPath), built) /\
    verifyTask_deliver w proof sourcePath resultPath built
      = (Ok (Some proof), s').
Proof.
  unfold verifyTask, tryCatch, bind at 1.
  destruct (verifyTask_build w task s) as [[[[proof0 sp] rp]|e] built];
    [|unfold ret; discriminate].
  destruct (verifyTask_deliver w proof0 sp rp built) as [[r|e] s1] eqn:Hdeliver;
    [|unfold ret; discriminate].
  intros [= -> <-].
  destruct (verifyTask_deliver_success _ _ _ _ _ _ Hdeliver) as (-> & _).
  exists sp, rp, built. split; [reflexivity|exact Hdeliver].
Qed.

(** When the scoring loop leaves no score, no proof is produced. *)
Lemma verifyTask_no_score task s sourcePath resultPath scored_state :
  verifyTask_score w task s = (Ok ([], sourcePath, resultPath), scored_state) ->
  verifyTask w task s = (Ok None, scored_state).
Proof.
  intros Hscore. unfold verifyTask, tryCatch, bind at 1.
  unfold verifyTask_build, bind at 1. rewrite Hscore. reflexivity.
Qed.

(** The stored form of a scored sample: the scorer's value lowered
    by 10. *)
Lemma verifyTask_score_run task samples s :
  extractedAndScored w task samples ->
  exists scored_state,
    verifyTask_score w task s
    = (Ok (map (fun sample =>
                  mkGopScore (fst sample) (fst (snd sample) - 10)
                             (snd (snd sample))) samples,
           sourcePathOf w task, resultPathOf w task),
       scored_state).
Proof.
  intros (resultIpfs & sourceGopMap & resultGopMap & Hsource & Hresult
          & Hresult' & Hselected & Hsamples & Hdl1 & Hdl2 & Hsplit1 & Hsplit2
          & Hscored).
  unfold verifyTask_score. rewrite Hresult, Hselected.
  destruct (String.eqb_spec (source_ipfs task) ""); [contradiction|].
  destruct (String.eqb_spec resultIpfs ""); [contradiction|].
  destruct (Nat.eqb_spec (length (map fst samples)) 0) as [Hzero|_].
  { destruct samples; [congruence|discriminate]. }
  unfold bind at 1.
  unfold IpfsService.downloadMediaFiles, IpfsService.downloadFileM.
  unfold bind at 1, bind at 1, emit at 1, bind at 1, liftResult at 1.
  destruct (downloadFile w (source_ipfs task) _); [|discriminate].
  unfold ret at 1.
  unfold bind at 1, bind at 1, emit at 1, bind at 1, liftResult at 1.
  destruct (downloadFile w resultIpfs _); [|discriminate].
  unfold ret at 1, ret at 1.
  fold (sourcePathOf w task). fold (resultPathOf w task).
  unfold bind at 1.
  unfold splitVideoIntoGops at 1, bind at 1, emit at 1, liftResult at 1.
  rewrite Hsplit1.
  unfold bind at 1.
  unfold splitVideoIntoGops at 1, bind at 1, emit at 1, liftResult at 1.
  rewrite Hsplit2.
  unfold bind at 1.
  match goal with
  | |- context [scoreLoop w sourceGopMap resultGopMap _ [] ?st] =>
      destruct (scoreLoop_all_scored w sourceGopMap resultGopMap samples
                                     Hscored [] st) as (s1 & ->)
  end.
  exists s1. reflexivity.
Qed.

(** The pipeline run to its end on a task whose selected markers are all
    extracted and scored. *)
Lemma verifyTask_run task samples s :
  extractedAndScored w task samples ->
  deliverable w task ->
  exists proof s',
    verifyTask w task s = (Ok (Some proof), s') /\
    gop_scores proof
    = map (fun sample =>
             mkGopScore (fst sample) (fst (snd sample) - 10)
                        (snd (snd sample))) samples /\
    video_score proof = overallVideoScore (gop_scores proof).
Proof.
  intros Hscored (Hprobe & Hledger & Hcleanup).
  assert (Hne : samples <> [])
    by (destruct Hscored as (? & ? & ? & H); apply H).
  destruct (verifyTask_score_run task samples s Hscored) as (s1 & Hscore).
  unfold verifyTask, tryCatch, bind at 1.
  unfold verifyTask_build, bind at 1. rewrite Hscore.
  destruct (Nat.eqb_spec (length (map (fun sample =>
                                          mkGopScore (fst sample)
                                                     (fst (snd sample) - 10)
                                                     (snd (snd sample)))
                                       samples)) 0) as [Hzero|_].
  { rewrite length_map in Hzero. destruct samples; [congruence|discriminate]. }
  unfold bind at 1. unfold getVideoSpecifications, bind at 1, emit at 1,
    liftResult at 1.
  destruct (ffprobe w (resultPathOf w task)) as [videoSpecs|e]; [|discriminate].
  unfold bind at 1, get at 1, ret at 1.
  match goal with
  | |- context [verifyTask_deliver w ?p ?sp ?rp ?st] =>
      set (proof := p); set (built := st)
  end.
  unfold verifyTask_deliver, bind at 1.
  unfold NearConnection.submitVerifierProof, bind at 1, emit at 1.
  rewrite Hledger. unfold ret at 1. cbn [negb]. unfold bind at 1.
  destruct (sendProofToCommittee_total
              w proof (append built [EvSubmitVerifierProof proof]))
    as (delivered & sent & -> & _).
  unfold IpfsService.cleanupFile, cleanupAllGops, bind, emit, get, liftResult,
    ret.
  rewrite Hcleanup.
  eexists; eexists. split; [reflexivity|]. split; reflexivity.
Qed.

(** The later steps each turn a scored task into [null]: a failing probe
    of the candidate asset, *)
Lemma verifyTask_probe_fails task s gopScores sourcePath resultPath
      scored_state e :
  verifyTask_score w task s
    = (Ok (gopScores, sourcePath, resultPath), scored_state) ->
  gopScores <> [] ->
  ffprobe w resultPath = Throw e ->
  verifyTask w task s = (Ok None, append scored_state [EvProbe resultPath]).
Proof.
  intros Hscore Hne Hprobe. unfold verifyTask, tryCatch, bind at 1.
  unfold verifyTask_build, bind at 1. rewrite Hscore.
  destruct (Nat.eqb_spec (length gopScores) 0) as [Hzero|_].
  { destruct gopScores; [congruence|discriminate]. }
  unfold bind at 1. unfold getVideoSpecifications, bind at 1, emit at 1,
    liftResult.
  rewrite Hprobe. reflexivity.
Qed.

(** a ledger submission that is not accepted, *)
Lemma verifyTask_ledger_rejects task s proof sourcePath resultPath built :
  verifyTask_build w task s = (Ok (proof, sourcePath, resultPath), built) ->
  submit_verifier_proof w proof <> Ok true ->
  verifyTask w task s
  = (Ok None, append built [EvSubmitVerifierProof proof]).
Proof.
  intros Hbuild Hledger. unfold verifyTask, tryCatch, bind at 1.
  rewrite Hbuild.
  unfold verifyTask_deliver, bind at 1.
  unfold NearConnection.submitVerifierProof, bind at 1, emit at 1.
  destruct (submit_verifier_proof w proof) as [[|]|e];
    [congruence|reflexivity|reflexivity].
Qed.

(** and a failing removal of the segment files, after the committee was
    served. *)
Lemma verifyTask_removal_fails task s proof sourcePath resultPath built
      delivered sent e :
  verifyTask_build w task s = (Ok (proof, sourcePath, resultPath), built) ->
  submit_verifier_proof w proof = Ok true ->
  CommitteeClient.sendProofToCommittee
    w proof (append built [EvSubmitVerifierProof proof]) = (Ok delivered, sent) ->
  removeGopFiles
    w (trace (append sent [EvCleanupFile sourcePath;
                           EvCleanupFile resultPath])) = Throw e ->
  verifyTask w task s
  = (Ok None, append sent [EvCleanupFile sourcePath; EvCleanupFile resultPath;
                           EvCleanupAllGops]).
Proof.
  intros Hbuild Hledger Hsend Hremove. unfold verifyTask, tryCatch, bind at 1.
  rewrite Hbuild.
  unfold verifyTask_deliver, bind at 1.
  unfold NearConnection.submitVerifierProof, bind at 1, emit at 1.
  rewrite Hledger. unfold ret at 1. cbn [negb]. unfold bind at 1.
  rewrite Hsend.
  unfold IpfsService.cleanupFile, cleanupAllGops, bind, emit, get, liftResult,
    ret.
  rewrite !append_append. cbn [app].
  rewrite Hremove. reflexivity.
Qed.

End Pipeline.

(** The rational model loses nothing in the end-to-end scenario: computed
    in binary64, with every sample lowered by 10 as on line 310, the overall
    score is within 0.001 of 84.667 and not of 94.667. *)
Lemma overallVideoScore64_e2e :
  let overall :=
    VerifierService.overallVideoScore64
      [92 - 10; 95 - 10; 97 - 10]%float in
  PrimFloat.ltb (PrimFloat.abs (overall - 84667 / 1000)) (1 / 1000)%float
    = true
  /\ PrimFloat.ltb (PrimFloat.abs (overall - 94667 / 1000)) (1 / 1000)%float
     = false.
Proof. vm_compute. split; reflexivity. Qed.

(** C1, as the code has it. For a task whose three selected markers are all
    extracted on both assets and for which the scorer returns 92, 95 and 97,
    [verifyTask] (the later steps succeeding) produces a proof with three
    sample scores whose overall score is the mean of the scorer's values
    lowered by 10, the offset line 310 subtracts from every sample: 84.667
    within 0.001. *)
Theorem verifyTask_three_samples :
  forall (w : Runtime.World) (task : Types.TaskData) (s : Runtime.State)
         (g1 g2 g3 : string) (v1 v2 v3 : Q) (h1 h2 h3 : string),
    VerifierService.extractedAndScored
      w task [(g1, (v1, h1)); (g2, (v2, h2)); (g3, (v3, h3))] ->
    v1 == 92 -> v2 == 95 -> v3 == 97 ->
    VerifierService.deliverable w task ->
    exists proof s',
      VerifierService.verifyTask w task s = (Ok (Some proof), s') /\
      length (Types.gop_scores proof) = 3%nat /\
      Types.video_score proof == VerifierService.mean [v1; v2; v3] - 10 /\
      Qabs (Types.video_score proof - (84667 # 1000)) <= 1 # 1000.
Proof.
  intros w task s g1 g2 g3 v1 v2 v3 h1 h2 h3 Hscored Hv1 Hv2 Hv3 Hdeliver.
  destruct (verifyTask_run w task _ s Hscored Hdeliver)
    as (proof & s' & Hrun & Hgops & Hoverall).
  exists proof, s'.
  assert (Hmean : Types.video_score proof
                  == VerifierService.mean [v1; v2; v3] - 10).
  { rewrite Hoverall, overallVideoScore_mean, Hgops.
    rewrite <- (mean_lowered [v1; v2; v3]) by discriminate.
    reflexivity. }
  split; [exact Hrun|]. split; [rewrite Hgops; reflexivity|].
  split; [exact Hmean|].
  rewrite Hmean. unfold VerifierService.mean. cbn [fold_right length].
  rewrite Hv1, Hv2, Hv3. vm_compute. discriminate.
Qed.

Lemma e2e_extractedAndScored :
  VerifierService.extractedAndScored
    Scenario.e2eWorld Scenario.e2eTask
    [("0.000000", (92, "sha256:/w/temp/gops/t1-result/segment_0.mp4"));
     ("2.266667", (95, "sha256:/w/temp/gops/t1-result/segment_2.mp4"));
     ("5.133333", (97, "sha256:/w/temp/gops/t1-result/segment_4.mp4"))].
Proof.
  eexists; eexists; eexists.
  split; [discriminate|]. split; [reflexivity|]. split; [discriminate|].
  split; [reflexivity|]. split; [discriminate|].
  split; [reflexivity|]. split; [reflexivity|].
  split; [vm_compute; reflexivity|]. split; [vm_compute; reflexivity|].
  repeat constructor;
    (eexists; eexists;
     split; [vm_compute; reflexivity|];
     split; [vm_compute; reflexivity|];
     split; vm_compute; reflexivity).
Defined.

Lemma e2e_deliverable :
  VerifierService.deliverable Scenario.e2eWorld Scenario.e2eTask.
Proof.
  split; [reflexivity|]. split; intros; reflexivity.
Defined.

Lemma verifyTask_three_samples_witness :
  exists proof s',
    VerifierService.verifyTask Scenario.e2eWorld Scenario.e2eTask Scenario.idle
      = (Ok (Some proof), s') /\
    length (Types.gop_scores proof) = 3%nat /\
    Types.video_score proof == VerifierService.mean [92; 95; 97] - 10 /\
    Qabs (Types.video_score proof - (84667 # 1000)) <= 1 # 1000.
Proof.
  apply (verifyTask_three_samples
           Scenario.e2eWorld Scenario.e2eTask Scenario.idle
           "0.000000" "2.266667" "5.133333" 92 95 97
           "sha256:/w/temp/gops/t1-result/segment_0.mp4"
           "sha256:/w/temp/gops/t1-result/segment_2.mp4"
           "sha256:/w/temp/gops/t1-result/segment_4.mp4").
  - exact e2e_extractedAndScored.
  - reflexivity.
  - reflexivity.
  - reflexivity.
  - exact e2e_deliverable.
Defined.

(** C1, counterexample. In the end-to-end scenario the scorer returns 92, 95
    and 97 and the proof carries three sample scores, but its overall score
    is 254/3 (about 84.667), more than 0.001 away from 94.667. *)
Lemma verifyTask_e2e_counterexample :
  exists proof s',
    VerifierService.verifyTask Scenario.e2eWorld Scenario.e2eTask Scenario.idle
      = (Ok (Some proof), s') /\
    length (Types.gop_scores proof) = 3%nat /\
    Types.video_score proof = 254 # 3 /\
    ~ Qabs (Types.video_score proof - (94667 # 1000)) <= 1 # 1000 /\
    VerifierService.extractedAndScored
      Scenario.e2eWorld Scenario.e2eTask
      [("0.000000", (92, "sha256:/w/temp/gops/t1-result/segment_0.mp4"));
       ("2.266667", (95, "sha256:/w/temp/gops/t1-result/segment_2.mp4"));
       ("5.133333", (97, "sha256:/w/temp/gops/t1-result/segment_4.mp4"))].
Proof.
  eexists; eexists. split; [vm_compute; reflexivity|].
  split; [reflexivity|]. split; [reflexivity|].
  split; [|exact e2e_extractedAndScored].
  vm_compute. intros H. apply H. reflexivity.
Qed.

(** C4, as the code has it. A selected marker that misses its reference or
    its candidate segment is skipped and the loop goes on: the loop behaves
    as on the markers present on both sides. When the loop leaves no score
    [verifyTask] returns [null], and every proof it returns carries at least
    one score, namely the scores of the loop. A non-empty sequence is
    necessary, not sufficient: with scores at hand [verifyTask] still
    returns [null] when the probe of the candidate asset fails, when the
    ledger does not accept the proof built from the scores, and when the
    removal of the segment files fails. *)
Theorem verifyTask_skips_and_needs_a_score :
  forall (w : Runtime.World) (task : Types.TaskData) (s : Runtime.State),
    (forall sourceGopMap resultGopMap selected_gops gopScores s0,
        VerifierService.scoreLoop w sourceGopMap resultGopMap selected_gops
                                  gopScores s0
        = VerifierService.scoreLoop
            w sourceGopMap resultGopMap
            (filter (VerifierService.bothPresent sourceGopMap resultGopMap)
                    selected_gops)
            gopScores s0)
    /\ (forall sourcePath resultPath scored_state,
           VerifierService.verifyTask_score w task s
             = (Ok ([], sourcePath, resultPath), scored_state) ->
           VerifierService.verifyTask w task s = (Ok None, scored_state))
    /\ (forall proof s',
           VerifierService.verifyTask w task s = (Ok (Some proof), s') ->
           Types.gop_scores proof <> [] /\
           exists sourcePath resultPath scored_state,
             VerifierService.verifyTask_score w task s
             = (Ok (Types.gop_scores proof, sourcePath, resultPath),
                scored_state))
    /\ (forall gopScores sourcePath resultPath scored_state e,
           VerifierService.verifyTask_score w task s
             = (Ok (gopScores, sourcePath, resultPath), scored_state) ->
           gopScores <> [] ->
           Runtime.ffprobe w resultPath = Throw e ->
           VerifierService.verifyTask w task s
           = (Ok None,
              Runtime.append scored_state [Runtime.EvProbe resultPath]))
    /\ (forall proof sourcePath resultPath built,
           VerifierService.verifyTask_build w task s
             = (Ok (proof, sourcePath, resultPath), built) ->
           Types.gop_scores proof <> [] /\
           (Runtime.submit_verifier_proof w proof <> Ok true ->
            VerifierService.verifyTask w task s
            = (Ok None,
               Runtime.append built [Runtime.EvSubmitVerifierProof proof])) /\
           (forall delivered sent e,
               Runtime.submit_verifier_proof w proof = Ok true ->
               CommitteeClient.sendProofToCommittee
                 w proof
                 (Runtime.append built [Runtime.EvSubmitVerifierProof proof])
                 = (Ok delivered, sent) ->
               Runtime.removeGopFiles
                 w (Runtime.trace
                      (Runtime.append sent
                                      [Runtime.EvCleanupFile sourcePath;
                                       Runtime.EvCleanupFile resultPath]))
                 = Throw e ->
               VerifierService.verifyTask w task s
               = (Ok None,
                  Runtime.append sent [Runtime.EvCleanupFile sourcePath;
                                       Runtime.EvCleanupFile resultPath;
                                       Runtime.EvCleanupAllGops]))).
Proof.
  intros w task s. split; [|split; [|split; [|split]]].
  - intros. apply scoreLoop_skips_missing.
  - intros sp rp ss. apply verifyTask_no_score.
  - intros proof s' Hrun.
    destruct (verifyTask_success w task s proof s' Hrun)
      as (sp & rp & built & Hbuild & _).
    destruct (verifyTask_build_success w task s proof sp rp built Hbuild)
      as (gopScores & ss & Hscore & Hne & Hgops & _).
    rewrite Hgops. split; [exact Hne|].
    exists sp, rp, ss. exact Hscore.
  - intros gopScores sp rp ss e. apply verifyTask_probe_fails.
  - intros proof sp rp built Hbuild.
    destruct (verifyTask_build_success w task s proof sp rp built Hbuild)
      as (gopScores & ss & _ & Hne & Hgops & _).
    split; [rewrite Hgops; exact Hne|]. split.
    + exact (verifyTask_ledger_rejects w task s proof sp rp built Hbuild).
    + intros delivered sent e.
      exact (verifyTask_removal_fails w task s proof sp rp built
                                      delivered sent e Hbuild).
Qed.

Lemma verifyTask_skips_and_needs_a_score_witness :
  (exists gopScores sourcePath resultPath scored_state,
      VerifierService.verifyTask_score Scenario.probeFailsWorld
                                       Scenario.e2eTask Scenario.idle
        = (Ok (gopScores, sourcePath, resultPath), scored_state) /\
      length gopScores = 3%nat /\
      VerifierService.verifyTask Scenario.probeFailsWorld Scenario.e2eTask
                                 Scenario.idle
      = (Ok None, Runtime.append scored_state [Runtime.EvProbe resultPath]))
  /\ (exists proof sourcePath resultPath built delivered sent,
         VerifierService.verifyTask_build Scenario.removalFailsWorld
                                          Scenario.e2eTask Scenario.idle
           = (Ok (proof, sourcePath, resultPath), built) /\
         length (Types.gop_scores proof) = 3%nat /\
         CommitteeClient.sendProofToCommittee
           Scenario.removalFailsWorld proof
           (Runtime.append built [Runtime.EvSubmitVerifierProof proof])
           = (Ok delivered, sent) /\
         VerifierService.verifyTask Scenario.removalFailsWorld
                                    Scenario.e2eTask Scenario.idle
         = (Ok None,
            Runtime.append sent [Runtime.EvCleanupFile sourcePath;
                                 Runtime.EvCleanupFile resultPath;
                                 Runtime.EvCleanupAllGops])).
Proof.
  split.
  - do 4 eexists. split; [vm_compute; reflexivity|].
    split; [reflexivity|].
    eapply (proj1 (proj2 (proj2 (proj2
              (verifyTask_skips_and_needs_a_score
                 Scenario.probeFailsWorld Scenario.e2eTask Scenario.idle))))).
    + vm_compute. reflexivity.
    + discriminate.
    + vm_compute. reflexivity.
  - do 6 eexists. split; [vm_compute; reflexivity|].
    split; [reflexivity|]. split; [vm_compute; reflexivity|].
    pose proof (proj2 (proj2 (proj2 (proj2
                  (verifyTask_skips_and_needs_a_score
                     Scenario.removalFailsWorld Scenario.e2eTask
                     Scenario.idle))))) as Hlater.
    edestruct Hlater as (_ & _ & Hremoval); [vm_compute; reflexivity|].
    eapply Hremoval.
    + vm_compute. reflexivity.
    + vm_compute. reflexivity.
    + vm_compute. reflexivity.
Defined.

(** C4, counterexample. In the end-to-end scenario with a ledger that
    rejects the proof, the scoring loop yields three scores and yet
    [verifyTask] returns [null]. *)
Lemma verifyTask_null_with_scores_counterexample :
  let w := Scenario.pipelineWorld Scenario.allSegments false in
  exists gopScores sourcePath resultPath scored_state s',
    VerifierService.verifyTask_score w Scenario.e2eTask Scenario.idle
      = (Ok (gopScores, sourcePath, resultPath), scored_state) /\
    length gopScores = 3%nat /\
    VerifierService.verifyTask w Scenario.e2eTask Scenario.idle = (Ok None, s').
Proof.
  cbv zeta. do 5 eexists.
  split; [vm_compute; reflexivity|].
  split; [reflexivity|]. vm_compute. reflexivity.
Qed.

(** C3, on the failure path. The task of the end-to-end scenario, in a world
    where both assets download but no segment file comes out of the
    splitting: [verifyTask] returns [null] after two downloads and issues
    none of the cleanup actions of step 11. *)
Theorem verifyTask_failure_skips_cleanup :
  let w := Scenario.pipelineWorld [] true in
  let '(result, s') :=
    VerifierService.verifyTask w Scenario.e2eTask Scenario.idle in
  result = Ok None /\
  filter VerifierService.isDownload (Runtime.trace s')
    = [Runtime.EvDownload "QmSource" "t1-source.mp4";
       Runtime.EvDownload "QmResult" "t1-result.mp4"] /\
  filter VerifierService.isCleanup (Runtime.trace s') = [].
Proof.
  vm_compute. repeat split.
Qed.

(** On the success path the three cleanup actions close the run. *)
Lemma verifyTask_success_cleans_up w task s proof s' :
  VerifierService.verifyTask w task s = (Ok (Some proof), s') ->
  exists sourcePath resultPath events,
    Runtime.trace s'
    = (events ++ [Runtime.EvCleanupFile sourcePath;
                  Runtime.EvCleanupFile resultPath;
                  Runtime.EvCleanupAllGops])%list.
Proof.
  intros Hrun.
  destruct (verifyTask_success w task s proof s' Hrun)
    as (sp & rp & built & _ & Hdeliver).
  destruct (verifyTask_deliver_success w _ _ _ _ _ _ Hdeliver)
    as (_ & _ & delivered & sent & _ & ->).
  exists sp, rp, (Runtime.trace sent). reflexivity.
Qed.

(** *** No cleanup before the delivery *)

Section NoCleanup.

Import Types Runtime VerifierService.

Variable w : World.

Lemma noCleanup_ret {A} (a : A) : noCleanup (ret a).
Proof. intros s r s' [= _ <-]. reflexivity. Qed.

Lemma noCleanup_throw {A} e : noCleanup (@throw A e).
Proof. intros s r s' [= _ <-]. reflexivity. Qed.

Lemma noCleanup_get : noCleanup get.
Proof. intros s r s' [= _ <-]. reflexivity. Qed.

Lemma noCleanup_liftResult {A} (x : Result A) : noCleanup (liftResult x).
Proof. intros s r s' [= _ <-]. reflexivity. Qed.

Lemma noCleanup_emit e : isCleanup e = false -> noCleanup (emit e).
Proof.
  intros He s r s' [= _ <-]. unfold append. cbn [trace].
  rewrite filter_app. cbn [filter]. rewrite He. apply app_nil_r.
Qed.

Lemma noCleanup_bind {A B} (c : M A) (k : A -> M B) :
  noCleanup c -> (forall a, noCleanup (k a)) -> noCleanup (bind c k).
Proof.
  intros Hc Hk s r s'. unfold bind.
  destruct (c s) as [[a|e] s1] eqn:Hcs.
  - intros Hks. rewrite (Hk a _ _ _ Hks). exact (Hc _ _ _ Hcs).
  - intros [= _ <-]. exact (Hc _ _ _ Hcs).
Qed.

Lemma noCleanup_scoreLoop sourceGopMap resultGopMap selected_gops :
  forall gopScores,
    noCleanup (scoreLoop w sourceGopMap resultGopMap selected_gops gopScores).
Proof.
  induction selected_gops as [|g rest IH]; intros gopScores; cbn [scoreLoop].
  - apply noCleanup_ret.
  - destruct (present (JsMap.get (JsMap.str g) sourceGopMap)); [|apply IH].
    destruct (present (JsMap.get (JsMap.str g) resultGopMap)); [|apply IH].
    apply noCleanup_bind.
    + apply noCleanup_bind; [apply noCleanup_emit; reflexivity|].
      intros _. apply noCleanup_liftResult.
    + intros vmafScore. apply noCleanup_bind.
      * apply noCleanup_bind; [apply noCleanup_emit; reflexivity|].
        intros _. apply noCleanup_liftResult.
      * intros gopHash. apply IH.
Qed.

Lemma noCleanup_downloadFileM cid fileName :
  noCleanup (IpfsService.downloadFileM w cid fileName).
Proof.
  apply noCleanup_bind; [apply noCleanup_emit; reflexivity|].
  intros _. apply noCleanup_bind; [apply noCleanup_liftResult|].
  intros _. apply noCleanup_ret.
Qed.

Lemma noCleanup_splitVideoIntoGops videoPath timestamps :
  noCleanup (splitVideoIntoGops w videoPath timestamps).
Proof.
  apply noCleanup_bind; [apply noCleanup_emit; reflexivity|].
  intros _. apply noCleanup_liftResult.
Qed.

Lemma noCleanup_verifyTask_score task : noCleanup (verifyTask_score w task).
Proof.
  unfold verifyTask_score.
  destruct (if String.eqb (source_ipfs task) "" then None else result_ipfs task)
    as [resultIpfs|]; [|apply noCleanup_throw].
  destruct (selected_gops task) as [selected|]; [|apply noCleanup_throw].
  destruct (String.eqb resultIpfs ""); [apply noCleanup_throw|].
  destruct (length selected =? 0)%nat; [apply noCleanup_throw|].
  apply noCleanup_bind.
  - apply noCleanup_bind; [apply noCleanup_downloadFileM|].
    intros sourcePath.
    apply noCleanup_bind; [apply noCleanup_downloadFileM|].
    intros resultPath. apply noCleanup_ret.
  - intros [sourcePath resultPath].
    apply noCleanup_bind; [apply noCleanup_splitVideoIntoGops|].
    intros sourceGopMap.
    apply noCleanup_bind; [apply noCleanup_splitVideoIntoGops|].
    intros resultGopMap.
    apply noCleanup_bind; [apply noCleanup_scoreLoop|].
    intros gopScores. apply noCleanup_ret.
Qed.

Lemma noCleanup_verifyTask_build task : noCleanup (verifyTask_build w task).
Proof.
  unfold verifyTask_build.
  apply noCleanup_bind; [apply noCleanup_verifyTask_score|].
  intros [[gopScores sourcePath] resultPath].
  destruct (length gopScores =? 0)%nat; [apply noCleanup_throw|].
  apply noCleanup_bind.
  - apply noCleanup_bind; [apply noCleanup_emit; reflexivity|].
    intros _. apply noCleanup_liftResult.
  - intros videoSpecs. apply noCleanup_bind; [apply noCleanup_get|].
    intros s. apply noCleanup_ret.
Qed.

(** Whenever a step before the ledger submission throws, be it the input
    check, a download, the splitting, a hash, the empty-score check or the
    probe, [verifyTask] returns [null] and has issued no cleanup action. *)
Lemma verifyTask_failure_no_cleanup task s e s' :
  verifyTask_build w task s = (Throw e, s') ->
  verifyTask w task s = (Ok None, s') /\
  filter isCleanup (trace s') = filter isCleanup (trace s).
Proof.
  intros Hbuild. split.
  - unfold verifyTask, tryCatch, bind at 1. rewrite Hbuild. reflexivity.
  - exact (noCleanup_verifyTask_build task _ _ _ Hbuild).
Qed.

(** The same holds when the ledger does not accept the proof. *)
Lemma verifyTask_rejected_no_cleanup task s proof sourcePath resultPath built :
  verifyTask_build w task s = (Ok (proof, sourcePath, resultPath), built) ->
  submit_verifier_proof w proof <> Ok true ->
  exists s',
    verifyTask w task s = (Ok None, s') /\
    filter isCleanup (trace s') = filter isCleanup (trace s).
Proof.
  intros Hbuild Hledger.
  exists (append built [EvSubmitVerifierProof proof]). split.
  - unfold verifyTask, tryCatch, bind at 1. rewrite Hbuild.
    unfold verifyTask_deliver, bind at 1.
    unfold NearConnection.submitVerifierProof, bind at 1, emit at 1.
    destruct (submit_verifier_proof w proof) as [[|]|e];
      [congruence|reflexivity|reflexivity].
  - unfold append. cbn [trace]. rewrite filter_app. cbn [filter isCleanup].
    rewrite app_nil_r.
    exact (noCleanup_verifyTask_build task _ _ _ Hbuild).
Qed.

End NoCleanup.

(** C10. When a non-supplemental task is taken from the queue and
    [verifyTask] returns a proof for it, the committee delivery runs twice
    with that proof: once inside [verifyTask], right after the ledger
    submission and before the cleanup, and once more in [processNextTask]
    on the state [verifyTask] left; each run reaches every member of the
    committee list in force. *)
Theorem processNextTask_delivers_twice :
  forall (w : Runtime.World) (s0 : Runtime.State)
         (taskWithRole : Types.TaskDataWithRole) (s1 : Runtime.State)
         (proof : Types.VerifierQosProof) (s2 : Runtime.State),
    VerifierService.processNextTask_begin s0 = Some (taskWithRole, s1) ->
    Types.is_supplemental_verifier taskWithRole = false ->
    VerifierService.verifyTask w (Types.task taskWithRole) s1
      = (Ok (Some proof), s2) ->
    exists sourcePath resultPath built delivered1 sent delivered2 s3,
      VerifierService.verifyTask_build w (Types.task taskWithRole) s1
        = (Ok (proof, sourcePath, resultPath), built) /\
      CommitteeClient.sendProofToCommittee
        w proof (Runtime.append built [Runtime.EvSubmitVerifierProof proof])
        = (Ok delivered1, sent) /\
      s2 = Runtime.append sent [Runtime.EvCleanupFile sourcePath;
                                Runtime.EvCleanupFile resultPath;
                                Runtime.EvCleanupAllGops] /\
      CommitteeClient.sendProofToCommittee w proof s2 = (Ok delivered2, s3) /\
      VerifierService.processNextTask w s0
        = VerifierService.processNextTask_finally s3 /\
      CommitteeClient.fullFanOut
        w (Runtime.append built [Runtime.EvSubmitVerifierProof proof]) sent /\
      CommitteeClient.fullFanOut w s2 s3.
Proof.
  intros w s0 taskWithRole s1 proof s2 Hbegin Hrole Hverify.
  destruct (verifyTask_success w _ _ _ _ Hverify)
    as (sp & rp & built & Hbuild & Hdeliver).
  destruct (verifyTask_deliver_success w _ _ _ _ _ _ Hdeliver)
    as (_ & _ & delivered1 & sent & Hsend1 & Hs2).
  destruct (sendProofToCommittee_total w proof s2)
    as (delivered2 & s3 & Hsend2 & Hfull2).
  exists sp, rp, built, delivered1, sent, delivered2, s3.
  split; [exact Hbuild|]. split; [exact Hsend1|]. split; [exact Hs2|].
  split; [exact Hsend2|]. split.
  - unfold VerifierService.processNextTask. rewrite Hbegin.
    unfold Runtime.tryCatch, VerifierService.processNextTask_try,
      Runtime.bind at 1.
    rewrite Hverify, Hrole. unfold Runtime.bind. rewrite Hsend2. reflexivity.
  - split; [|exact Hfull2].
    destruct (sendProofToCommittee_total
                w proof
                (Runtime.append built [Runtime.EvSubmitVerifierProof proof]))
      as (d & sent' & Hsend & Hfull).
    rewrite Hsend1 in Hsend. injection Hsend as _ <-. exact Hfull.
Qed.

Lemma processNextTask_delivers_twice_witness :
  let s0 := Runtime.mkState [] 0 false
                            [Types.mkTaskDataWithRole Scenario.e2eTask false]
                            [] in
  exists proof sourcePath resultPath built delivered1 sent delivered2 s2 s3,
    VerifierService.verifyTask_build Scenario.e2eWorld Scenario.e2eTask
      (Runtime.mkState [] 0 true [] [])
      = (Ok (proof, sourcePath, resultPath), built) /\
    CommitteeClient.sendProofToCommittee
      Scenario.e2eWorld proof
      (Runtime.append built [Runtime.EvSubmitVerifierProof proof])
      = (Ok delivered1, sent) /\
    s2 = Runtime.append sent [Runtime.EvCleanupFile sourcePath;
                              Runtime.EvCleanupFile resultPath;
                              Runtime.EvCleanupAllGops] /\
    CommitteeClient.sendProofToCommittee Scenario.e2eWorld proof s2
      = (Ok delivered2, s3) /\
    VerifierService.processNextTask Scenario.e2eWorld s0
      = VerifierService.processNextTask_finally s3 /\
    CommitteeClient.fullFanOut
      Scenario.e2eWorld
      (Runtime.append built [Runtime.EvSubmitVerifierProof proof]) sent /\
    CommitteeClient.fullFanOut Scenario.e2eWorld s2 s3.
Proof.
  cbv zeta.
  destruct (verifyTask_run Scenario.e2eWorld Scenario.e2eTask _
                           (Runtime.mkState [] 0 true [] [])
                           e2e_extractedAndScored e2e_deliverable)
    as (proof & s2 & Hverify & _).
  destruct (processNextTask_delivers_twice
              Scenario.e2eWorld
              (Runtime.mkState [] 0 false
                               [Types.mkTaskDataWithRole Scenario.e2eTask false]
                               [])
              (Types.mkTaskDataWithRole Scenario.e2eTask false)
              (Runtime.mkState [] 0 true [] [])
              proof s2 eq_refl eq_refl Hverify)
    as (sp & rp & built & d1 & sent & d2 & s3 & H).
  exists proof, sp, rp, built, d1, sent, d2, s2, s3. exact H.
Defined.

(** ** The dispatcher: single flight *)

Section SingleFlight.

Import Types Runtime VerifierService Dispatcher.

Lemma callProcessNextTask_preserves c :
  flagCountsRuns c -> flagCountsRuns (callProcessNextTask c).
Proof.
  unfold flagCountsRuns, callProcessNextTask, processNextTask_begin.
  intros Hinv.
  destruct (isProcessingTask (heap c)) eqn:Hbusy; cbn [orb].
  - rewrite Hbusy. exact Hinv.
  - destruct (length (taskQueue (heap c)) =? 0)%nat.
    + rewrite Hbusy. exact Hinv.
    + destruct (taskQueue (heap c)) as [|t rest].
      * rewrite Hbusy. exact Hinv.
      * cbn. rewrite Hinv. reflexivity.
Qed.

Lemma callProcessNextTask_busy c :
  isProcessingTask (heap c) = true -> callProcessNextTask c = c.
Proof.
  intros Hbusy. unfold callProcessNextTask, processNextTask_begin.
  rewrite Hbusy. reflexivity.
Qed.

Lemma callPollTasks_preserves c :
  flagCountsRuns c -> flagCountsRuns (callPollTasks c).
Proof.
  unfold flagCountsRuns, callPollTasks. intros Hinv.
  destruct (isProcessingTask (heap c)) eqn:Hbusy.
  - rewrite Hbusy. exact Hinv.
  - cbn. rewrite Hbusy. exact Hinv.
Qed.

Lemma step_preserves l c c' :
  flagCountsRuns c -> step l c = Some c' -> flagCountsRuns c'.
Proof.
  intros Hinv. destruct l; cbn [step].
  - intros [= <-]. apply callPollTasks_preserves. exact Hinv.
  - destruct (negb (isProcessingTask (heap c))); intros [= <-];
      [apply callPollTasks_preserves|]; exact Hinv.
  - destruct (0 <? pendingPolls c)%nat; [|discriminate]. intros [= <-].
    unfold resumePollTasks.
    match goal with
    | |- flagCountsRuns (if ?b then callProcessNextTask ?c0 else _) =>
        assert (Hc0 : flagCountsRuns c0) by exact Hinv;
        destruct b; [apply callProcessNextTask_preserves|]; exact Hc0
    end.
  - destruct (0 <? running c)%nat; [|discriminate]. intros [= <-].
    exact Hinv.
  - destruct (0 <? running c)%nat eqn:Hrun; [|discriminate]. intros [= <-].
    apply Nat.ltb_lt in Hrun.
    unfold flagCountsRuns in *. unfold completeRun, processNextTask_finally.
    destruct (isProcessingTask (heap c)); [|lia].
    cbn. rewrite Hinv. reflexivity.
  - destruct (0 <? pendingTimeouts c)%nat; [|discriminate]. intros [= <-].
    apply callProcessNextTask_preserves. exact Hinv.
Qed.

Lemma reachable_flagCountsRuns c : reachable c -> flagCountsRuns c.
Proof.
  induction 1 as [c (Hidle & _ & Hrun & _)|c l c' _ IH Hstep].
  - unfold flagCountsRuns. rewrite Hidle, Hrun. reflexivity.
  - eapply step_preserves; eassumption.
Qed.

End SingleFlight.

(** C6. In every reachable configuration of the dispatcher at most one
    pipeline run is in flight. While the busy flag is set, a call of
    [pollTasks] and a tick of the interval timer leave the configuration as
    it is (nothing is started and nothing is put aside for later), a call of
    [processNextTask] returns at once, and neither a poll that resumes with
    fetched tasks nor a deferred [processNextTask] starts a second run. *)
Theorem single_flight :
  forall c : Dispatcher.Config,
    Dispatcher.reachable c ->
    (Dispatcher.running c <= 1)%nat
    /\ (Runtime.isProcessingTask (Dispatcher.heap c) = true ->
        Dispatcher.step Dispatcher.PollTasks c = Some c
        /\ Dispatcher.step Dispatcher.TimerTick c = Some c
        /\ Dispatcher.callProcessNextTask c = c
        /\ (forall tasksWithRole c',
               Dispatcher.step (Dispatcher.TasksFetched tasksWithRole) c
                 = Some c' ->
               Dispatcher.running c' = Dispatcher.running c)
        /\ (forall c',
               Dispatcher.step Dispatcher.TimeoutFires c = Some c' ->
               Dispatcher.running c' = Dispatcher.running c))
    /\ (forall l c', Dispatcher.step l c = Some c' ->
                     (Dispatcher.running c' <= 1)%nat).
Proof.
  intros c Hreach.
  pose proof (reachable_flagCountsRuns c Hreach) as Hinv.
  assert (Hle : forall c0, Dispatcher.flagCountsRuns c0 ->
                           (Dispatcher.running c0 <= 1)%nat).
  { intros c0 H0. unfold Dispatcher.flagCountsRuns in H0. rewrite H0.
    destruct (Runtime.isProcessingTask (Dispatcher.heap c0)); lia. }
  split; [apply Hle; exact Hinv|]. split.
  - intros Hbusy. split; [|split; [|split; [|split]]].
    + cbn [Dispatcher.step]. unfold Dispatcher.callPollTasks.
      rewrite Hbusy. reflexivity.
    + cbn [Dispatcher.step]. rewrite Hbusy. reflexivity.
    + apply callProcessNextTask_busy. exact Hbusy.
    + intros tasksWithRole c'. cbn [Dispatcher.step].
      destruct (0 <? Dispatcher.pendingPolls c)%nat; [|discriminate].
      intros [= <-]. unfold Dispatcher.resumePollTasks.
      cbn [Runtime.isProcessingTask Runtime.taskQueue]. rewrite Hbusy.
      rewrite andb_false_r. reflexivity.
    + intros c'. cbn [Dispatcher.step].
      destruct (0 <? Dispatcher.pendingTimeouts c)%nat; [|discriminate].
      intros [= <-].
      rewrite callProcessNextTask_busy; [reflexivity|exact Hbusy].
  - intros l c' Hstep. apply Hle. eapply step_preserves; eassumption.
Qed.

Lemma busyConfig_reachable : Dispatcher.reachable Scenario.busyConfig.
Proof.
  apply (Dispatcher.reachable_step
           (Dispatcher.mkConfig Scenario.idle 0 1 0)
           (Dispatcher.TasksFetched
              [Types.mkTaskDataWithRole Scenario.e2eTask false])).
  - apply (Dispatcher.reachable_step Scenario.idleConfig Dispatcher.PollTasks).
    + apply Dispatcher.reachable_init. repeat split.
    + reflexivity.
  - reflexivity.
Defined.

Lemma single_flight_witness :
  Dispatcher.reachable Scenario.busyConfig
  /\ (Dispatcher.running Scenario.busyConfig <= 1)%nat
  /\ Dispatcher.step Dispatcher.PollTasks Scenario.busyConfig
     = Some Scenario.busyConfig.
Proof.
  split; [exact busyConfig_reachable|].
  destruct (single_flight Scenario.busyConfig busyConfig_reachable)
    as (Hle & Hbusy & _).
  split; [exact Hle|].
  exact (proj1 (Hbusy eq_refl)).
Defined.

(** * Further properties of the code *)

(** ** The queue of [pollTasks] *)

Section Queue.

Import Types Runtime VerifierService.

Lemma queued_In queue taskWithRole :
  existsb (fun t => String.eqb (task_id (task t))
                               (task_id (task taskWithRole))) queue = true
  <-> In (task_id (task taskWithRole)) (queueIds queue).
Proof.
  unfold queueIds. rewrite existsb_exists, in_map_iff. split.
  - intros (t & Hin & Heq). apply String.eqb_eq in Heq. exists t. auto.
  - intros (t & Heq & Hin). exists t. split; [exact Hin|].
    apply String.eqb_eq. exact Heq.
Qed.

Lemma enqueue_cons queue taskWithRole rest :
  enqueue queue (taskWithRole :: rest)
  = enqueue (if existsb (fun t => String.eqb (task_id (task t))
                                             (task_id (task taskWithRole)))
                        queue
             then queue else (queue ++ [taskWithRole])%list) rest.
Proof. reflexivity. Qed.

(** The queue only grows at its end, by fetched tasks. *)
Lemma enqueue_appends tasksWithRole : forall queue,
  exists added,
    enqueue queue tasksWithRole = (queue ++ added)%list /\
    forall t, In t added -> In t tasksWithRole.
Proof.
  induction tasksWithRole as [|t rest IH]; intros queue.
  - exists []. split; [symmetry; apply app_nil_r|intros t []].
  - rewrite enqueue_cons. destruct (existsb _ queue).
    + destruct (IH queue) as (added & -> & Hadded).
      exists added. split; [reflexivity|]. intros x Hx. right. auto.
    + destruct (IH (queue ++ [t])%list) as (added & -> & Hadded).
      exists (t :: added). split; [rewrite <- app_assoc; reflexivity|].
      intros x [<-|Hx]; [left; reflexivity|right; auto].
Qed.

Lemma enqueue_keeps_ids tasksWithRole queue id :
  In id (queueIds queue) -> In id (queueIds (enqueue queue tasksWithRole)).
Proof.
  intros Hin.
  destruct (enqueue_appends tasksWithRole queue) as (added & -> & _).
  unfold queueIds in *. rewrite map_app. apply in_or_app. left. exact Hin.
Qed.

Lemma enqueue_covers tasksWithRole : forall queue t,
  In t tasksWithRole ->
  In (task_id (task t)) (queueIds (enqueue queue tasksWithRole)).
Proof.
  induction tasksWithRole as [|t0 rest IH]; intros queue t; [intros []|].
  rewrite enqueue_cons. intros [<-|Hin]; [|apply IH; exact Hin].
  apply enqueue_keeps_ids.
  destruct (existsb _ queue) eqn:Hq.
  - apply queued_In. exact Hq.
  - unfold queueIds. rewrite map_app. apply in_or_app. right. left. reflexivity.
Qed.

Lemma ids_snoc (ids : list string) id :
  NoDup ids -> ~ In id ids -> NoDup (ids ++ [id]).
Proof.
  induction ids as [|x ids IH]; cbn [app]; intros Hnd Hfresh.
  - constructor; [intros []|constructor].
  - apply NoDup_cons_iff in Hnd. destruct Hnd as [Hx Hnd].
    apply NoDup_cons_iff. split.
    + intros Hin. apply in_app_or in Hin. destruct Hin as [Hin|[->|[]]].
      * contradiction.
      * apply Hfresh. left. reflexivity.
    + apply IH; [exact Hnd|]. intros Hin. apply Hfresh. right. exact Hin.
Qed.

Lemma enqueue_unique tasksWithRole : forall queue,
  NoDup (queueIds queue) -> NoDup (queueIds (enqueue queue tasksWithRole)).
Proof.
  induction tasksWithRole as [|t rest IH]; intros queue Hnd; [exact Hnd|].
  rewrite enqueue_cons. apply IH.
  destruct (existsb _ queue) eqn:Hq; [exact Hnd|].
  unfold queueIds. rewrite map_app. cbn [map].
  apply ids_snoc; [exact Hnd|].
  intros Hin. apply queued_In in Hin. congruence.
Qed.

Lemma enqueue_known tasksWithRole : forall queue,
  (forall t, In t tasksWithRole -> In (task_id (task t)) (queueIds queue)) ->
  enqueue queue tasksWithRole = queue.
Proof.
  induction tasksWithRole as [|t rest IH]; intros queue Hknown; [reflexivity|].
  rewrite enqueue_cons.
  assert (Hq : existsb (fun t' => String.eqb (task_id (task t'))
                                             (task_id (task t))) queue = true)
    by (apply queued_In, Hknown; left; reflexivity).
  rewrite Hq. apply IH. intros x Hx. apply Hknown. right. exact Hx.
Qed.

End Queue.

(** X1. [pollTasks] merges fetched tasks into the queue without disturbing
    it: the old queue stays in front in its order, what is added comes from
    the fetched list, the id of every fetched task is in the queue
    afterwards, ids that were unique stay unique, and merging the same
    list a second time changes nothing. *)
Theorem enqueue_deduplicates :
  forall queue tasksWithRole : list Types.TaskDataWithRole,
    (exists added,
        VerifierService.enqueue queue tasksWithRole = (queue ++ added)%list /\
        forall t, In t added -> In t tasksWithRole)
    /\ (forall t, In t tasksWithRole ->
                  In (Types.task_id (Types.task t))
                     (VerifierService.queueIds
                        (VerifierService.enqueue queue tasksWithRole)))
    /\ (NoDup (VerifierService.queueIds queue) ->
        NoDup (VerifierService.queueIds
                 (VerifierService.enqueue queue tasksWithRole)))
    /\ VerifierService.enqueue (VerifierService.enqueue queue tasksWithRole)
                               tasksWithRole
       = VerifierService.enqueue queue tasksWithRole.
Proof.
  intros queue tasksWithRole.
  split; [apply enqueue_appends|].
  split; [intros t; apply enqueue_covers|].
  split; [apply enqueue_unique|].
  apply enqueue_known. intros t. apply enqueue_covers.
Qed.

(** ** Invariants of the dispatcher *)

Section DispatcherInvariants.

Import Types Runtime VerifierService Dispatcher.

Lemma callProcessNextTask_queue c :
  exists popped,
    (popped ++ taskQueue (heap (callProcessNextTask c)))%list
    = taskQueue (heap c).
Proof.
  unfold callProcessNextTask, processNextTask_begin.
  destruct (isProcessingTask (heap c) || _)%bool; [exists []; reflexivity|].
  destruct (taskQueue (heap c)) as [|t rest] eqn:Hqueue.
  - exists []. rewrite Hqueue. reflexivity.
  - exists [t]. reflexivity.
Qed.

Lemma callProcessNextTask_unique c :
  NoDup (queueIds (taskQueue (heap c))) ->
  NoDup (queueIds (taskQueue (heap (callProcessNextTask c)))).
Proof.
  destruct (callProcessNextTask_queue c) as (popped & <-).
  unfold queueIds. rewrite map_app. apply NoDup_app_remove_l.
Qed.

Lemma step_unique l c c' :
  NoDup (queueIds (taskQueue (heap c))) ->
  step l c = Some c' ->
  NoDup (queueIds (taskQueue (heap c'))).
Proof.
  intros Hnd. destruct l; cbn [step].
  - intros [= <-]. unfold callPollTasks.
    destruct (isProcessingTask (heap c)); exact Hnd.
  - unfold callPollTasks.
    destruct (isProcessingTask (heap c)); cbn [negb]; intros [= <-]; exact Hnd.
  - destruct (0 <? pendingPolls c)%nat; [|discriminate]. intros [= <-].
    unfold resumePollTasks.
    match goal with
    | |- context [if ?b then callProcessNextTask ?c0 else _] =>
        assert (Hc0 : NoDup (queueIds (taskQueue (heap c0))))
          by (apply enqueue_unique; exact Hnd);
        destruct b; [apply callProcessNextTask_unique|]; exact Hc0
    end.
  - destruct (0 <? running c)%nat; [|discriminate]. intros [= <-]. exact Hnd.
  - destruct (0 <? running c)%nat; [|discriminate]. intros [= <-]. exact Hnd.
  - destruct (0 <? pendingTimeouts c)%nat; [|discriminate]. intros [= <-].
    apply callProcessNextTask_unique. exact Hnd.
Qed.

Lemma callProcessNextTask_neverStalls c :
  neverStalls (callProcessNextTask c).
Proof.
  unfold neverStalls, callProcessNextTask, processNextTask_begin.
  destruct (isProcessingTask (heap c)) eqn:Hbusy; cbn [orb].
  - rewrite Hbusy. discriminate.
  - destruct (taskQueue (heap c)) as [|t rest] eqn:Hqueue; cbn.
    + rewrite Hqueue. congruence.
    + discriminate.
Qed.

Lemma step_neverStalls l c c' :
  neverStalls c -> step l c = Some c' -> neverStalls c'.
Proof.
  intros Hinv. destruct l; cbn [step].
  - intros [= <-]. unfold callPollTasks.
    destruct (isProcessingTask (heap c)); exact Hinv.
  - unfold callPollTasks.
    destruct (isProcessingTask (heap c)); cbn [negb]; intros [= <-];
      exact Hinv.
  - destruct (0 <? pendingPolls c)%nat; [|discriminate]. intros [= <-].
    unfold resumePollTasks. cbn [isProcessingTask taskQueue].
    destruct (isProcessingTask (heap c)) eqn:Hbusy.
    + cbn [negb]. rewrite andb_false_r. unfold neverStalls. cbn.
      discriminate.
    + cbn [negb]. rewrite andb_true_r.
      destruct (0 <? length (enqueue (taskQueue (heap c)) tasksWithRole))%nat
        eqn:Hlen; [apply callProcessNextTask_neverStalls|].
      unfold neverStalls. cbn. intros _ Hne. exfalso. apply Hne.
      apply Nat.ltb_ge in Hlen.
      destruct (enqueue (taskQueue (heap c)) tasksWithRole);
        [reflexivity|cbn in Hlen; lia].
  - destruct (0 <? running c)%nat; [|discriminate]. intros [= <-].
    exact Hinv.
  - destruct (0 <? running c)%nat; [|discriminate]. intros [= <-].
    unfold neverStalls, completeRun, processNextTask_finally. cbn.
    destruct (taskQueue (heap c)); cbn; [congruence|lia].
  - destruct (0 <? pendingTimeouts c)%nat; [|discriminate]. intros [= <-].
    apply callProcessNextTask_neverStalls.
Qed.

End DispatcherInvariants.

Lemma waitingConfig_reachable : Dispatcher.reachable Scenario.waitingConfig.
Proof.
  apply (Dispatcher.reachable_step
           (Dispatcher.mkConfig
              (Runtime.mkState
                 [] 0 true
                 [Types.mkTaskDataWithRole Scenario.secondTask false] [])
              1 0 0)
           Dispatcher.RunCompleted); [|reflexivity].
  apply (Dispatcher.reachable_step
           (Dispatcher.mkConfig Scenario.idle 0 1 0)
           (Dispatcher.TasksFetched
              [Types.mkTaskDataWithRole Scenario.e2eTask false;
               Types.mkTaskDataWithRole Scenario.secondTask false]));
    [|reflexivity].
  apply (Dispatcher.reachable_step Scenario.idleConfig Dispatcher.PollTasks);
    [|reflexivity].
  apply Dispatcher.reachable_init. repeat split.
Defined.

(** X2. In every reachable configuration of the dispatcher the queue holds
    no two tasks with the same id. *)
Theorem queue_ids_unique :
  forall c : Dispatcher.Config,
    Dispatcher.reachable c ->
    NoDup (VerifierService.queueIds
             (Runtime.taskQueue (Dispatcher.heap c))).
Proof.
  induction 1 as [c (_ & Hqueue & _)|c l c' _ IH Hstep].
  - rewrite Hqueue. constructor.
  - eapply step_unique; eassumption.
Qed.

Lemma queue_ids_unique_witness :
  NoDup (VerifierService.queueIds
           (Runtime.taskQueue (Dispatcher.heap Scenario.waitingConfig))).
Proof.
  apply (queue_ids_unique Scenario.waitingConfig).
  exact waitingConfig_reachable.
Defined.

(** X3. The dispatcher never stalls with work waiting: in every reachable
    configuration in which no task is being processed and the queue is not
    empty, a deferred call of [processNextTask] is pending. *)
Theorem idle_queue_has_continuation :
  forall c : Dispatcher.Config,
    Dispatcher.reachable c ->
    Runtime.isProcessingTask (Dispatcher.heap c) = false ->
    Runtime.taskQueue (Dispatcher.heap c) <> [] ->
    (0 < Dispatcher.pendingTimeouts c)%nat.
Proof.
  intros c Hreach.
  change (Dispatcher.neverStalls c).
  induction Hreach as [c (_ & Hqueue & _)|c l c' _ IH Hstep].
  - intros _ Hne. congruence.
  - eapply step_neverStalls; eassumption.
Qed.

Lemma idle_queue_has_continuation_witness :
  (0 < Dispatcher.pendingTimeouts Scenario.waitingConfig)%nat.
Proof.
  apply (idle_queue_has_continuation Scenario.waitingConfig).
  - exact waitingConfig_reachable.
  - reflexivity.
  - discriminate.
Defined.

(** ** What a computation leaves alone *)

Section Preserves.

Import Types Runtime.

Variable R : State -> State -> Prop.
Hypothesis R_refl : forall s, R s s.
Hypothesis R_trans : forall s1 s2 s3, R s1 s2 -> R s2 s3 -> R s1 s3.

Lemma preserves_ret {A} (a : A) : preserves R (ret a).
Proof. intros s r s' [= _ <-]. apply R_refl. Qed.

Lemma preserves_throw {A} e : preserves R (@throw A e).
Proof. intros s r s' [= _ <-]. apply R_refl. Qed.

Lemma preserves_get : preserves R get.
Proof. intros s r s' [= _ <-]. apply R_refl. Qed.

Lemma preserves_liftResult {A} (x : Result A) : preserves R (liftResult x).
Proof. intros s r s' [= _ <-]. apply R_refl. Qed.

Lemma preserves_emit e :
  (forall s, R s (append s [e])) -> preserves R (emit e).
Proof. intros He s r s' [= _ <-]. apply He. Qed.

Lemma preserves_bind {A B} (c : M A) (k : A -> M B) :
  preserves R c -> (forall a, preserves R (k a)) -> preserves R (bind c k).
Proof.
  intros Hc Hk s r s'. unfold bind.
  destruct (c s) as [[a|e] s1] eqn:Hcs.
  - intros Hks. eapply R_trans; [exact (Hc _ _ _ Hcs)|exact (Hk a _ _ _ Hks)].
  - intros [= _ <-]. exact (Hc _ _ _ Hcs).
Qed.

Lemma preserves_tryCatch {A} (c : M A) (handler : string -> M A) :
  preserves R c -> (forall e, preserves R (handler e)) ->
  preserves R (tryCatch c handler).
Proof.
  intros Hc Hh s r s'. unfold tryCatch.
  destruct (c s) as [[a|e] s1] eqn:Hcs.
  - intros [= _ <-]. exact (Hc _ _ _ Hcs).
  - intros Hhs. eapply R_trans; [exact (Hc _ _ _ Hcs)|exact (Hh e _ _ _ Hhs)].
Qed.

Lemma preserves_withRetryLoop {A} (operation : M A) :
  preserves R operation ->
  (forall s delay, R s (append s [EvSleep delay])) ->
  forall remaining delay,
    preserves R (CommitteeClient.withRetryLoop operation remaining delay).
Proof.
  intros Hop Hsleep.
  induction remaining as [|remaining IH]; intros delay s r s';
    cbn [CommitteeClient.withRetryLoop];
    destruct (operation s) as [[a|e] s1] eqn:Hops.
  - intros [= _ <-]. exact (Hop _ _ _ Hops).
  - intros [= _ <-]. exact (Hop _ _ _ Hops).
  - intros [= _ <-]. exact (Hop _ _ _ Hops).
  - unfold bind, emit. intros Hloop.
    eapply R_trans; [exact (Hop _ _ _ Hops)|].
    eapply R_trans; [apply (Hsleep s1 delay)|].
    exact (IH _ _ _ _ Hloop).
Qed.

Lemma preserves_allSettled {A} (promises : list (M A)) :
  Forall (preserves R) promises ->
  preserves R (CommitteeClient.allSettled promises).
Proof.
  induction 1 as [|p rest Hp _ IH]; cbn [CommitteeClient.allSettled].
  - apply preserves_ret.
  - intros s r s'. destruct (p s) as [x s1] eqn:Hps.
    intros Hrest. eapply R_trans; [exact (Hp _ _ _ Hps)|].
    revert Hrest. apply preserves_bind; [exact IH|].
    intros results. apply preserves_ret.
Qed.

(** The steps of [verifyTask] before the delivery issue actions that are
    not HTTP requests; they preserve whatever such actions preserve. *)
Section BeforeDelivery.

Import VerifierService.

Variable w : World.

Hypothesis R_quiet : forall s e, eventUrl e = None -> R s (append s [e]).

Lemma preserves_quiet e : eventUrl e = None -> preserves R (emit e).
Proof. intros He. apply preserves_emit. intros s. apply R_quiet, He. Qed.

Lemma preserves_scoreLoop sourceGopMap resultGopMap selected_gops :
  forall gopScores,
    preserves R (scoreLoop w sourceGopMap resultGopMap selected_gops
                           gopScores).
Proof.
  induction selected_gops as [|g rest IH]; intros gopScores; cbn [scoreLoop].
  - apply preserves_ret.
  - destruct (present (JsMap.get (JsMap.str g) sourceGopMap)); [|apply IH].
    destruct (present (JsMap.get (JsMap.str g) resultGopMap)); [|apply IH].
    apply preserves_bind.
    + apply preserves_bind; [apply preserves_quiet; reflexivity|].
      intros _. apply preserves_liftResult.
    + intros vmafScore. apply preserves_bind.
      * apply preserves_bind; [apply preserves_quiet; reflexivity|].
        intros _. apply preserves_liftResult.
      * intros gopHash. apply IH.
Qed.

Lemma preserves_downloadFileM cid fileName :
  preserves R (IpfsService.downloadFileM w cid fileName).
Proof.
  apply preserves_bind; [apply preserves_quiet; reflexivity|].
  intros _. apply preserves_bind; [apply preserves_liftResult|].
  intros _. apply preserves_ret.
Qed.

Lemma preserves_splitVideoIntoGops videoPath timestamps :
  preserves R (splitVideoIntoGops w videoPath timestamps).
Proof.
  apply preserves_bind; [apply preserves_quiet; reflexivity|].
  intros _. apply preserves_liftResult.
Qed.

Lemma preserves_verifyTask_score task : preserves R (verifyTask_score w task).
Proof.
  unfold verifyTask_score.
  destruct (if String.eqb (source_ipfs task) "" then None else result_ipfs task)
    as [resultIpfs|]; [|apply preserves_throw].
  destruct (selected_gops task) as [selected|]; [|apply preserves_throw].
  destruct (String.eqb resultIpfs ""); [apply preserves_throw|].
  destruct (length selected =? 0)%nat; [apply preserves_throw|].
  apply preserves_bind.
  - apply preserves_bind; [apply preserves_downloadFileM|].
    intros sourcePath.
    apply preserves_bind; [apply preserves_downloadFileM|].
    intros resultPath. apply preserves_ret.
  - intros [sourcePath resultPath].
    apply preserves_bind; [apply preserves_splitVideoIntoGops|].
    intros sourceGopMap.
    apply preserves_bind; [apply preserves_splitVideoIntoGops|].
    intros resultGopMap.
    apply preserves_bind; [apply preserves_scoreLoop|].
    intros gopScores. apply preserves_ret.
Qed.

Lemma preserves_verifyTask_build task : preserves R (verifyTask_build w task).
Proof.
  unfold verifyTask_build.
  apply preserves_bind; [apply preserves_verifyTask_score|].
  intros [[gopScores sourcePath] resultPath].
  destruct (length gopScores =? 0)%nat; [apply preserves_throw|].
  apply preserves_bind.
  - apply preserves_bind; [apply preserves_quiet; reflexivity|].
    intros _. apply preserves_liftResult.
  - intros videoSpecs. apply preserves_bind; [apply preserves_get|].
    intros s. apply preserves_ret.
Qed.

Lemma preserves_submitVerifierProof proof :
  preserves R (NearConnection.submitVerifierProof w proof).
Proof.
  unfold NearConnection.submitVerifierProof.
  apply preserves_bind; [apply preserves_quiet; reflexivity|].
  intros _. destruct (submit_verifier_proof w proof); apply preserves_ret.
Qed.

End BeforeDelivery.

End Preserves.

(** ** The pipeline leaves the dispatcher's fields alone *)

Section DispatchFrame.

Import Types Runtime CommitteeClient VerifierService.

Variable w : World.

Lemma sameDispatch_refl s : sameDispatch s s.
Proof. split; reflexivity. Qed.

Lemma sameDispatch_trans s1 s2 s3 :
  sameDispatch s1 s2 -> sameDispatch s2 s3 -> sameDispatch s1 s3.
Proof. intros [H1 H2] [H3 H4]. split; congruence. Qed.

Lemma sameDispatch_append s events : sameDispatch s (append s events).
Proof. split; reflexivity. Qed.

Ltac frame_step :=
  first
    [ apply (preserves_ret sameDispatch sameDispatch_refl)
    | apply (preserves_throw sameDispatch sameDispatch_refl)
    | apply (preserves_get sameDispatch sameDispatch_refl)
    | apply (preserves_liftResult sameDispatch sameDispatch_refl)
    | apply (preserves_emit sameDispatch);
      intros ?; apply sameDispatch_append
    | apply (preserves_bind sameDispatch sameDispatch_trans); [|intros ?]
    | apply (preserves_tryCatch sameDispatch sameDispatch_trans); [|intros ?] ].

Lemma keeps_updateCommitteeMembers :
  preserves sameDispatch (updateCommitteeMembers w).
Proof.
  unfold updateCommitteeMembers. frame_step; [frame_step|].
  destruct (_ && _)%bool; [frame_step|].
  intros s r s' [= _ <-]. split; reflexivity.
Qed.

Lemma keeps_sendProofAttempt url body :
  preserves sameDispatch (sendProofAttempt w url body).
Proof.
  unfold sendProofAttempt, post. repeat frame_step.
  destruct (status _ =? 202)%Z; frame_step.
Qed.

Lemma keeps_retry {A} (operation : M A) maxRetries delay :
  preserves sameDispatch operation ->
  preserves sameDispatch (withRetry operation maxRetries delay).
Proof.
  intros Hop. unfold withRetry.
  apply (preserves_withRetryLoop sameDispatch sameDispatch_trans);
    [exact Hop|]. intros s d. apply sameDispatch_append.
Qed.

Lemma keeps_sendProofToMember member body :
  preserves sameDispatch (sendProofToMember w member body).
Proof.
  unfold sendProofToMember. frame_step; [|frame_step].
  apply keeps_retry, keeps_sendProofAttempt.
Qed.

Lemma keeps_sendSupplementaryProofToMember member taskId body :
  preserves sameDispatch (sendSupplementaryProofToMember w member taskId body).
Proof.
  unfold sendSupplementaryProofToMember. frame_step; [|frame_step].
  apply keeps_retry, keeps_sendProofAttempt.
Qed.

Lemma keeps_fanOut (send : CommitteeMember -> M bool) members :
  (forall member, preserves sameDispatch (send member)) ->
  preserves sameDispatch (allSettled (map send members)).
Proof.
  intros Hsend.
  apply (preserves_allSettled sameDispatch sameDispatch_refl
                              sameDispatch_trans).
  apply Forall_forall. intros p Hp. apply in_map_iff in Hp.
  destruct Hp as (member & <- & _). apply Hsend.
Qed.

Lemma keeps_sendProofToCommittee proof :
  preserves sameDispatch (sendProofToCommittee w proof).
Proof.
  unfold sendProofToCommittee. frame_step; [|frame_step].
  frame_step; [apply keeps_updateCommitteeMembers|].
  frame_step; [frame_step|].
  destruct (length _ =? 0)%nat; [frame_step|].
  frame_step; [|frame_step].
  apply keeps_fanOut. intros member. apply keeps_sendProofToMember.
Qed.

Lemma keeps_sendSupplementaryProof taskId proof :
  preserves sameDispatch (sendSupplementaryProof w taskId proof).
Proof.
  unfold sendSupplementaryProof. frame_step; [|frame_step].
  frame_step; [apply keeps_updateCommitteeMembers|].
  frame_step; [frame_step|].
  destruct (length _ =? 0)%nat; [frame_step|].
  frame_step; [|frame_step].
  apply keeps_fanOut. intros member.
  apply keeps_sendSupplementaryProofToMember.
Qed.

Lemma keeps_verifyTask task : preserves sameDispatch (verifyTask w task).
Proof.
  unfold verifyTask. frame_step; [|frame_step].
  frame_step.
  - apply (preserves_verifyTask_build sameDispatch sameDispatch_refl
                                      sameDispatch_trans).
    intros s e _. apply sameDispatch_append.
  - destruct a as [[proof sourcePath] resultPath].
    unfold verifyTask_deliver. frame_step.
    + apply (preserves_submitVerifierProof sameDispatch sameDispatch_refl
                                           sameDispatch_trans).
      intros s e _. apply sameDispatch_append.
    + destruct (negb _); [frame_step|].
      frame_step; [apply keeps_sendProofToCommittee|].
      unfold IpfsService.cleanupFile, cleanupAllGops.
      repeat frame_step.
Qed.

Lemma keeps_processNextTask_try taskWithRole :
  preserves sameDispatch (processNextTask_try w taskWithRole).
Proof.
  unfold processNextTask_try. frame_step; [apply keeps_verifyTask|].
  destruct a as [proof|]; [|frame_step].
  destruct (is_supplemental_verifier taskWithRole).
  - frame_step; [apply keeps_sendSupplementaryProof|frame_step].
  - frame_step; [apply keeps_sendProofToCommittee|frame_step].
Qed.

End DispatchFrame.

Section RunInFlight.

Import Types Runtime VerifierService Dispatcher.

(** While a run is in flight, a step other than its completion leaves the
    flag set and the run counted, and can only add to the back of the
    queue. *)
Lemma step_in_flight l c c' :
  isProcessingTask (heap c) = true ->
  isRunCompleted l = false ->
  step l c = Some c' ->
  isProcessingTask (heap c') = true /\
  running c' = running c /\
  exists added, taskQueue (heap c') = (taskQueue (heap c) ++ added)%list.
Proof.
  intros Hbusy Hl Hstep.
  assert (Hbegin : processNextTask_begin (heap c) = None).
  { unfold processNextTask_begin. rewrite Hbusy. reflexivity. }
  destruct l; cbn [step isRunCompleted] in Hstep, Hl; try discriminate.
  - unfold callPollTasks in Hstep. rewrite Hbusy in Hstep.
    injection Hstep as <-. repeat split; auto.
    exists []. rewrite app_nil_r. reflexivity.
  - rewrite Hbusy in Hstep. cbn [negb] in Hstep.
    injection Hstep as <-. repeat split; auto.
    exists []. rewrite app_nil_r. reflexivity.
  - destruct (0 <? pendingPolls c)%nat; [|discriminate].
    unfold resumePollTasks in Hstep. cbn [isProcessingTask] in Hstep.
    rewrite Hbusy, andb_false_r in Hstep. injection Hstep as <-.
    cbn. repeat split; auto.
    destruct (enqueue_appends tasksWithRole (taskQueue (heap c)))
      as (added & Heq & _).
    exists added. exact Heq.
  - destruct (0 <? running c)%nat; [|discriminate].
    injection Hstep as <-. cbn. repeat split; auto.
    exists []. rewrite app_nil_r. reflexivity.
  - destruct (0 <? pendingTimeouts c)%nat; [|discriminate].
    unfold callProcessNextTask in Hstep. cbn [heap] in Hstep.
    rewrite Hbegin in Hstep. injection Hstep as <-.
    cbn. repeat split; auto.
    exists []. rewrite app_nil_r. reflexivity.
Qed.

Lemma steps_in_flight ls :
  forall c c',
    isProcessingTask (heap c) = true ->
    existsb isRunCompleted ls = false ->
    steps ls c = Some c' ->
    isProcessingTask (heap c') = true /\
    running c' = running c /\
    exists added, taskQueue (heap c') = (taskQueue (heap c) ++ added)%list.
Proof.
  induction ls as [|l rest IH]; intros c c' Hbusy Hls Hsteps.
  - injection Hsteps as <-. repeat split; auto.
    exists []. rewrite app_nil_r. reflexivity.
  - cbn [existsb] in Hls. apply orb_false_iff in Hls.
    destruct Hls as [Hl Hrest]. cbn [steps] in Hsteps.
    destruct (step l c) as [c1|] eqn:Hstep; [|discriminate].
    destruct (step_in_flight l c c1 Hbusy Hl Hstep)
      as (Hbusy1 & Hrun1 & added1 & Hq1).
    destruct (IH c1 c' Hbusy1 Hrest Hsteps) as (Hbusy' & Hrun' & added & Hq').
    split; [exact Hbusy'|]. split; [congruence|].
    exists (added1 ++ added)%list. rewrite Hq', Hq1, app_assoc. reflexivity.
Qed.

End RunInFlight.

(** X4. A call of [processNextTask] on an idle service takes exactly the
    head of the queue and sets the busy flag. While the run is in flight,
    whatever else happens in between (polls that resume and push tasks,
    timer ticks, deferred calls firing, the run's own progress), the flag
    stays set and the queue keeps the old tail in front, growing at its
    back only. The run's own steps, [verifyTask] and the deliveries, never
    throw into the caller and touch neither the flag nor the queue. When
    the run completes, the flag is cleared, the queue is left as it then
    is, and a further call is scheduled exactly when that queue is not
    empty. *)
Theorem processNextTask_consumes_head :
  forall (w : Runtime.World) (c0 : Dispatcher.Config)
         (taskWithRole : Types.TaskDataWithRole)
         (rest : list Types.TaskDataWithRole)
         (ls : list Dispatcher.Label) (c2 : Dispatcher.Config),
    Runtime.isProcessingTask (Dispatcher.heap c0) = false ->
    Runtime.taskQueue (Dispatcher.heap c0) = taskWithRole :: rest ->
    existsb Dispatcher.isRunCompleted ls = false ->
    Dispatcher.steps ls (Dispatcher.callProcessNextTask c0) = Some c2 ->
    let c1 := Dispatcher.callProcessNextTask c0 in
    let c3 := Dispatcher.completeRun c2 in
    (Runtime.isProcessingTask (Dispatcher.heap c1) = true /\
     Runtime.taskQueue (Dispatcher.heap c1) = rest /\
     Dispatcher.running c1 = S (Dispatcher.running c0)) /\
    (Runtime.isProcessingTask (Dispatcher.heap c2) = true /\
     Dispatcher.running c2 = S (Dispatcher.running c0) /\
     exists added,
       Runtime.taskQueue (Dispatcher.heap c2) = (rest ++ added)%list) /\
    (forall s r s',
        Runtime.tryCatch (VerifierService.processNextTask_try w taskWithRole)
                         (fun _ => Runtime.ret tt) s = (r, s') ->
        r = Ok tt /\
        Runtime.isProcessingTask s' = Runtime.isProcessingTask s /\
        Runtime.taskQueue s' = Runtime.taskQueue s) /\
    (Dispatcher.step Dispatcher.RunCompleted c2 = Some c3 /\
     Runtime.isProcessingTask (Dispatcher.heap c3) = false /\
     Runtime.taskQueue (Dispatcher.heap c3)
     = Runtime.taskQueue (Dispatcher.heap c2) /\
     Dispatcher.running c3 = Dispatcher.running c0 /\
     Dispatcher.pendingTimeouts c3
     = if (0 <? length (Runtime.taskQueue (Dispatcher.heap c2)))%nat
       then S (Dispatcher.pendingTimeouts c2)
       else Dispatcher.pendingTimeouts c2).
Proof.
  intros w c0 taskWithRole rest ls c2 Hidle Hqueue Hls Hsteps c1 c3.
  assert (Hc1 : Runtime.isProcessingTask (Dispatcher.heap c1) = true /\
                Runtime.taskQueue (Dispatcher.heap c1) = rest /\
                Dispatcher.running c1 = S (Dispatcher.running c0)).
  { subst c1. unfold Dispatcher.callProcessNextTask,
                VerifierService.processNextTask_begin.
    rewrite Hidle, Hqueue. cbn. repeat split. }
  destruct Hc1 as (Hbusy1 & Hq1 & Hrun1).
  destruct (steps_in_flight ls c1 c2 Hbusy1 Hls Hsteps)
    as (Hbusy2 & Hrun2 & added & Hq2).
  split; [repeat split; assumption|].
  split.
  { split; [exact Hbusy2|]. split; [congruence|].
    exists added. rewrite Hq2, Hq1. reflexivity. }
  split.
  { intros s r s' Hrun.
    assert (Hkeep : Runtime.sameDispatch s s').
    { revert Hrun.
      apply (preserves_tryCatch Runtime.sameDispatch sameDispatch_trans).
      - apply keeps_processNextTask_try.
      - intros e.
        apply (preserves_ret Runtime.sameDispatch sameDispatch_refl). }
    destruct Hkeep as [Hflag Hq]. split; [|split; assumption].
    unfold Runtime.tryCatch in Hrun.
    destruct (VerifierService.processNextTask_try w taskWithRole s)
      as [[[]|e] s1]; [|unfold Runtime.ret in Hrun];
      injection Hrun as <- _; reflexivity. }
  subst c3. cbn [Dispatcher.step].
  assert (Hpos : (0 <? Dispatcher.running c2)%nat = true)
    by (apply Nat.ltb_lt; lia).
  rewrite Hpos. unfold Dispatcher.completeRun,
                  VerifierService.processNextTask_finally.
  cbn. repeat split. lia.
Qed.

Lemma processNextTask_consumes_head_witness :
  let t1 := Types.mkTaskDataWithRole Scenario.e2eTask false in
  let c0 := Dispatcher.mkConfig
              (Runtime.mkState [] 0 false [t1] []) 0 1 0 in
  let c2 := Dispatcher.mkConfig
              (Runtime.mkState [] 0 true [t1] []) 1 0 0 in
  Dispatcher.steps [Dispatcher.TasksFetched [t1]]
                   (Dispatcher.callProcessNextTask c0) = Some c2 /\
  Dispatcher.step Dispatcher.RunCompleted c2
  = Some (Dispatcher.completeRun c2) /\
  Runtime.isProcessingTask (Dispatcher.heap (Dispatcher.completeRun c2))
  = false /\
  Runtime.taskQueue (Dispatcher.heap (Dispatcher.completeRun c2)) = [t1] /\
  Dispatcher.pendingTimeouts (Dispatcher.completeRun c2) = 1%nat.
Proof.
  cbv zeta. split; [reflexivity|].
  destruct (processNextTask_consumes_head
              Scenario.e2eWorld
              (Dispatcher.mkConfig
                 (Runtime.mkState
                    [] 0 false
                    [Types.mkTaskDataWithRole Scenario.e2eTask false] [])
                 0 1 0)
              (Types.mkTaskDataWithRole Scenario.e2eTask false) []
              [Dispatcher.TasksFetched
                 [Types.mkTaskDataWithRole Scenario.e2eTask false]]
              (Dispatcher.mkConfig
                 (Runtime.mkState
                    [] 0 true
                    [Types.mkTaskDataWithRole Scenario.e2eTask false] [])
                 1 0 0)
              eq_refl eq_refl eq_refl eq_refl)
    as (_ & _ & _ & Hstep & Hflag & Hqueue & _ & Htimeouts).
  split; [exact Hstep|]. split; [exact Hflag|].
  split; [exact Hqueue|exact Htimeouts].
Defined.

(** ** Nothing reaches the committee before the ledger accepted *)

Section LedgerFirst.

Import Types Runtime VerifierService.

Variable w : World.

Lemma sameRequests_refl s : sameRequests s s.
Proof. reflexivity. Qed.

Lemma sameRequests_trans s1 s2 s3 :
  sameRequests s1 s2 -> sameRequests s2 s3 -> sameRequests s1 s3.
Proof. unfold sameRequests. congruence. Qed.

Lemma sameRequests_quiet s e :
  eventUrl e = None -> sameRequests s (append s [e]).
Proof.
  intros He. unfold sameRequests, requests, append. cbn [trace].
  rewrite filter_app. cbn [filter]. rewrite He. apply app_nil_r.
Qed.

(** Steps 1 to 8 send no request, whether they end in a proof or throw. *)
Lemma verifyTask_build_quiet task s r built :
  verifyTask_build w task s = (r, built) -> sameRequests s built.
Proof.
  apply (preserves_verifyTask_build sameRequests sameRequests_refl
                                    sameRequests_trans w).
  apply sameRequests_quiet.
Qed.

End LedgerFirst.

(** X5. When the ledger contract does not accept the proof [verifyTask]
    built (it answers [false] for this proof, or the call fails),
    [verifyTask] returns [null] and has sent no HTTP request at all,
    whatever the contract would answer for other proofs. Conversely, a run
    of [verifyTask] that sent any request built a proof that the ledger
    accepted: the committee never sees a proof the ledger did not
    accept. *)
Theorem verifyTask_ledger_before_committee :
  forall (w : Runtime.World) (task : Types.TaskData) (s : Runtime.State),
    (forall proof sourcePath resultPath built,
        VerifierService.verifyTask_build w task s
          = (Ok (proof, sourcePath, resultPath), built) ->
        Runtime.submit_verifier_proof w proof <> Ok true ->
        exists s',
          VerifierService.verifyTask w task s = (Ok None, s') /\
          Runtime.requests (Runtime.trace s')
          = Runtime.requests (Runtime.trace s))
    /\ (forall r s',
           VerifierService.verifyTask w task s = (r, s') ->
           Runtime.requests (Runtime.trace s')
           <> Runtime.requests (Runtime.trace s) ->
           exists proof sourcePath resultPath built,
             VerifierService.verifyTask_build w task s
               = (Ok (proof, sourcePath, resultPath), built) /\
             Runtime.submit_verifier_proof w proof = Ok true).
Proof.
  intros w task s.
  assert (Hrejected :
            forall proof sp rp built,
              VerifierService.verifyTask_build w task s
                = (Ok (proof, sp, rp), built) ->
              Runtime.submit_verifier_proof w proof <> Ok true ->
              exists s',
                VerifierService.verifyTask w task s = (Ok None, s') /\
                Runtime.requests (Runtime.trace s')
                = Runtime.requests (Runtime.trace s)).
  { intros proof sp rp built Hbuild Hledger.
    exists (Runtime.append built [Runtime.EvSubmitVerifierProof proof]).
    split; [exact (verifyTask_ledger_rejects w _ _ _ _ _ _ Hbuild Hledger)|].
    apply (sameRequests_trans _ built).
    - exact (verifyTask_build_quiet w _ _ _ _ Hbuild).
    - apply sameRequests_quiet. reflexivity. }
  split; [exact Hrejected|].
  intros r s' Hrun Hsent.
  destruct (VerifierService.verifyTask_build w task s)
    as [[[[proof sp] rp]|e] built] eqn:Hbuild.
  - destruct (Runtime.submit_verifier_proof w proof) as [[|]|e] eqn:Hledger.
    + exists proof, sp, rp, built. split; [reflexivity|exact Hledger].
    + destruct (Hrejected proof sp rp built eq_refl) as (s'' & Hnull & Hsame);
        [congruence|].
      rewrite Hnull in Hrun. injection Hrun as _ <-. contradiction.
    + destruct (Hrejected proof sp rp built eq_refl) as (s'' & Hnull & Hsame);
        [congruence|].
      rewrite Hnull in Hrun. injection Hrun as _ <-. contradiction.
  - exfalso. apply Hsent.
    unfold VerifierService.verifyTask, Runtime.tryCatch, Runtime.bind in Hrun.
    rewrite Hbuild in Hrun. unfold Runtime.ret in Hrun.
    injection Hrun as _ <-.
    exact (verifyTask_build_quiet w _ _ _ _ Hbuild).
Qed.

Lemma verifyTask_ledger_before_committee_witness :
  exists s',
    VerifierService.verifyTask Scenario.selectiveLedgerWorld
                               Scenario.e2eTask Scenario.idle
      = (Ok None, s') /\
    Runtime.requests (Runtime.trace s')
    = Runtime.requests (Runtime.trace Scenario.idle).
Proof.
  eapply (proj1 (verifyTask_ledger_before_committee
                   Scenario.selectiveLedgerWorld Scenario.e2eTask
                   Scenario.idle)).
  - vm_compute. reflexivity.
  - vm_compute. discriminate.
Defined.

(** X6. A task that lacks its source locator, its result locator or its
    selection, or that selects no marker, is refused before anything is
    done: [verifyTask] returns [null] and leaves the state, the trace
    included, exactly as it was (no download, no tool run, no ledger or
    committee call). *)
Theorem verifyTask_refuses_incomplete_task :
  forall (w : Runtime.World) (task : Types.TaskData) (s : Runtime.State),
    Types.source_ipfs task = ""
    \/ Types.result_ipfs task = None
    \/ Types.result_ipfs task = Some ""
    \/ Types.selected_gops task = None
    \/ Types.selected_gops task = Some [] ->
    VerifierService.verifyTask w task s = (Ok None, s).
Proof.
  intros w task s Hbad.
  unfold VerifierService.verifyTask, Runtime.tryCatch, Runtime.bind at 1.
  unfold VerifierService.verifyTask_build, Runtime.bind at 1.
  unfold VerifierService.verifyTask_score.
  destruct (String.eqb_spec (Types.source_ipfs task) "") as [Hsource|Hsource].
  - destruct (Types.selected_gops task); reflexivity.
  - destruct (Types.result_ipfs task) as [resultIpfs|] eqn:Hresult;
      [|destruct (Types.selected_gops task); reflexivity].
    destruct (Types.selected_gops task) as [selected|] eqn:Hselected;
      [|reflexivity].
    destruct (String.eqb_spec resultIpfs "") as [Hempty|Hempty];
      [reflexivity|].
    destruct selected as [|g rest]; [reflexivity|].
    exfalso.
    destruct Hbad as [H|[H|[H|[H|H]]]]; congruence.
Qed.

Lemma verifyTask_refuses_incomplete_task_witness :
  VerifierService.verifyTask Scenario.e2eWorld Scenario.emptySelectionTask
                             Scenario.idle
  = (Ok None, Scenario.idle).
Proof.
  apply (verifyTask_refuses_incomplete_task
           Scenario.e2eWorld Scenario.emptySelectionTask Scenario.idle).
  right. right. right. right. reflexivity.
Defined.

(** ** [withRetry]: termination and pauses *)

Section Retry.

Import Types Runtime CommitteeClient.

Lemma withRetryWhile_enough {A} (operation : M A) (maxRetries : nat) :
  forall fuel retries delay s,
    (1 <= fuel)%nat -> (maxRetries - retries <= fuel)%nat ->
    withRetryWhile fuel operation maxRetries retries delay s
    = Some (withRetryLoop operation (maxRetries - retries - 1) delay s).
Proof.
  induction fuel as [|fuel IH]; intros retries delay s Hpos Hfuel; [lia|].
  cbn [withRetryWhile].
  destruct (maxRetries - retries - 1)%nat as [|remaining] eqn:Hremaining;
    cbn [withRetryLoop];
    destruct (operation s) as [[a|e] s']; try reflexivity.
  - destruct (Nat.leb_spec maxRetries (S retries)); [reflexivity|lia].
  - destruct (Nat.leb_spec maxRetries (S retries)); [lia|].
    rewrite IH by lia.
    replace (maxRetries - S retries - 1)%nat with remaining by lia.
    reflexivity.
Qed.

End Retry.

(** X7. The [while (true)] loop of [withRetry] terminates: run with its
    [retries] counter as in the source, it returns within
    [max 1 maxRetries] turns, and its result is that of calling the
    operation until it succeeds or has failed [max 1 maxRetries] times,
    pausing between calls (a budget of 0 or 1 allows one call and no
    retry). *)
Theorem withRetry_terminates :
  forall (A : Type) (operation : Runtime.M A) (maxRetries fuel : nat)
         (initialDelay : Q) (s : Runtime.State),
    (Nat.max 1 maxRetries <= fuel)%nat ->
    CommitteeClient.withRetryWhile fuel operation maxRetries 0 initialDelay s
    = Some (CommitteeClient.withRetry operation maxRetries initialDelay s).
Proof.
  intros A operation maxRetries fuel initialDelay s Hfuel.
  unfold CommitteeClient.withRetry.
  rewrite (withRetryWhile_enough operation maxRetries fuel 0 initialDelay s)
    by lia.
  rewrite Nat.sub_0_r. reflexivity.
Qed.

Lemma withRetry_terminates_witness :
  CommitteeClient.withRetryWhile
    2 (CommitteeClient.sendProofAttempt
         Scenario.e2eWorld "http://10.24.161.186:9000/proof"
         (CommitteeClient.convertToApiProofFormat Scenario.sampleProof))
    2 0 1000 Scenario.idle
  = Some (CommitteeClient.withRetry
            (CommitteeClient.sendProofAttempt
               Scenario.e2eWorld "http://10.24.161.186:9000/proof"
               (CommitteeClient.convertToApiProofFormat Scenario.sampleProof))
            2 1000 Scenario.idle).
Proof.
  apply (withRetry_terminates
           bool
           (CommitteeClient.sendProofAttempt
              Scenario.e2eWorld "http://10.24.161.186:9000/proof"
              (CommitteeClient.convertToApiProofFormat Scenario.sampleProof))
           2 2 1000 Scenario.idle).
  simpl. lia.
Defined.

(** ** Member operations under any retry budget *)

Section SendWithRetries.

Import Types Runtime CommitteeClient.

Variables (w : World) (url : string) (body : ApiProof).

Lemma hits_attemptEvents u : forall retries delay,
  hits u (attemptEvents url body delay retries)
  = if String.eqb url u then S retries else 0%nat.
Proof.
  induction retries as [|retries IH]; intros delay; cbn [attemptEvents].
  - apply hits_one_post.
  - change (EvHttpPost url body :: EvSleep delay :: ?l)
      with ([EvHttpPost url body; EvSleep delay] ++ l)%list.
    rewrite hits_app, IH. unfold hits. simpl.
    destruct (String.eqb url u); reflexivity.
Qed.

Lemma posts_attemptEvents : forall retries delay,
  posts (attemptEvents url body delay retries) = S retries.
Proof.
  induction retries as [|retries IH]; intros delay; cbn [attemptEvents].
  - reflexivity.
  - unfold posts in *. cbn [filter length]. rewrite IH. reflexivity.
Qed.

(** The pauses of a send start at the initial delay, never shrink and never
    exceed 30 seconds. *)
Lemma pauses_attemptEvents : forall retries delay pause,
  0 <= delay -> delay <= 30000 ->
  In pause (pauses (attemptEvents url body delay retries)) ->
  delay <= pause /\ pause <= 30000.
Proof.
  induction retries as [|retries IH]; intros delay pause Hpos Hcap;
    cbn [attemptEvents pauses flat_map app].
  - intros [].
  - intros [<-|Hin].
    + split; [apply Qle_refl|exact Hcap].
    + assert (Hnext : delay <= Qmin (delay * (15 # 10)) 30000).
      { apply Q.min_glb; [|exact Hcap].
        apply Qle_minus_iff.
        setoid_replace (delay * (15 # 10) + - delay) with (delay * (1 # 2))
          by ring.
        apply Qmult_le_0_compat; [exact Hpos|]. unfold Qle. simpl. lia. }
      destruct (IH (Qmin (delay * (15 # 10)) 30000) pause) as [Hlow Hhigh].
      * eapply Qle_trans; [exact Hpos|exact Hnext].
      * apply Q.le_min_r.
      * exact Hin.
      * split; [eapply Qle_trans; [exact Hnext|exact Hlow]|exact Hhigh].
Qed.

(** A send with [remaining] retries allowed: it stops at the first request
    answered with 202 and otherwise uses every retry. *)
Lemma sendWithRetries_run : forall remaining delay s,
  let h := hits url (trace s) in
  exists retries,
    (retries <= remaining)%nat /\
    sendWithRetries w url body remaining delay s
    = (Ok (acked w url (h + retries)),
       append s (attemptEvents url body delay retries)) /\
    (forall j, (j < retries)%nat -> acked w url (h + j) = false) /\
    (acked w url (h + retries) = false -> retries = remaining).
Proof.
  induction remaining as [|remaining IH]; intros delay s h;
    unfold sendWithRetries, tryCatch; cbn [withRetryLoop];
    destruct (sendProofAttempt_run w url body s) as (r & -> & Hr);
    fold h in Hr.
  - exists 0%nat. rewrite Nat.add_0_r.
    split; [lia|]. split.
    + destruct (acked w url h); [subst r; reflexivity|].
      destruct Hr as [e ->]. reflexivity.
    + split; [intros j Hj; lia|reflexivity].
  - destruct (acked w url h) eqn:Hack.
    + exists 0%nat. rewrite Nat.add_0_r, Hack. subst r.
      split; [lia|]. split; [reflexivity|].
      split; [intros j Hj; lia|discriminate].
    + destruct Hr as [e ->]. unfold bind at 1, emit at 1.
      rewrite append_append.
      destruct (IH (Qmin (delay * (15 # 10)) 30000)
                   (append s ([EvHttpPost url body] ++ [EvSleep delay])))
        as (retries & Hle & Hrun & Hfailed & Hlast).
      assert (Hh : hits url (trace (append s ([EvHttpPost url body]
                                                ++ [EvSleep delay]))) = S h).
      { unfold append. cbn [trace]. rewrite hits_app.
        change ([EvHttpPost url body] ++ [EvSleep delay])%list
          with ([EvHttpPost url body; EvSleep delay]).
        unfold hits at 2. simpl. rewrite String.eqb_refl. simpl.
        subst h. lia. }
      rewrite Hh in Hrun, Hfailed, Hlast.
      unfold sendWithRetries, tryCatch in Hrun.
      exists (S retries).
      replace (h + S retries)%nat with (S h + retries)%nat by lia.
      split; [lia|]. split.
      * rewrite Hrun, append_append. reflexivity.
      * split.
        -- intros [|j] Hj; [rewrite Nat.add_0_r; exact Hack|].
           replace (h + S j)%nat with (S h + j)%nat by lia.
           apply Hfailed. lia.
        -- intros Hno. rewrite (Hlast Hno). reflexivity.
Qed.

(** What the rest of the fan-out needs to know of a member operation. *)
Lemma sendWithRetries_spec remaining delay s :
  exists r events,
    sendWithRetries w url body remaining delay s = (Ok r, append s events) /\
    (forall u, u <> url -> hits u events = 0%nat) /\
    (1 <= hits url events <= S remaining)%nat /\
    posts events = hits url events /\
    (0 <= delay -> delay <= 30000 ->
     forall pause, In pause (pauses events) ->
                   delay <= pause /\ pause <= 30000) /\
    (r = true <->
     exists n, (hits url (trace s) <= n
                < hits url (trace s) + hits url events)%nat /\
               acked w url n = true).
Proof.
  destruct (sendWithRetries_run remaining delay s)
    as (retries & Hle & Hrun & Hfailed & Hlast).
  exists (acked w url (hits url (trace s) + retries)),
         (attemptEvents url body delay retries).
  split; [exact Hrun|]. split.
  { intros u Hu. rewrite hits_attemptEvents.
    destruct (String.eqb_spec url u); [congruence|reflexivity]. }
  rewrite hits_attemptEvents, String.eqb_refl, posts_attemptEvents.
  split; [lia|]. split; [reflexivity|]. split.
  { intros Hpos Hcap pause. apply pauses_attemptEvents; assumption. }
  split.
  - intros Hack. exists (hits url (trace s) + retries)%nat.
    split; [lia|exact Hack].
  - intros (n & Hn & Hack).
    destruct (Nat.eq_dec n (hits url (trace s) + retries)) as [->|Hne];
      [exact Hack|].
    assert (Hno : acked w url (hits url (trace s)
                               + (n - hits url (trace s))) = false)
      by (apply Hfailed; lia).
    replace (hits url (trace s) + (n - hits url (trace s)))%nat
      with n in Hno by lia.
    congruence.
Qed.

End SendWithRetries.

Section FanOutWith.

Import Types Runtime CommitteeClient.

Variables (w : World) (body : ApiProof) (urlOf : CommitteeMember -> string)
          (remaining : nat) (delay : Q).

Lemma posts_app a b : posts (a ++ b) = (posts a + posts b)%nat.
Proof. unfold posts. rewrite filter_app, length_app. reflexivity. Qed.

Lemma pauses_app a b : pauses (a ++ b) = (pauses a ++ pauses b)%list.
Proof. unfold pauses. apply flat_map_app. Qed.

(** The join over the member operations of a fan-out, for any endpoint and
    any retry budget. *)
Lemma fanOutWith_spec members :
  forall s,
  exists outcomes events,
    allSettled
      (map (fun m => sendWithRetries w (urlOf m) body remaining delay) members)
      s = (Ok outcomes, append s events) /\
    length outcomes = length members /\
    Forall (fun r => r = Ok true \/ r = Ok false) outcomes /\
    (length members <= posts events <= S remaining * length members)%nat /\
    (forall m, In m members -> (1 <= hits (urlOf m) events)%nat) /\
    (0 <= delay -> delay <= 30000 ->
     forall pause, In pause (pauses events) ->
                   delay <= pause /\ pause <= 30000) /\
    (existsb fulfilledTrue outcomes = true ->
     exists m n, In m members /\
                 (hits (urlOf m) (trace s) <= n
                  < hits (urlOf m) (trace s) + hits (urlOf m) events)%nat /\
                 acked w (urlOf m) n = true) /\
    ((exists u n, (hits u (trace s) <= n
                   < hits u (trace s) + hits u events)%nat /\
                  acked w u n = true) ->
     existsb fulfilledTrue outcomes = true).
Proof.
  induction members as [|m rest IH]; intros s.
  - exists [], []. cbn [map allSettled]. rewrite append_nil.
    split; [reflexivity|]. split; [reflexivity|]. split; [constructor|].
    split; [cbn; lia|]. split; [intros m []|].
    split; [intros _ _ pause []|].
    split; [discriminate|].
    intros (u & n & Hn & _). cbn in Hn. lia.
  - cbn [map allSettled].
    destruct (sendWithRetries_spec w (urlOf m) body remaining delay s)
      as (r & ev1 & -> & Hother & Hown & Hposts & Hpause1 & Hr).
    destruct (IH (append s ev1))
      as (outcomes & ev2 & Hrun & Hlen & Hall & Hcount & Heach & Hpause2
          & Hfwd & Hbwd).
    exists (Ok r :: outcomes), (ev1 ++ ev2)%list.
    unfold bind, ret. rewrite Hrun, append_append.
    assert (Hs1 : forall u, hits u (trace (append s ev1))
                            = (hits u (trace s) + hits u ev1)%nat).
    { intros u. unfold append. cbn [trace]. apply hits_app. }
    split; [reflexivity|]. split; [cbn [length]; congruence|].
    split; [constructor; [destruct r; auto|exact Hall]|].
    split.
    { rewrite posts_app, Hposts. cbn [length]. nia. }
    split.
    { intros m' [<-|Hin]; rewrite hits_app.
      - lia.
      - specialize (Heach m' Hin). lia. }
    split.
    { intros Hpos Hcap pause Hin. rewrite pauses_app in Hin.
      apply in_app_or in Hin. destruct Hin as [Hin|Hin].
      - exact (Hpause1 Hpos Hcap pause Hin).
      - exact (Hpause2 Hpos Hcap pause Hin). }
    split.
    + cbn [existsb fulfilledTrue]. intros Hex.
      apply orb_true_iff in Hex. destruct Hex as [Htrue|Hex].
      * apply Hr in Htrue. destruct Htrue as (n & Hn & Hack).
        exists m, n. split; [left; reflexivity|]. split; [|exact Hack].
        rewrite hits_app. lia.
      * destruct (Hfwd Hex) as (m' & n & Hin & Hn & Hack).
        exists m', n. split; [right; exact Hin|]. split; [|exact Hack].
        rewrite Hs1 in Hn. rewrite hits_app. lia.
    + intros (u & n & Hn & Hack). cbn [existsb fulfilledTrue].
      apply orb_true_iff. rewrite hits_app in Hn.
      destruct (Nat.lt_ge_cases n (hits u (trace s) + hits u ev1))
        as [Hlt|Hge].
      * left. apply Hr.
        destruct (String.eqb_spec u (urlOf m)) as [->|Hne].
        -- exists n. split; [lia|exact Hack].
        -- rewrite (Hother u Hne) in Hlt. lia.
      * right. apply Hbwd. exists u, n. rewrite Hs1. split; [lia|exact Hack].
Qed.

End FanOutWith.

Section FanOuts.

Import Types Runtime CommitteeClient.

Variable w : World.

(** Both fan-outs are joins over [sendWithRetries] operations. *)
Lemma sendProofToCommittee_unfold proof s :
  let s1 := snd (updateCommitteeMembers w s) in
  forall outcomes s',
    allSettled
      (map (fun m => sendWithRetries w (proofUrl m)
                                     (convertToApiProofFormat proof) 1 1000)
           (committeeMembers s1)) s1 = (Ok outcomes, s') ->
    sendProofToCommittee w proof s = (Ok (0 <? successCount outcomes)%nat, s').
Proof. exact (sendProofToCommittee_run w proof s). Qed.

Lemma sendSupplementaryProof_unfold taskId proof s :
  let s1 := snd (updateCommitteeMembers w s) in
  forall outcomes s',
    allSettled
      (map (fun m => sendWithRetries w (supplementaryUrl m taskId)
                                     (convertToApiProofFormat proof) 2 2000)
           (committeeMembers s1)) s1 = (Ok outcomes, s') ->
    sendSupplementaryProof w taskId proof s
    = (Ok (0 <? successCount outcomes)%nat, s').
Proof.
  intros s1 outcomes s' Hrun.
  destruct (updateCommitteeMembers_spec w s) as (s1' & Hupd & _ & _ & _ & Hlen).
  assert (Hs1 : s1 = s1') by (subst s1; rewrite Hupd; reflexivity).
  rewrite <- Hs1 in Hupd, Hlen.
  unfold sendSupplementaryProof, tryCatch, bind at 1.
  rewrite Hupd. unfold bind at 1, get at 1.
  destruct (Nat.eqb_spec (length (committeeMembers s1)) 0) as [Hzero|_]; [lia|].
  unfold bind.
  change (allSettled
            (map (fun member =>
                    sendSupplementaryProofToMember
                      w member taskId (convertToApiProofFormat proof))
                 (committeeMembers s1)) s1)
    with (allSettled
            (map (fun m => sendWithRetries w (supplementaryUrl m taskId)
                                           (convertToApiProofFormat proof)
                                           2 2000)
                 (committeeMembers s1)) s1).
  rewrite Hrun. reflexivity.
Qed.

(** The supplementary delivery never throws. *)
Lemma sendSupplementaryProof_total taskId proof s :
  exists delivered s',
    sendSupplementaryProof w taskId proof s = (Ok delivered, s').
Proof.
  destruct (fanOutWith_spec
              w (convertToApiProofFormat proof)
              (fun m => supplementaryUrl m taskId) 2 2000
              (committeeMembers (snd (updateCommitteeMembers w s)))
              (snd (updateCommitteeMembers w s)))
    as (outcomes & events & Hrun & _).
  eexists; eexists. apply sendSupplementaryProof_unfold. exact Hrun.
Qed.

End FanOuts.


(** X9. The regular delivery is bounded: with [N] members after the
    refresh, [sendProofToCommittee] sends at least [N] and at most [2 N]
    requests, at least one to every member's proof URL, and every pause
    between two attempts lasts at least 1 s and at most 30 s. *)
Theorem sendProofToCommittee_bounded :
  forall (w : Runtime.World) (proof : Types.VerifierQosProof)
         (s : Runtime.State),
    let s1 := snd (CommitteeClient.updateCommitteeMembers w s) in
    let members := Runtime.committeeMembers s1 in
    exists delivered events,
      CommitteeClient.sendProofToCommittee w proof s
        = (Ok delivered, Runtime.append s1 events) /\
      (length members <= CommitteeClient.posts events
       <= 2 * length members)%nat /\
      (forall m, In m members ->
                 (1 <= Runtime.hits (CommitteeClient.proofUrl m) events)%nat) /\
      (forall pause, In pause (CommitteeClient.pauses events) ->
                     1000 <= pause /\ pause <= 30000).
Proof.
  intros w proof s s1 members.
  destruct (fanOutWith_spec
              w (CommitteeClient.convertToApiProofFormat proof)
              CommitteeClient.proofUrl 1 1000 members s1)
    as (outcomes & events & Hrun & _ & _ & Hcount & Heach & Hpause & _).
  exists (0 <? CommitteeClient.successCount outcomes)%nat, events.
  split; [apply sendProofToCommittee_unfold; exact Hrun|].
  split; [exact Hcount|]. split; [exact Heach|].
  apply Hpause; unfold Qle; simpl; lia.
Qed.

(** X10. For a supplemental task that verifies, the proof is first sent to
    the regular endpoint inside [verifyTask] (unmarked, after the ledger
    submission), and then [processNextTask] sends it, marked as
    supplementary, to the supplementary endpoint of the task. *)
Theorem processNextTask_supplemental_delivery :
  forall (w : Runtime.World) (s0 : Runtime.State)
         (taskWithRole : Types.TaskDataWithRole) (s1 : Runtime.State)
         (proof : Types.VerifierQosProof) (s2 : Runtime.State),
    VerifierService.processNextTask_begin s0 = Some (taskWithRole, s1) ->
    Types.is_supplemental_verifier taskWithRole = true ->
    VerifierService.verifyTask w (Types.task taskWithRole) s1
      = (Ok (Some proof), s2) ->
    Types.isSupplementary proof = false /\
    exists sourcePath resultPath built delivered1 sent delivered2 s3,
      VerifierService.verifyTask_build w (Types.task taskWithRole) s1
        = (Ok (proof, sourcePath, resultPath), built) /\
      CommitteeClient.sendProofToCommittee
        w proof (Runtime.append built [Runtime.EvSubmitVerifierProof proof])
        = (Ok delivered1, sent) /\
      s2 = Runtime.append sent [Runtime.EvCleanupFile sourcePath;
                                Runtime.EvCleanupFile resultPath;
                                Runtime.EvCleanupAllGops] /\
      CommitteeClient.sendSupplementaryProof
        w (Types.task_id (Types.task taskWithRole))
        (VerifierService.markSupplementary proof) s2 = (Ok delivered2, s3) /\
      VerifierService.processNextTask w s0
        = VerifierService.processNextTask_finally s3.
Proof.
  intros w s0 taskWithRole s1 proof s2 Hbegin Hrole Hverify.
  destruct (verifyTask_success w _ _ _ _ Hverify)
    as (sp & rp & built & Hbuild & Hdeliver).
  destruct (verifyTask_build_success w _ _ _ _ _ _ Hbuild)
    as (_ & _ & _ & _ & _ & _ & Hmark).
  destruct (verifyTask_deliver_success w _ _ _ _ _ _ Hdeliver)
    as (_ & _ & delivered1 & sent & Hsend1 & Hs2).
  destruct (sendSupplementaryProof_total
              w (Types.task_id (Types.task taskWithRole))
              (VerifierService.markSupplementary proof) s2)
    as (delivered2 & s3 & Hsend2).
  split; [exact Hmark|].
  exists sp, rp, built, delivered1, sent, delivered2, s3.
  split; [exact Hbuild|]. split; [exact Hsend1|]. split; [exact Hs2|].
  split; [exact Hsend2|].
  unfold VerifierService.processNextTask. rewrite Hbegin.
  unfold Runtime.tryCatch, VerifierService.processNextTask_try,
    Runtime.bind at 1.
  rewrite Hverify, Hrole. unfold Runtime.bind. rewrite Hsend2. reflexivity.
Qed.

Lemma processNextTask_supplemental_delivery_witness :
  let s0 := Runtime.mkState [] 0 false
                            [Types.mkTaskDataWithRole Scenario.e2eTask true]
                            [] in
  exists proof s2,
    VerifierService.verifyTask Scenario.e2eWorld Scenario.e2eTask
                               (Runtime.mkState [] 0 true [] [])
      = (Ok (Some proof), s2) /\
    Types.isSupplementary proof = false /\
    exists sourcePath resultPath built delivered1 sent delivered2 s3,
      VerifierService.verifyTask_build Scenario.e2eWorld Scenario.e2eTask
        (Runtime.mkState [] 0 true [] [])
        = (Ok (proof, sourcePath, resultPath), built) /\
      CommitteeClient.sendProofToCommittee
        Scenario.e2eWorld proof
        (Runtime.append built [Runtime.EvSubmitVerifierProof proof])
        = (Ok delivered1, sent) /\
      s2 = Runtime.append sent [Runtime.EvCleanupFile sourcePath;
                                Runtime.EvCleanupFile resultPath;
                                Runtime.EvCleanupAllGops] /\
      CommitteeClient.sendSupplementaryProof
        Scenario.e2eWorld (Types.task_id Scenario.e2eTask)
        (VerifierService.markSupplementary proof) s2 = (Ok delivered2, s3) /\
      VerifierService.processNextTask Scenario.e2eWorld s0
        = VerifierService.processNextTask_finally s3.
Proof.
  cbv zeta.
  destruct (verifyTask_run Scenario.e2eWorld Scenario.e2eTask _
                           (Runtime.mkState [] 0 true [] [])
                           e2e_extractedAndScored e2e_deliverable)
    as (proof & s2 & Hverify & _).
  exists proof, s2. split; [exact Hverify|].
  exact (processNextTask_supplemental_delivery
           Scenario.e2eWorld
           (Runtime.mkState [] 0 false
                            [Types.mkTaskDataWithRole Scenario.e2eTask true]
                            [])
           (Types.mkTaskDataWithRole Scenario.e2eTask true)
           (Runtime.mkState [] 0 true [] [])
           proof s2 eq_refl eq_refl Hverify).
Defined.

Section GopMapLookup.

Import JsMap GopAnalyzer.

Lemma key_eqb_refl k : key_eqb k k = true.
Proof. destruct (key_eqb_spec k k); congruence. Qed.

Lemma get_set_same k v m : JsMap.get k (JsMap.set k v m) = Some v.
Proof.
  induction m as [|[k' v'] rest IH]; cbn.
  - rewrite key_eqb_refl. reflexivity.
  - destruct (key_eqb_spec k k') as [<-|Hne]; cbn.
    + rewrite key_eqb_refl. reflexivity.
    + destruct (key_eqb_spec k k'); [congruence|exact IH].
Qed.

Lemma get_set_other k k' v m :
  k <> k' -> JsMap.get k (JsMap.set k' v m) = JsMap.get k m.
Proof.
  intros Hne. induction m as [|[k0 v0] rest IH]; cbn.
  - destruct (key_eqb_spec k k'); [congruence|reflexivity].
  - destruct (key_eqb_spec k' k0) as [<-|Hne0]; cbn.
    + destruct (key_eqb_spec k k'); [congruence|reflexivity].
    + destruct (key_eqb_spec k k0); [reflexivity|exact IH].
Qed.

Lemma get_set_cases k k' v m p :
  JsMap.get k (JsMap.set k' v m) = Some p -> p = v \/ JsMap.get k m = Some p.
Proof.
  destruct (key_eqb_spec k k') as [<-|Hne].
  - rewrite get_set_same. intros [= <-]. left; reflexivity.
  - rewrite (get_set_other _ _ _ _ Hne). right; assumption.
Qed.

Variables (env : Env) (gopDir videoExt : string) (timestamps : list string).

Let segment := segmentPath gopDir videoExt.

(** Every file the map names was found on disk and is one of the numbered
    segments. *)
Let listed (m : JsMap.t) : Prop :=
  forall k p, JsMap.get k m = Some p ->
              exists j, (j <= length timestamps)%nat /\ p = segment j /\
                        existsSync env p = true.

Lemma listed_set k j m :
  (j <= length timestamps)%nat ->
  existsSync env (segment j) = true ->
  listed m -> listed (JsMap.set k (segment j) m).
Proof.
  intros Hj Hex Hm k' p Hget.
  destruct (get_set_cases _ _ _ _ _ Hget) as [->|Hold].
  - exists j. auto.
  - exact (Hm _ _ Hold).
Qed.

Lemma listed_middle indices :
  forall m,
    (forall j, In j indices -> (j <= length timestamps)%nat) ->
    listed m ->
    listed (fold_left (middleStep env gopDir videoExt timestamps) indices m).
Proof.
  induction indices as [|a rest IH]; intros m Hbound Hm; [exact Hm|].
  cbn [fold_left]. apply IH.
  - intros j Hj. apply Hbound. right; exact Hj.
  - unfold middleStep. fold (segment a).
    destruct (existsSync env (segment a)) eqn:Hex; [|exact Hm].
    apply listed_set; [apply Hbound; left; reflexivity|exact Hex|exact Hm].
Qed.

Lemma listed_buildGopMap :
  listed (buildGopMap env gopDir videoExt timestamps).
Proof.
  unfold buildGopMap. fold (segment 0) (segment (length timestamps)).
  assert (Hfirst :
            listed (if existsSync env (segment 0)
                    then JsMap.set (index timestamps 0) (segment 0) JsMap.empty
                    else JsMap.empty)).
  { destruct (existsSync env (segment 0)) eqn:Hex.
    - apply listed_set; [lia|exact Hex|]. intros k p; discriminate.
    - intros k p; discriminate. }
  assert (Hmiddle := listed_middle (seq 1 (length timestamps - 1)) _
                       (fun j Hj => ltac:(apply in_seq in Hj; lia)) Hfirst).
  destruct (existsSync env (segment (length timestamps))) eqn:Hex.
  - apply listed_set; [lia|exact Hex|exact Hmiddle].
  - exact Hmiddle.
Qed.

Hypothesis distinct : NoDup timestamps.

Lemma index_nth j :
  (j < length timestamps)%nat ->
  index timestamps (Z.of_nat j) = str (nth j timestamps "").
Proof.
  intros Hj. unfold index.
  destruct (Z.ltb_spec (Z.of_nat j) 0); [lia|].
  rewrite Nat2Z.id.
  rewrite (nth_error_nth' timestamps "" Hj). reflexivity.
Qed.

Lemma marker_inj i j :
  (i < length timestamps)%nat -> (j < length timestamps)%nat ->
  str (nth i timestamps "") = str (nth j timestamps "") -> i = j.
Proof.
  intros Hi Hj [= Heq].
  exact (proj1 (NoDup_nth timestamps "") distinct i j Hi Hj Heq).
Qed.

(** After the loop ran over the indices [a .. a + n - 1], the marker of
    index [i] names segment [i] if that index was visited and the segment
    exists, and is otherwise as before. *)
Lemma get_middle i :
  (i < length timestamps)%nat ->
  forall n a m,
    (a + n <= length timestamps)%nat ->
    JsMap.get (str (nth i timestamps ""))
              (fold_left (middleStep env gopDir videoExt timestamps)
                         (seq a n) m)
    = if ((a <=? i)%nat && (i <? a + n)%nat && existsSync env (segment i))%bool
      then Some (segment i)
      else JsMap.get (str (nth i timestamps "")) m.
Proof.
  intros Hi. induction n as [|n IH]; intros a m Hbound.
  - cbn [seq fold_left].
    destruct (Nat.leb_spec a i), (Nat.ltb_spec i (a + 0)); cbn; try lia;
      reflexivity.
  - cbn [seq fold_left]. rewrite IH by lia.
    unfold middleStep. fold (segment a).
    rewrite (index_nth a) by lia.
    destruct (Nat.eq_dec a i) as [->|Hne].
    + destruct (Nat.leb_spec (S i) i); [lia|].
      destruct (Nat.leb_spec i i); [|lia].
      destruct (Nat.ltb_spec i (i + S n)); [|lia]. cbn.
      destruct (existsSync env (segment i)); [|reflexivity].
      rewrite get_set_same. reflexivity.
    + assert (Hkey : str (nth i timestamps "") <> str (nth a timestamps "")).
      { intros Heq. apply Hne. symmetry. apply marker_inj; [lia|lia|exact Heq]. }
      assert (Hsame :
                JsMap.get (str (nth i timestamps ""))
                          (if existsSync env (segment a)
                           then JsMap.set (str (nth a timestamps ""))
                                          (segment a) m
                           else m)
                = JsMap.get (str (nth i timestamps "")) m).
      { destruct (existsSync env (segment a)); [|reflexivity].
        apply get_set_other. exact Hkey. }
      rewrite Hsame.
      destruct (Nat.leb_spec (S a) i), (Nat.leb_spec a i),
        (Nat.ltb_spec i (S a + n)), (Nat.ltb_spec i (a + S n));
        cbn; try lia; reflexivity.
Qed.

Lemma get_buildGopMap i :
  (i < length timestamps)%nat ->
  JsMap.get (str (nth i timestamps ""))
            (buildGopMap env gopDir videoExt timestamps)
  = if ((S i =? length timestamps)%nat
        && existsSync env (segment (length timestamps)))%bool
    then Some (segment (length timestamps))
    else if existsSync env (segment i) then Some (segment i) else None.
Proof.
  intros Hi. unfold buildGopMap.
  fold (segment 0) (segment (length timestamps)).
  assert (Hlast : index timestamps (Z.of_nat (length timestamps) - 1)
                  = str (nth (length timestamps - 1) timestamps "")).
  { replace (Z.of_nat (length timestamps) - 1)%Z
      with (Z.of_nat (length timestamps - 1)) by lia.
    apply index_nth. lia. }
  rewrite Hlast. change 0%Z with (Z.of_nat 0). rewrite (index_nth 0) by lia.
  assert (Hmiddle :
            JsMap.get (str (nth i timestamps ""))
                      (fold_left (middleStep env gopDir videoExt timestamps)
                                 (seq 1 (length timestamps - 1))
                                 (if existsSync env (segment 0)
                                  then JsMap.set (str (nth 0 timestamps ""))
                                                 (segment 0) JsMap.empty
                                  else JsMap.empty))
            = if existsSync env (segment i) then Some (segment i) else None).
  { rewrite get_middle by lia.
    destruct (Nat.eq_dec i 0) as [->|Hpos].
    - cbn [Nat.leb andb].
      destruct (existsSync env (segment 0)); [|reflexivity].
      apply get_set_same.
    - destruct (Nat.leb_spec 1 i); [|lia].
      destruct (Nat.ltb_spec i (1 + (length timestamps - 1))); [|lia].
      cbn [andb].
      destruct (existsSync env (segment i)); [reflexivity|].
      destruct (existsSync env (segment 0)); [|reflexivity].
      rewrite get_set_other; [reflexivity|].
      intros Heq. apply Hpos. apply marker_inj; [lia|lia|exact Heq]. }
  destruct (existsSync env (segment (length timestamps))) eqn:Hex.
  - destruct (Nat.eqb_spec (S i) (length timestamps)) as [Heq|Hne]; cbn [andb].
    + replace (length timestamps - 1)%nat with i by lia.
      apply get_set_same.
    + rewrite get_set_other; [exact Hmiddle|].
      intros Heq. apply Hne.
      assert (i = length timestamps - 1)%nat
        by (apply marker_inj; [lia|lia|exact Heq]).
      lia.
  - rewrite andb_false_r. exact Hmiddle.
Qed.

End GopMapLookup.

(** X11. When the markers are pairwise distinct, the map returned by
    [splitVideoIntoGops] sends the marker of index [i] to the file
    [segment_i] if that file exists, and to nothing otherwise; except the
    last marker, which is sent to the trailing file [segment_n]
    ([n] the number of markers) whenever that file exists, so that
    [segment_(n-1)] is then not reachable through the map. *)
Theorem splitVideoIntoGops_lookup :
  forall (ffmpegPath tempDir : string) (env : GopAnalyzer.Env)
         (videoPath : string) (timestamps : list string)
         (gopMap : JsMap.t) (i : nat) (marker : string),
    NoDup timestamps ->
    nth_error timestamps i = Some marker ->
    GopAnalyzer.splitVideoIntoGops ffmpegPath tempDir env videoPath timestamps
      = Ok gopMap ->
    let segment :=
      GopAnalyzer.segmentPath (GopAnalyzer.gopDirOf tempDir env videoPath)
                              (GopAnalyzer.videoExtOf env videoPath) in
    JsMap.get (JsMap.str marker) gopMap
    = if ((S i =? length timestamps)%nat
          && GopAnalyzer.existsSync env (segment (length timestamps)))%bool
      then Some (segment (length timestamps))
      else if GopAnalyzer.existsSync env (segment i)
           then Some (segment i) else None.
Proof.
  intros ffmpegPath tempDir env videoPath timestamps gopMap i marker
         Hdistinct Hnth Hsplit segment.
  assert (Hi : (i < length timestamps)%nat).
  { apply nth_error_Some. congruence. }
  assert (Hmarker : marker = nth i timestamps "").
  { rewrite (nth_error_nth' timestamps "" Hi) in Hnth. congruence. }
  unfold GopAnalyzer.splitVideoIntoGops in Hsplit.
  destruct (GopAnalyzer.ensureGopDir _ _); [|discriminate].
  destruct (GopAnalyzer.execAsync _ _); [|discriminate].
  injection Hsplit as <-. subst marker.
  apply get_buildGopMap; assumption.
Qed.

Lemma splitVideoIntoGops_lookup_witness :
  let env := Scenario.fsWith ["/w/temp/gops/v/segment_0.mp4";
                              "/w/temp/gops/v/segment_1.mp4";
                              "/w/temp/gops/v/segment_2.mp4"] in
  JsMap.get (JsMap.str "1.200000")
            [(JsMap.str "0.000000", "/w/temp/gops/v/segment_0.mp4");
             (JsMap.str "1.200000", "/w/temp/gops/v/segment_2.mp4")]
  = Some "/w/temp/gops/v/segment_2.mp4".
Proof.
  cbv zeta.
  apply (splitVideoIntoGops_lookup
           "" "/w/temp/gops"
           (Scenario.fsWith ["/w/temp/gops/v/segment_0.mp4";
                             "/w/temp/gops/v/segment_1.mp4";
                             "/w/temp/gops/v/segment_2.mp4"])
           "/w/temp/v.mp4" ["0.000000"; "1.200000"] _ 1 "1.200000").
  - repeat constructor; cbn; intuition discriminate.
  - reflexivity.
  - reflexivity.
Defined.

(** X12. [extractGop] rejects a marker that is not in the list whatever
    the file system holds, and a path it returns is one of the numbered
    segment files of the asset's directory, found on disk after the split,
    for a marker of the list. *)
Theorem extractGop_returns_existing_segment :
  forall (ffmpegPath tempDir : string) (env : GopAnalyzer.Env)
         (videoPath : string) (allTimestamps : list string)
         (targetTimestamp : string),
    (~ In targetTimestamp allTimestamps ->
     exists e,
       GopAnalyzer.extractGop ffmpegPath tempDir env videoPath allTimestamps
                              targetTimestamp = Throw e) /\
    (forall gopPath,
        GopAnalyzer.extractGop ffmpegPath tempDir env videoPath allTimestamps
                               targetTimestamp = Ok gopPath ->
        In targetTimestamp allTimestamps /\
        GopAnalyzer.existsSync env gopPath = true /\
        exists j,
          (j <= length allTimestamps)%nat /\
          gopPath
          = GopAnalyzer.segmentPath
              (GopAnalyzer.gopDirOf tempDir env videoPath)
              (GopAnalyzer.videoExtOf env videoPath) j).
Proof.
  intros ffmpegPath tempDir env videoPath allTimestamps targetTimestamp.
  unfold GopAnalyzer.extractGop.
  destruct (existsb (String.eqb targetTimestamp) allTimestamps) eqn:Hin.
  - apply existsb_exists in Hin. destruct Hin as (x & Hx & Heq).
    apply String.eqb_eq in Heq. subst x. split; [contradiction|].
    cbn [negb]. intros gopPath Hrun. split; [exact Hx|].
    unfold GopAnalyzer.splitVideoIntoGops in Hrun.
    destruct (GopAnalyzer.ensureGopDir _ _); [|discriminate].
    destruct (GopAnalyzer.execAsync _ _); [|discriminate].
    destruct (JsMap.get _ _) as [p|] eqn:Hget; [|discriminate].
    destruct (String.eqb p ""); [discriminate|]. injection Hrun as <-.
    destruct (listed_buildGopMap _ _ _ _ _ _ Hget) as (j & Hj & Hp & Hex).
    split; [exact Hex|]. exists j. split; assumption.
  - split; [|discriminate]. intros _. cbn [negb]. eexists; reflexivity.
Qed.

Lemma extractGop_returns_existing_segment_witness :
  let env := Scenario.fsWith ["/w/temp/gops/v/segment_0.mp4";
                              "/w/temp/gops/v/segment_2.mp4"] in
  In "1.200000" ["0.000000"; "1.200000"] /\
  GopAnalyzer.existsSync env "/w/temp/gops/v/segment_2.mp4" = true /\
  exists j,
    (j <= 2)%nat /\
    "/w/temp/gops/v/segment_2.mp4"
    = GopAnalyzer.segmentPath
        (GopAnalyzer.gopDirOf "/w/temp/gops" env "/w/temp/v.mp4")
        (GopAnalyzer.videoExtOf env "/w/temp/v.mp4") j.
Proof.
  cbv zeta.
  apply (proj2 (extractGop_returns_existing_segment
                  "" "/w/temp/gops"
                  (Scenario.fsWith ["/w/temp/gops/v/segment_0.mp4";
                                    "/w/temp/gops/v/segment_2.mp4"])
                  "/w/temp/v.mp4" ["0.000000"; "1.200000"] "1.200000")).
  reflexivity.
Defined.

Section MarkerList.

Import VerifierService.

Lemma allTimestamps_added selected :
  forall all,
  exists added,
    fold_left (fun all gopTimestamp =>
                 if includes all gopTimestamp then all
                 else (all ++ [gopTimestamp])%list) selected all
    = (all ++ added)%list /\
    NoDup added /\
    (forall g, In g added <-> In g selected /\ ~ In g all).
Proof.
  induction selected as [|g rest IH]; intros all.
  - exists []. rewrite app_nil_r. split; [reflexivity|].
    split; [constructor|]. intros x. cbn. tauto.
  - cbn [fold_left]. destruct (includes all g) eqn:Hinc.
    + apply includes_In in Hinc.
      destruct (IH all) as (added & Heq & Hnodup & Hmem).
      exists added. split; [exact Heq|]. split; [exact Hnodup|].
      intros x. rewrite Hmem. cbn. split.
      * intros [Hx Hnot]. auto.
      * intros [[<-|Hx] Hnot]; [contradiction|auto].
    + assert (Hnew : ~ In g all).
      { intros Hin. apply includes_In in Hin. congruence. }
      destruct (IH (all ++ [g])%list) as (added & Heq & Hnodup & Hmem).
      exists (g :: added). rewrite Heq, <- app_assoc.
      split; [reflexivity|]. split.
      * constructor; [|exact Hnodup]. intros Hin. apply Hmem in Hin.
        destruct Hin as [_ Hnot]. apply Hnot, in_or_app. right; left.
        reflexivity.
      * intros x. cbn [In]. rewrite Hmem. split.
        -- intros [<-|[Hx Hnot]]; [auto|].
           split; [auto|]. intros Hin. apply Hnot, in_or_app. left; exact Hin.
        -- intros [[<-|Hx] Hnot]; [auto|].
           destruct (string_dec g x) as [->|Hne]; [auto|]. right.
           split; [exact Hx|]. intros Hin. apply in_app_or in Hin.
           destruct Hin as [Hin|[Heq'|[]]]; [contradiction|congruence].
Qed.

End MarkerList.

(** X13. The marker list handed to the extractor starts with the task's
    keyframe list, in its order, followed by the selected markers that are
    not keyframes, each once; for a task without keyframe list it is the
    selection itself, repetitions included. *)
Theorem allTimestampsOf_extends_keyframes :
  forall (keyframe_timestamps : option (list string))
         (selected_gops : list string),
    match keyframe_timestamps with
    | Some keyframes =>
        exists added,
          VerifierService.allTimestampsOf (Some keyframes) selected_gops
          = (keyframes ++ added)%list /\
          NoDup added /\
          (forall g, In g added <->
                     In g selected_gops /\ ~ In g keyframes)
    | None =>
        VerifierService.allTimestampsOf None selected_gops = selected_gops
    end.
Proof.
  intros [keyframes|] selected_gops; unfold VerifierService.allTimestampsOf.
  - apply allTimestamps_added.
  - destruct (allTimestamps_added selected_gops selected_gops)
      as (added & -> & _ & Hmem).
    destruct added as [|g rest]; [apply app_nil_r|].
    destruct (proj1 (Hmem g) (or_introl eq_refl)) as [Hin Hnot].
    contradiction.
Qed.

Section ScoreLoopOutcome.

Import Types Runtime VerifierService.

Variables (w : World) (sourceGopMap resultGopMap : JsMap.t).

(** The score was computed from the two segments registered under its
    marker: the scorer's value lowered by 10, and the fingerprint of the
    candidate segment. *)
Let measured (score : GopScore) : Prop :=
  exists value,
    scored w sourceGopMap resultGopMap
           (timestamp score, (value, hash score)) /\
    vmaf_score score = value - 10.

Lemma scoreLoop_outcome_from selected_gops :
  forall collected s,
    match scoreLoop w sourceGopMap resultGopMap selected_gops collected s with
    | (Ok scores, _) =>
        exists added,
          scores = (collected ++ added)%list /\
          map timestamp added
          = filter (bothPresent sourceGopMap resultGopMap) selected_gops /\
          Forall measured added
    | (Throw e, _) =>
        exists g sourceGopPath resultGopPath,
          In g selected_gops /\
          present (JsMap.get (JsMap.str g) sourceGopMap)
            = Some sourceGopPath /\
          present (JsMap.get (JsMap.str g) resultGopMap)
            = Some resultGopPath /\
          sha256File w resultGopPath = Throw e
    end.
Proof.
  induction selected_gops as [|g rest IH]; intros collected s.
  - cbn. exists []. rewrite app_nil_r. repeat split. constructor.
  - cbn [scoreLoop filter]. unfold bothPresent at 1.
    destruct (present (JsMap.get (JsMap.str g) sourceGopMap))
      as [sp|] eqn:Hsrc;
      [destruct (present (JsMap.get (JsMap.str g) resultGopMap))
         as [rp|] eqn:Hres|].
    + unfold bind at 1.
      unfold calculateVmafScore, bind at 1, emit at 1, liftResult.
      destruct (calculateVmafScore_total
                  (ffmpegPath w) (vmafTempDir w) (vmafEnv w sp rp) sp rp)
        as (value & Hvalue).
      rewrite Hvalue. unfold bind at 1.
      unfold calculateGopHash, bind at 1, emit at 1, liftResult.
      destruct (sha256File w rp) as [gopHash|e] eqn:Hhash.
      * specialize (IH (collected ++ [mkGopScore g (value - 10) gopHash])%list
                       (append (append s [EvVmaf sp rp]) [EvReadFile rp])).
        destruct (scoreLoop _ _ _ _ _ _) as [[scores|e] s'].
        -- destruct IH as (added & -> & Hstamps & Hmeasured).
           exists (mkGopScore g (value - 10) gopHash :: added).
           rewrite <- app_assoc. split; [reflexivity|].
           split; [cbn; rewrite Hstamps; reflexivity|].
           constructor; [|exact Hmeasured].
           exists value. split; [|reflexivity].
           exists sp, rp. cbn. auto.
        -- destruct IH as (g' & sp' & rp' & Hin & Hrest).
           exists g', sp', rp'. split; [right; exact Hin|exact Hrest].
      * exists g, sp, rp. split; [left; reflexivity|]. auto.
    + specialize (IH collected s).
      destruct (scoreLoop _ _ _ _ _ _) as [[scores|e] s']; [exact IH|].
      destruct IH as (g' & sp' & rp' & Hin & Hrest).
      exists g', sp', rp'. split; [right; exact Hin|exact Hrest].
    + specialize (IH collected s).
      destruct (scoreLoop _ _ _ _ _ _) as [[scores|e] s']; [exact IH|].
      destruct IH as (g' & sp' & rp' & Hin & Hrest).
      exists g', sp', rp'. split; [right; exact Hin|exact Hrest].
Qed.

End ScoreLoopOutcome.

(** X14. The scoring loop yields one score per selected marker that has a
    segment in both maps, in selection order (a marker selected twice is
    scored twice); each score carries the scorer's value lowered by 10 and
    the fingerprint of the candidate segment. The loop fails only when the
    candidate segment of such a marker cannot be read for its
    fingerprint. *)
Theorem scoreLoop_outcome :
  forall (w : Runtime.World) (sourceGopMap resultGopMap : JsMap.t)
         (selected_gops : list string) (s : Runtime.State),
    match VerifierService.scoreLoop w sourceGopMap resultGopMap
                                    selected_gops [] s with
    | (Ok scores, _) =>
        map Types.timestamp scores
        = filter (VerifierService.bothPresent sourceGopMap resultGopMap)
                 selected_gops /\
        Forall (fun score =>
                  exists value,
                    VerifierService.scored
                      w sourceGopMap resultGopMap
                      (Types.timestamp score, (value, Types.hash score)) /\
                    Types.vmaf_score score = value - 10) scores
    | (Throw e, _) =>
        exists g sourceGopPath resultGopPath,
          In g selected_gops /\
          VerifierService.present (JsMap.get (JsMap.str g) sourceGopMap)
            = Some sourceGopPath /\
          VerifierService.present (JsMap.get (JsMap.str g) resultGopMap)
            = Some resultGopPath /\
          Runtime.sha256File w resultGopPath = Throw e
    end.
Proof.
  intros w sourceGopMap resultGopMap selected_gops s.
  pose proof (scoreLoop_outcome_from w sourceGopMap resultGopMap
                                     selected_gops [] s) as H.
  destruct (VerifierService.scoreLoop _ _ _ _ _ _) as [[scores|e] s'].
  - destruct H as (added & -> & Hstamps & Hmeasured). split; assumption.
  - exact H.
Qed.

Section StatusProvenance.

Import Types Runtime CommitteeClient.

Variables (w : World) (taskId : string).

(** [status] is the payload of a request that was sent to the status URL
    of [m] between the states [s] and [s'] and answered with HTTP 200. *)
Let answeredBetween (s s' : State) (m : CommitteeMember) (status : Json)
  : Prop :=
  exists n,
    (hits (statusUrl m taskId) (trace s) <= n
     < hits (statusUrl m taskId) (trace s'))%nat /\
    answered w (statusUrl m taskId) n = Some status.

Lemma hits_append u s events :
  hits u (trace (append s events)) = (hits u (trace s) + hits u events)%nat.
Proof. cbn [append trace]. apply hits_app. Qed.

Lemma guardedQuery_provenance member s :
  exists r events,
    tryCatch
      (status <- getTaskStatusFromMember w member taskId ;;
       ret (if truthy status then Some status else None))
      (fun _ => ret None) s
    = (Ok r, append s events) /\
    (forall status, r = Some status ->
                    answeredBetween s (append s events) member status).
Proof.
  unfold tryCatch, bind. rewrite getTaskStatusFromMember_run.
  set (url := statusUrl member taskId).
  destruct (answered w url (hits url (trace s))) as [payload|] eqn:H1.
  - exists (Some payload), [EvHttpGet url]. unfold ret.
    rewrite (answered_truthy _ _ _ _ H1). split; [reflexivity|].
    intros status [= <-]. exists (hits url (trace s)). fold url.
    rewrite hits_append, hits_one_get, String.eqb_refl.
    split; [lia|exact H1].
  - destruct (answered w url (S (hits url (trace s)))) as [payload|] eqn:H2.
    + exists (Some payload), [EvHttpGet url; EvSleep 1000; EvHttpGet url].
      unfold ret. rewrite (answered_truthy _ _ _ _ H2).
      split; [reflexivity|].
      intros status [= <-]. exists (S (hits url (trace s))). fold url.
      rewrite hits_append, hits_two_gets, String.eqb_refl.
      split; [lia|exact H2].
    + exists None, [EvHttpGet url; EvSleep 1000; EvHttpGet url].
      split; [reflexivity|discriminate].
Qed.

Lemma queryFollowers_provenance followers :
  forall s,
  exists r events,
    queryFollowers w followers taskId s = (Ok r, append s events) /\
    (forall status,
        r = Some status ->
        exists m, In m followers /\
                  answeredBetween s (append s events) m status).
Proof.
  induction followers as [|member rest IH]; intros s.
  - exists None, []. rewrite append_nil. split; [reflexivity|discriminate].
  - cbn [queryFollowers]. unfold bind at 1.
    destruct (guardedQuery_provenance member s) as (r & events & -> & Hr).
    destruct r as [payload|].
    + exists (Some payload), events. split; [reflexivity|].
      intros status [= <-]. exists member. split; [left; reflexivity|].
      apply Hr. reflexivity.
    + destruct (IH (append s events)) as (r & events' & -> & Hrest).
      exists r, (events ++ events')%list. rewrite append_append.
      split; [reflexivity|].
      intros status Hstatus.
      destruct (Hrest _ Hstatus) as (m & Hin & n & Hn & Hanswered).
      exists m. split; [right; exact Hin|]. exists n. split; [|exact Hanswered].
      rewrite append_append, hits_append in Hn.
      rewrite hits_append, hits_app in Hn.
      rewrite hits_append, hits_app. lia.
Qed.

Lemma getTaskStatusRound_provenance s :
  let s1 := snd (updateCommitteeMembers w s) in
  exists r events,
    getTaskStatusRound w taskId s = (r, append s1 events) /\
    (forall status,
        r = Ok status ->
        exists m, In m (committeeMembers s1) /\
                  answeredBetween s1 (append s1 events) m status).
Proof.
  intros s1.
  destruct (updateCommitteeMembers_spec w s) as (s1' & Hupd & _ & _ & _ & Hlen).
  assert (Hs1 : s1 = s1') by (subst s1; rewrite Hupd; reflexivity).
  rewrite <- Hs1 in Hlen, Hupd. clear Hs1 s1'.
  unfold getTaskStatusRound. unfold bind at 1. rewrite Hupd.
  unfold bind at 1, get at 1.
  destruct (Nat.eqb_spec (length (committeeMembers s1)) 0) as [Hzero|_]; [lia|].
  unfold bind at 1.
  pose (followers := filter (fun m => negb (is_leader m)) (committeeMembers s1)).
  assert (Hfollowers : forall m, In m followers -> In m (committeeMembers s1)).
  { intros m Hin. apply filter_In in Hin. tauto. }
  fold followers.
  destruct (find is_leader (committeeMembers s1)) as [leader|] eqn:Hleader.
  - apply find_some in Hleader. destruct Hleader as [Hleader _].
    destruct (guardedQuery_provenance leader s1) as (r & events & -> & Hr).
    destruct r as [payload|].
    + exists (Ok payload), events. split; [reflexivity|].
      intros status [= <-]. exists leader. split; [exact Hleader|].
      apply Hr. reflexivity.
    + unfold bind at 1.
      destruct (queryFollowers_provenance followers (append s1 events))
        as (r & events' & -> & Hrest).
      rewrite append_append.
      destruct r as [payload|].
      * exists (Ok payload), (events ++ events')%list.
        split; [reflexivity|]. intros status [= <-].
        destruct (Hrest _ eq_refl) as (m & Hin & n & Hn & Hanswered).
        exists m. split; [auto|]. exists n. split; [|exact Hanswered].
        rewrite append_append, hits_append in Hn.
        rewrite hits_append, hits_app in Hn.
      rewrite hits_append, hits_app. lia.
      * eexists; exists (events ++ events')%list.
        split; [reflexivity|discriminate].
  - unfold ret at 1. unfold bind at 1.
    destruct (queryFollowers_provenance followers s1)
      as (r & events' & -> & Hrest).
    destruct r as [payload|].
    + exists (Ok payload), events'. split; [reflexivity|].
      intros status [= <-].
      destruct (Hrest _ eq_refl) as (m & Hin & Hm).
      exists m. split; [auto|exact Hm].
    + eexists; exists events'. split; [reflexivity|discriminate].
Qed.

End StatusProvenance.

(** X15. [getTaskStatus] makes no status up: what it returns is either
    [null], or a truthy payload that a member of the committee list sent
    with HTTP 200 in answer to one of the status requests of this very
    call. *)
Theorem getTaskStatus_payload_was_answered :
  forall (w : Runtime.World) (taskId : string) (s : Runtime.State)
         (status : Types.Json) (s' : Runtime.State),
    CommitteeClient.getTaskStatus w taskId s = (Ok status, s') ->
    status = Types.JNull \/
    (Types.truthy status = true /\
     exists m n,
       In m (Runtime.committeeMembers s') /\
       (Runtime.hits (CommitteeClient.statusUrl m taskId) (Runtime.trace s)
        <= n
        < Runtime.hits (CommitteeClient.statusUrl m taskId)
                       (Runtime.trace s'))%nat /\
       CommitteeClient.answered w (CommitteeClient.statusUrl m taskId) n
       = Some status).
Proof.
  intros w taskId s status s' Hrun.
  rewrite getTaskStatus_rounds in Hrun.
  destruct (getTaskStatusRound_provenance w taskId s)
    as (r1 & events1 & Hround1 & Hfrom1).
  rewrite Hround1 in Hrun.
  pose proof (updateCommitteeMembers_trace w s) as Htrace1.
  destruct r1 as [status1|e1].
  - injection Hrun as <- <-. right.
    destruct (Hfrom1 _ eq_refl) as (m & Hin & n & Hn & Hanswered).
    split; [exact (answered_truthy _ _ _ _ Hanswered)|].
    exists m, n. split; [exact Hin|]. split; [|exact Hanswered].
    rewrite Htrace1 in Hn. exact Hn.
  - clear Hfrom1.
    set (s2 := Runtime.append
                 (Runtime.append
                    (snd (CommitteeClient.updateCommitteeMembers w s)) events1)
                 [Runtime.EvSleep 1000]) in *.
    destruct (getTaskStatusRound_provenance w taskId s2)
      as (r2 & events2 & Hround2 & Hfrom2).
    rewrite Hround2 in Hrun.
    pose proof (updateCommitteeMembers_trace w s2) as Htrace2.
    destruct r2 as [status2|e2]; injection Hrun as <- <-; [right|left; reflexivity].
    destruct (Hfrom2 _ eq_refl) as (m & Hin & n & Hn & Hanswered).
    split; [exact (answered_truthy _ _ _ _ Hanswered)|].
    exists m, n. split; [exact Hin|]. split; [|exact Hanswered].
    assert (Hlow :
              (Runtime.hits (CommitteeClient.statusUrl m taskId)
                            (Runtime.trace s)
               <= Runtime.hits
                    (CommitteeClient.statusUrl m taskId)
                    (Runtime.trace
                       (snd (CommitteeClient.updateCommitteeMembers w s2))))%nat).
    { rewrite Htrace2. unfold s2.
      rewrite append_append, hits_append, Htrace1. lia. }
    lia.
Qed.

Lemma getTaskStatus_payload_was_answered_witness :
  Scenario.statusPayload = Types.JNull \/
  (Types.truthy Scenario.statusPayload = true /\
   exists m n,
     In m (Runtime.committeeMembers
             (snd (CommitteeClient.getTaskStatus
                     Scenario.onlyFollower2Answers "t1" Scenario.idle))) /\
     (Runtime.hits (CommitteeClient.statusUrl m "t1")
                   (Runtime.trace Scenario.idle)
      <= n
      < Runtime.hits (CommitteeClient.statusUrl m "t1")
                     (Runtime.trace
                        (snd (CommitteeClient.getTaskStatus
                                Scenario.onlyFollower2Answers "t1"
                                Scenario.idle))))%nat /\
     CommitteeClient.answered Scenario.onlyFollower2Answers
                              (CommitteeClient.statusUrl m "t1") n
     = Some Scenario.statusPayload).
Proof.
  apply (getTaskStatus_payload_was_answered
           Scenario.onlyFollower2Answers "t1" Scenario.idle
           Scenario.statusPayload
           (snd (CommitteeClient.getTaskStatus
                   Scenario.onlyFollower2Answers "t1" Scenario.idle))).
  vm_compute. reflexivity.
Defined.

Section FanOutEvents.

Import Types Runtime CommitteeClient.

Variables (w : World) (body : ApiProof) (urlOf : CommitteeMember -> string).

(** An action of a fan-out over [members]: a request carrying [body] to
    the URL of one of them, or a pause. *)
Let fanOutAction (members : list CommitteeMember) (e : Event) : Prop :=
  (exists m, In m members /\ e = EvHttpPost (urlOf m) body)
  \/ exists ms, e = EvSleep ms.

Lemma attemptEvents_actions m members :
  In m members ->
  forall retries delay,
    Forall (fanOutAction members) (attemptEvents (urlOf m) body delay retries).
Proof.
  intros Hin. induction retries as [|retries IH]; intros delay; cbn.
  - constructor; [|constructor]. left. exists m. auto.
  - constructor; [left; exists m; auto|].
    constructor; [right; eexists; reflexivity|]. apply IH.
Qed.

Lemma fanOutWith_actions remaining delay members :
  forall known s,
    incl members known ->
    exists outcomes events,
      allSettled
        (map (fun m => sendWithRetries w (urlOf m) body remaining delay)
             members) s
      = (Ok outcomes, append s events) /\
      Forall (fanOutAction known) events.
Proof.
  induction members as [|m rest IH]; intros known s Hincl.
  - exists [], []. rewrite append_nil. split; [reflexivity|constructor].
  - cbn [map allSettled].
    destruct (sendWithRetries_run w (urlOf m) body remaining delay s)
      as (retries & _ & -> & _).
    unfold bind.
    destruct (IH known
                 (append s (attemptEvents (urlOf m) body delay retries)))
      as (outcomes & events & -> & Hactions).
    { intros x Hx. apply Hincl. right; exact Hx. }
    eexists; eexists. rewrite append_append. split; [reflexivity|].
    apply Forall_app. split; [|exact Hactions].
    apply attemptEvents_actions. apply Hincl. left; reflexivity.
Qed.

End FanOutEvents.

(** X16. The mark [processNextTask] puts on a supplemental proof does not
    reach the committee: every request [sendSupplementaryProof] sends for
    the marked proof carries the body of the unmarked proof, and goes to
    the supplementary URL of a member of the list; apart from these
    requests the call only pauses. *)
Theorem sendSupplementaryProof_mark_not_sent :
  forall (w : Runtime.World) (taskId : string)
         (proof : Types.VerifierQosProof) (s : Runtime.State),
    let s1 := snd (CommitteeClient.updateCommitteeMembers w s) in
    exists delivered events,
      CommitteeClient.sendSupplementaryProof
        w taskId (VerifierService.markSupplementary proof) s
      = (Ok delivered, Runtime.append s1 events) /\
      Forall (fun e =>
                (exists m,
                    In m (Runtime.committeeMembers s1) /\
                    e = Runtime.EvHttpPost
                          (CommitteeClient.supplementaryUrl m taskId)
                          (CommitteeClient.convertToApiProofFormat proof))
                \/ exists ms, e = Runtime.EvSleep ms) events.
Proof.
  intros w taskId proof s s1.
  destruct (fanOutWith_actions
              w (CommitteeClient.convertToApiProofFormat proof)
              (fun m => CommitteeClient.supplementaryUrl m taskId)
              2 2000 (Runtime.committeeMembers s1)
              (Runtime.committeeMembers s1) s1 (incl_refl _))
    as (outcomes & events & Hrun & Hactions).
  exists (0 <? CommitteeClient.successCount outcomes)%nat, events.
  split; [|exact Hactions].
  apply sendSupplementaryProof_unfold. exact Hrun.
Qed.
